(** * Quest parsing and Pokémon matching of [cogs/pokemonquesthelper.py]

    A shallow embedding of the [PokemonQuestHelper] cog: [get_region],
    [is_regional_variant], [parse_quest] and [find_matching_pokemon], with the
    tables built by [load_data].

    Python values are modelled as follows.
    - [str] is a list of Unicode code points ([pystr]); [x in s] on strings is
      the substring test [contains].
    - [int] is [Z].
    - [Optional[str]] is [option pystr]; truthiness is [truthy].
    - The dict [pokemon_data], which is iterated in insertion order, is an
      association list; the dict [spawn_rates] is a [gmap]; the sets of
      [gender_data] are [gset]s.
    - What the interpreter supplies and the repository does not (the Unicode
      case mapping behind [str.lower], and the character classes and case
      folding of the [re] module) is the interface [UnicodeDB]; every general
      theorem holds for each implementation of it. *)

From Stdlib Require Import ZArith NArith Lia Bool.
From Stdlib Require Import Strings.String Strings.Ascii.
From stdpp Require Import base list gmap sorting.
From Stdlib Require Import List.
Import ListNotations.

Local Open Scope Z_scope.

(* ===================================================================== *)
(** ** Python strings *)
(* ===================================================================== *)

(** A Python [str]: a sequence of code points. *)
Definition pystr : Type := list N.

(** Decoding of the UTF-8 bytes of a literal of this file into code points. *)
Fixpoint utf8_decode (bs : list N) : pystr :=
  match bs with
  | [] => []
  | b0 :: bs1 =>
      if (b0 <? 128)%N then b0 :: utf8_decode bs1
      else
        match bs1 with
        | [] => []
        | b1 :: bs2 =>
            if (b0 <? 224)%N
            then (N.lor (N.shiftl (N.land b0 31) 6) (N.land b1 63)) :: utf8_decode bs2
            else
              match bs2 with
              | [] => []
              | b2 :: bs3 =>
                  if (b0 <? 240)%N
                  then (N.lor (N.shiftl (N.land b0 15) 12)
                          (N.lor (N.shiftl (N.land b1 63) 6) (N.land b2 63)))
                         :: utf8_decode bs3
                  else
                    match bs3 with
                    | [] => []
                    | b3 :: bs4 =>
                        (N.lor (N.shiftl (N.land b0 7) 18)
                           (N.lor (N.shiftl (N.land b1 63) 12)
                              (N.lor (N.shiftl (N.land b2 63) 6) (N.land b3 63))))
                          :: utf8_decode bs4
                    end
              end
        end
  end.

(** The Python string written by a literal. *)
Definition lit (s : string) : pystr :=
  utf8_decode (List.map N_of_ascii (list_ascii_of_string s)).

(** [s.startswith(p)] *)
Fixpoint startswith (p s : pystr) : bool :=
  match p, s with
  | [], _ => true
  | _ :: _, [] => false
  | a :: p', b :: s' => (a =? b)%N && startswith p' s'
  end.

(** [needle in hay] for two strings. *)
Fixpoint contains (needle hay : pystr) : bool :=
  startswith needle hay ||
  match hay with
  | [] => false
  | _ :: hay' => contains needle hay'
  end.

(** [a == b] on strings. *)
Definition str_eqb (a b : pystr) : bool := bool_decide (a = b).

(** [a == b] where [b] may be [None]; [a] is a string. *)
Definition str_eqb_opt (a : pystr) (b : option pystr) : bool :=
  match b with
  | Some b' => str_eqb a b'
  | None => false
  end.

(** [a == b] where both may be [None]. *)
Definition opt_eqb (a b : option pystr) : bool := bool_decide (a = b).

(** Truthiness of an [Optional[str]]: [None] and [''] are falsy. *)
Definition truthy (o : option pystr) : bool :=
  match o with
  | Some (_ :: _) => true
  | _ => false
  end.

(** [l[:n]] for an [int] [n]. *)
Definition slice_to {A} (l : list A) (n : Z) : list A :=
  if 0 <=? n then firstn (Z.to_nat n) l
  else firstn (length l - Z.to_nat (- n)) l.

(** [for x in l: if stop(state): break; state = body(x, state)] *)
Fixpoint for_each {A S : Type} (stop : S -> bool) (body : A -> S -> S)
    (l : list A) (st : S) : S :=
  match l with
  | [] => st
  | x :: l' => if stop st then st else for_each stop body l' (body x st)
  end.

(* ===================================================================== *)
(** ** Exceptions *)
(* ===================================================================== *)

Inductive exn : Type :=
| UnboundLocalError (var : string)
| TypeError
| ValueError.

Inductive result (A : Type) : Type :=
| Ok (a : A)
| Raise (e : exn).
Arguments Ok {A} a.
Arguments Raise {A} e.

(** Sequencing: an exception ends the computation. Written [x ← r; k]. *)
#[export] Instance result_bind : MBind result := fun A B f r =>
  match r with
  | Ok a => f a
  | Raise e => Raise e
  end.

(** Reading a local variable that may not have been assigned. *)
Definition read_local {A} (var : string) (v : option A) : result A :=
  match v with
  | Some a => Ok a
  | None => Raise (UnboundLocalError var)
  end.

(* ===================================================================== *)
(** ** The Unicode tables of the interpreter *)
(* ===================================================================== *)

Class UnicodeDB : Type := {
  (** [s.lower()] *)
  str_lower : pystr -> pystr;
  (** whether a literal of a pattern compiled with [re.IGNORECASE] matches
      a character of the text *)
  re_ignorecase_eq : N -> N -> bool;
  (** the class [\s] *)
  isspace : N -> bool;
  (** the class [\d] *)
  isdecimal : N -> bool;
  (** the value of a decimal digit *)
  decimal_value : N -> Z
}.

(** The tables on U+0000..U+00FF, used to evaluate the examples, whose text
    lies in that range. A character above U+00FF is taken to lower to itself,
    to match itself only, and to be neither whitespace nor a digit. *)
Module Latin1.

Definition lower_cp (c : N) : N :=
  if ((65 <=? c) && (c <=? 90) ||
      (192 <=? c) && (c <=? 222) && negb (c =? 215))%N
  then (c + 32)%N else c.

Definition space (c : N) : bool :=
  ((9 <=? c) && (c <=? 13) || (28 <=? c) && (c <=? 32) ||
   (c =? 133) || (c =? 160))%N.

Definition digit (c : N) : bool := ((48 <=? c) && (c <=? 57))%N.

#[export] Instance db : UnicodeDB := {|
  str_lower := List.map lower_cp;
  re_ignorecase_eq := fun p c => (lower_cp p =? lower_cp c)%N;
  isspace := space;
  isdecimal := digit;
  decimal_value := fun c => Z.of_N c - 48
|}.

End Latin1.

(* ===================================================================== *)
(** ** The fragment of [re] that [parse_quest] uses *)
(* ===================================================================== *)

Module Re.

Inductive charset : Type :=
| Space   (* \s *)
| Digit.  (* \d *)

Inductive regex : Type :=
| Empty
| Literal (c : N)
| Cat (r1 r2 : regex)
| Alt (r1 r2 : regex)            (* r1|r2 *)
| Plus (cs : charset)            (* cs+, greedy *)
| Group (r : regex).             (* (r), group 1 *)

(** The pattern that matches the characters of [s] in turn. *)
Fixpoint literal (s : pystr) : regex :=
  match s with
  | [] => Empty
  | c :: s' => Cat (Literal c) (literal s')
  end.

Section Matcher.
Context {U : UnicodeDB}.

Definition in_charset (cs : charset) (c : N) : bool :=
  match cs with
  | Space => isspace c
  | Digit => isdecimal c
  end.

(** Greedy repetition of one character class with backtracking: as many
    characters as possible first, one fewer each time the rest fails. *)
Fixpoint repeat_max {A} (p : N -> bool) (s : pystr) (k : pystr -> option A)
    : option A :=
  match s with
  | c :: s' =>
      if p c then
        match repeat_max p s' k with
        | Some r => Some r
        | None => k s
        end
      else k s
  | [] => k []
  end.

(** Backtracking matcher at the head of [s]. The continuation [k] receives
    what is left of the text and the text of group 1. *)
Fixpoint exec {A} (r : regex) (s : pystr) (g : option pystr)
    (k : pystr -> option pystr -> option A) : option A :=
  match r with
  | Empty => k s g
  | Literal c =>
      match s with
      | c' :: s' => if re_ignorecase_eq c c' then k s' g else None
      | [] => None
      end
  | Cat r1 r2 => exec r1 s g (fun s' g' => exec r2 s' g' k)
  | Alt r1 r2 =>
      match exec r1 s g k with
      | Some x => Some x
      | None => exec r2 s g k
      end
  | Plus cs =>
      match s with
      | c :: s' =>
          if in_charset cs c
          then repeat_max (in_charset cs) s' (fun s'' => k s'' g)
          else None
      | [] => None
      end
  | Group r' =>
      exec r' s g (fun s' _ => k s' (Some (firstn (length s - length s') s)))
  end.

(** [re.search(r, s, re.IGNORECASE)]: the match at the leftmost position
    that has one, as the text of its group 1 ([None] when the group did not
    take part); [None] when there is no match. *)
Fixpoint search (r : regex) (s : pystr) : option (option pystr) :=
  match exec r s None (fun _ g => Some g) with
  | Some g => Some g
  | None =>
      match s with
      | [] => None
      | _ :: s' => search r s'
      end
  end.

(** [int(s)] on a string of decimal digits. *)
Definition int_of_digits (s : pystr) : Z :=
  fold_left (fun acc c => 10 * acc + decimal_value c) s 0.

(** [sys.get_int_max_str_digits()], which the program leaves at the value
    the interpreter starts with. *)
Definition int_max_str_digits : nat := 4300.

(** [int(x)] for the text of a group: [TypeError] on [None], [ValueError]
    on a string that is empty or has a character that is no decimal digit
    (signs, underscores and surrounding blanks, which [int] also takes, do
    not occur here), and [ValueError] on a string of more than
    [int_max_str_digits] digits, leading zeros included. *)
Definition int (x : option pystr) : result Z :=
  match x with
  | None => Raise TypeError
  | Some s =>
      match s with
      | [] => Raise ValueError
      | _ :: _ =>
          if forallb isdecimal s then
            if (int_max_str_digits <? length s)%nat then Raise ValueError
            else Ok (int_of_digits s)
          else Raise ValueError
      end
  end.

End Matcher.
End Re.

(* ===================================================================== *)
(** ** Data model *)
(* ===================================================================== *)

(** The values of [quest_info['type']]. *)
Inductive quest_type : Type :=
| Breed | Release | Gender | TypeRegion | GenericCatch | Unknown.

#[export] Instance quest_type_eq_dec : EqDecision quest_type.
Proof. solve_decision. Defined.

(** The dict built by [parse_quest]. *)
Module QuestInfo.
Record t : Type := mk {
  text : pystr;
  type : quest_type;
  region : option pystr;
  pokemon_type : option pystr;
  count : Z;
  gender : option pystr
}.
End QuestInfo.

(** A value of [pokemon_data]. *)
Module Pokemon.
Record t : Type := mk {
  name : pystr;
  type1 : pystr;
  type2 : option pystr;
  dex : Z;
  region : pystr
}.
End Pokemon.

(** An element of the result of [find_matching_pokemon]:
    [{**data, 'spawn_rate': ...}]. *)
Module Match.
Record t : Type := mk {
  data : Pokemon.t;
  spawn_rate : pystr
}.
End Match.

(** The tables of the cog ([self]). *)
Record Cog : Type := {
  pokemon_data : list (Z * Pokemon.t);
  spawn_rates : gmap Z pystr;
  gender_data : gmap pystr (gset pystr)
}.

(** A row of [pokemondata.csv]. *)
Record pokemon_row : Type := {
  row_Dex : Z;
  row_Name : pystr;
  row_Type_1 : pystr;
  row_Type_2 : pystr
}.

(** [d[k] = v] on a dict kept in insertion order: a key that is present
    keeps its place. *)
Fixpoint dict_set {V} (k : Z) (v : V) (d : list (Z * V)) : list (Z * V) :=
  match d with
  | [] => [(k, v)]
  | (k', v') :: d' => if k' =? k then (k, v) :: d' else (k', v') :: dict_set k v d'
  end.

(* ===================================================================== *)
(** ** [get_region] *)
(* ===================================================================== *)

Definition get_region (dex : Z) : pystr :=
  if (1 <=? dex) && (dex <=? 151) then lit "Kanto"
  else if (152 <=? dex) && (dex <=? 251) then lit "Johto"
  else if (252 <=? dex) && (dex <=? 386) then lit "Hoenn"
  else if (387 <=? dex) && (dex <=? 493) then lit "Sinnoh"
  else if (494 <=? dex) && (dex <=? 649) then lit "Unova"
  else if (650 <=? dex) && (dex <=? 721) then lit "Kalos"
  else if (722 <=? dex) && (dex <=? 809) then lit "Alola"
  else if (810 <=? dex) && (dex <=? 905) then lit "Galar"
  else if (906 <=? dex) && (dex <=? 1025) then lit "Paldea"
  else lit "Unknown".

(** The table of the specification: the nine ranges, each with its region. *)
Definition region_table : list (Z * Z * string) :=
  [ (1, 151, "Kanto"); (152, 251, "Johto"); (252, 386, "Hoenn");
    (387, 493, "Sinnoh"); (494, 649, "Unova"); (650, 721, "Kalos");
    (722, 809, "Alola"); (810, 905, "Galar"); (906, 1025, "Paldea") ]%string.

Section Cog.
Context {U : UnicodeDB}.

(* ===================================================================== *)
(** ** [is_regional_variant] and [load_data] *)
(* ===================================================================== *)

Definition regional_prefixes : list pystr :=
  [lit "alolan"; lit "galarian"; lit "hisuian"; lit "paldean"].

Definition is_regional_variant (pokemon_name : pystr) : bool :=
  let name_lower := str_lower pokemon_name in
  existsb (fun prefix => contains prefix name_lower) regional_prefixes.

Fixpoint lstrip (s : pystr) : pystr :=
  match s with
  | c :: s' => if isspace c then lstrip s' else s
  | [] => []
  end.

(** [s.strip()] *)
Definition strip (s : pystr) : pystr := rev (lstrip (rev (lstrip s))).

(** The loop of [load_data] over the rows of [pokemondata.csv]. *)
Definition load_pokemon_data (rows : list pokemon_row) : list (Z * Pokemon.t) :=
  fold_left
    (fun pokemon_data row =>
       let dex := row_Dex row in
       dict_set dex
         {| Pokemon.name := row_Name row;
            Pokemon.type1 := row_Type_1 row;
            Pokemon.type2 :=
              match strip (row_Type_2 row) with
              | [] => None
              | _ :: _ => Some (strip (row_Type_2 row))
              end;
            Pokemon.dex := dex;
            Pokemon.region := get_region dex |}
         pokemon_data)
    rows [].

(** The loop over the rows [(Dex, Chance)] of [spawnrates.csv]. *)
Definition load_spawn_rates (rows : list (Z * pystr)) : gmap Z pystr :=
  fold_left (fun spawn_rates row => <[fst row := snd row]> spawn_rates) rows ∅.

(** The loop over the names of one gender file. *)
Definition load_gender (names : list pystr) : gset pystr :=
  fold_left (fun s name => s ∪ {[strip name]}) names ∅.

Definition load_data (pokemon_rows : list pokemon_row)
    (spawn_rows : list (Z * pystr)) (male female genderless : list pystr) : Cog :=
  {| pokemon_data := load_pokemon_data pokemon_rows;
     spawn_rates := load_spawn_rates spawn_rows;
     gender_data :=
       <[lit "genderless" := load_gender genderless]>
         (<[lit "female" := load_gender female]>
            (<[lit "male" := load_gender male]> ∅)) |}.

(* ===================================================================== *)
(** ** [parse_quest] *)
(* ===================================================================== *)

Definition regions : list pystr :=
  List.map lit
    ["Kanto"; "Johto"; "Hoenn"; "Sinnoh"; "Unova"; "Kalos"; "Alola"; "Galar";
     "Paldea"]%string.

Definition types : list pystr :=
  List.map lit
    ["Normal"; "Fire"; "Water"; "Grass"; "Electric"; "Ice"; "Fighting"; "Poison";
     "Ground"; "Flying"; "Psychic"; "Bug"; "Rock"; "Ghost"; "Dragon"; "Dark";
     "Steel"; "Fairy"]%string.

(** [(?:Catch|Release|Breed)\s+(\d+)] *)
Definition count_re : Re.regex :=
  Re.Cat
    (Re.Alt (Re.literal (lit "Catch"))
       (Re.Alt (Re.literal (lit "Release")) (Re.literal (lit "Breed"))))
    (Re.Cat (Re.Plus Re.Space) (Re.Group (Re.Plus Re.Digit))).

(** The [if]/[elif] chain that opens [parse_quest]: the locals [quest_type]
    ([None] when no branch is taken) and [gender] (unassigned, here [None],
    outside the three gender branches). *)
Definition quest_keywords (quest_text_lower : pystr)
    : option quest_type * option pystr :=
  if contains (lit "breed") quest_text_lower then (Some Breed, None)
  else if contains (lit "release") quest_text_lower then (Some Release, None)
  else if contains (lit "female") quest_text_lower
       then (Some Gender, Some (lit "female"))
  else if contains (lit "male") quest_text_lower
       then (Some Gender, Some (lit "male"))
  else if contains (lit "unknown gender") quest_text_lower
          || contains (lit "genderless") quest_text_lower
       then (Some Gender, Some (lit "genderless"))
  else (None, None).

Definition parse_quest (quest_text : pystr) : result QuestInfo.t :=
  let quest_text_lower := str_lower quest_text in
  let '(quest_type, gender) := quest_keywords quest_text_lower in
  let has_region :=
    List.find (fun region => contains region quest_text) regions in
  let has_type :=
    List.find
      (fun ptype =>
         contains (str_lower ptype) quest_text_lower
         || contains (ptype ++ lit "-type") quest_text)
      types in
  let quest_type :=
    match quest_type with
    | Some t => t
    | None =>
        if truthy has_region || truthy has_type then TypeRegion
        else if contains (lit "catch") quest_text_lower then GenericCatch
        else Unknown
    end in
  count ←
    match Re.search count_re quest_text with
    | Some group1 => Re.int group1
    | None => Ok 0
    end;
  gender_value ←
    (if decide (quest_type = Gender)
     then g ← read_local "gender" gender; Ok (Some g)
     else Ok None);
  Ok {| QuestInfo.text := quest_text;
        QuestInfo.type := quest_type;
        QuestInfo.region := has_region;
        QuestInfo.pokemon_type := has_type;
        QuestInfo.count := count;
        QuestInfo.gender := gender_value |}.

(* ===================================================================== *)
(** ** [find_matching_pokemon] *)
(* ===================================================================== *)

Definition spawn_priorities : list pystr :=
  [lit "1/225"; lit "1/337"; lit "1/674"].

(** [len(matches) >= limit] *)
Definition full (limit : Z) (matches : list Match.t) : bool :=
  limit <=? Z.of_nat (length matches).

(** [any(m['dex'] == dex for m in matches)] *)
Definition suggested (matches : list Match.t) (dex : Z) : bool :=
  existsb (fun m => Pokemon.dex (Match.data m) =? dex) matches.

(** The body of the inner loop of a gender quest. *)
Definition gender_body (self : Cog) (gender_pokemon : gset pystr)
    (priority : pystr) (item : Z * Pokemon.t) (matches : list Match.t)
    : list Match.t :=
  let '(dex, data) := item in
  if suggested matches dex then matches
  else if is_regional_variant (Pokemon.name data) then matches
  else if bool_decide (Pokemon.name data ∈ gender_pokemon) then
    match spawn_rates self !! dex with
    | Some rate =>
        if str_eqb rate priority
        then matches ++ [Match.mk data rate]
        else matches
    | None => matches
    end
  else matches.

(** The body of the inner loop of a type/region quest. *)
Definition type_region_body (self : Cog) (quest_info : QuestInfo.t)
    (priority : pystr) (item : Z * Pokemon.t) (matches : list Match.t)
    : list Match.t :=
  let '(dex, data) := item in
  if suggested matches dex then matches
  else if is_regional_variant (Pokemon.name data) then matches
  else
    match spawn_rates self !! dex with
    | None => matches
    | Some rate =>
        if negb (str_eqb rate priority) then matches
        else
          let region_match :=
            negb (truthy (QuestInfo.region quest_info))
            || str_eqb_opt (Pokemon.region data) (QuestInfo.region quest_info) in
          let type_match :=
            negb (truthy (QuestInfo.pokemon_type quest_info))
            || (str_eqb_opt (Pokemon.type1 data) (QuestInfo.pokemon_type quest_info)
                || opt_eqb (Pokemon.type2 data) (QuestInfo.pokemon_type quest_info)) in
          if truthy (QuestInfo.region quest_info)
             && truthy (QuestInfo.pokemon_type quest_info)
          then
            if region_match && type_match
            then matches ++ [Match.mk data rate] else matches
          else if truthy (QuestInfo.pokemon_type quest_info) then
            if type_match then matches ++ [Match.mk data rate] else matches
          else if truthy (QuestInfo.region quest_info) then
            if region_match then matches ++ [Match.mk data rate] else matches
          else matches
    end.

(** The two nested loops, shared by both kinds of quest. *)
Definition scan (self : Cog) (limit : Z)
    (body : pystr -> Z * Pokemon.t -> list Match.t -> list Match.t)
    : list Match.t :=
  for_each (full limit)
    (fun priority matches =>
       for_each (full limit) (body priority) (pokemon_data self) matches)
    spawn_priorities [].

Definition find_matching_pokemon (self : Cog) (quest_info : QuestInfo.t)
    (limit : Z) : list Match.t :=
  match QuestInfo.type quest_info with
  | Breed | Release | GenericCatch | Unknown => []
  | Gender =>
      let gender_pokemon :=
        match QuestInfo.gender quest_info with
        | Some gender => default ∅ (gender_data self !! gender)
        | None => ∅
        end in
      slice_to (scan self limit (gender_body self gender_pokemon)) limit
  | TypeRegion =>
      slice_to (scan self limit (type_region_body self quest_info)) limit
  end.

End Cog.

(* ===================================================================== *)
(** ** The specification's reading of classification and of the count *)
(* ===================================================================== *)

Section Spec.
Context {U : UnicodeDB}.

(** The outcome of the first rule whose test holds. *)
Definition first_match {A} (rules : list (bool * A)) (otherwise : A) : A :=
  match List.find fst rules with
  | Some rule => snd rule
  | None => otherwise
  end.

(** A region constraint: the line contains, case-sensitively, the name of
    one of the nine regions. *)
Definition region_detected (line : pystr) : bool :=
  existsb (fun region => contains region line) regions.

(** A type constraint: the line contains, case-insensitively, one of the
    eighteen type names, or case-sensitively the pattern [<TypeName>-type]. *)
Definition type_detected (line : pystr) : bool :=
  existsb
    (fun ptype =>
       contains (str_lower ptype) (str_lower line)
       || contains (ptype ++ lit "-type") line)
    types.

(** The precedence list of the specification: category and gender. *)
Definition spec_classify (line : pystr) : quest_type * option pystr :=
  let has kw := contains (lit kw) (str_lower line) in
  first_match
    [ (has "breed"%string, (Breed, None));
      (has "release"%string, (Release, None));
      (has "female"%string, (Gender, Some (lit "female")));
      (has "male"%string, (Gender, Some (lit "male")));
      (has "unknown gender"%string || has "genderless"%string,
        (Gender, Some (lit "genderless")));
      (region_detected line || type_detected line, (TypeRegion, None));
      (has "catch"%string, (GenericCatch, None)) ]
    (Unknown, None).

Definition count_keywords : list pystr :=
  [lit "Catch"; lit "Release"; lit "Breed"].

(** [m] is the keyword [kw] up to case. *)
Definition ignorecase_match (kw m : pystr) : Prop :=
  Forall2 (fun p c => re_ignorecase_eq p c = true) kw m.

(** [s] opens with a keyword, whitespace and the integer [ds]: one of the
    three keywords up to case, one or more whitespace characters, and a run
    of decimal digits that ends where the digits end. *)
Definition count_pattern_here (s ds : pystr) : Prop :=
  exists kw m w rest,
    In kw count_keywords /\ ignorecase_match kw m /\
    s = m ++ w ++ ds ++ rest /\
    w <> [] /\ forallb isspace w = true /\
    ds <> [] /\ forallb isdecimal ds = true /\
    match rest with
    | c :: _ => isdecimal c = false
    | [] => True
    end.

(** An occurrence of the pattern at offset [i] of the line. *)
Definition count_occurrence (line : pystr) (i : nat) (ds : pystr) : Prop :=
  count_pattern_here (skipn i line) ds.

(** Two facts of the Unicode tables: no whitespace character is a decimal
    digit, and no character matches both the [R] of [Release] and the first
    letter of [Catch] or [Breed]. *)
Definition well_separated : Prop :=
  (forall c, isspace c = true -> isdecimal c = false) /\
  (forall c, re_ignorecase_eq 82 c = true ->
             re_ignorecase_eq 67 c = false /\ re_ignorecase_eq 66 c = false).

End Spec.

(** The tables of a cog as [load_data] leaves them: each value carries its
    key as [dex] and the region of that number, and no key occurs twice. *)
Definition loaded (pokemon_data : list (Z * Pokemon.t)) : Prop :=
  NoDup (List.map fst pokemon_data) /\
  Forall (fun item =>
            Pokemon.dex (snd item) = fst item /\
            Pokemon.region (snd item) = get_region (fst item))
    pokemon_data.

(* ===================================================================== *)
(** ** Definitions for the statements and their proofs *)
(* ===================================================================== *)

(** The continuation of a search: the match is reported by its group 1. *)
Definition report : pystr -> option pystr -> option (option pystr) :=
  fun _ g => Some g.

(** What follows the keyword: [\s+(\d+)]. *)
Definition count_tail : Re.regex :=
  Re.Cat (Re.Plus Re.Space) (Re.Group (Re.Plus Re.Digit)).

Section Acceptance.
Context {U : UnicodeDB}.

(** The entry appended for an item of the table in the pass of a tier. *)
Definition annotate (priority : pystr) (item : Z * Pokemon.t) : Match.t :=
  Match.mk (snd item) priority.

(** Whether a gender quest takes an item in the pass of a tier. *)
Definition accepts_gender (self : Cog) (gender_pokemon : gset pystr)
    (priority : pystr) (item : Z * Pokemon.t) : bool :=
  negb (is_regional_variant (Pokemon.name (snd item)))
  && bool_decide (Pokemon.name (snd item) ∈ gender_pokemon)
  && bool_decide (spawn_rates self !! fst item = Some priority).

Definition type_matches (t : pystr) (data : Pokemon.t) : bool :=
  str_eqb (Pokemon.type1 data) t || opt_eqb (Pokemon.type2 data) (Some t).

Definition region_matches (r : pystr) (data : Pokemon.t) : bool :=
  str_eqb (Pokemon.region data) r.

(** The test of a type/region quest on the constraints that are set. *)
Definition meets_constraints (quest_info : QuestInfo.t) (data : Pokemon.t) : bool :=
  match QuestInfo.region quest_info, QuestInfo.pokemon_type quest_info with
  | Some (c :: r), Some (c' :: t) =>
      region_matches (c :: r) data && type_matches (c' :: t) data
  | _, Some (c' :: t) => type_matches (c' :: t) data
  | Some (c :: r), _ => region_matches (c :: r) data
  | _, _ => false
  end.

(** Whether a type/region quest takes an item in the pass of a tier. *)
Definition accepts_type_region (self : Cog) (quest_info : QuestInfo.t)
    (priority : pystr) (item : Z * Pokemon.t) : bool :=
  negb (is_regional_variant (Pokemon.name (snd item)))
  && bool_decide (spawn_rates self !! fst item = Some priority)
  && meets_constraints quest_info (snd item).

(** A loop body that skips an item already suggested and appends an item
    that is taken. *)
Definition take_if (accepts : pystr -> Z * Pokemon.t -> bool)
    (priority : pystr) (item : Z * Pokemon.t) (matches : list Match.t)
    : list Match.t :=
  if suggested matches (fst item) then matches
  else if accepts priority item then matches ++ [annotate priority item]
  else matches.

(** The entries of one tier when nothing is skipped and nothing cut. *)
Definition tier_block (accepts : pystr -> Z * Pokemon.t -> bool)
    (items : list (Z * Pokemon.t)) (priority : pystr) : list Match.t :=
  List.map (annotate priority) (List.filter (accepts priority) items).

(** [self.gender_data.get(gender, set())] *)
Definition gender_pokemon_of (self : Cog) (quest_info : QuestInfo.t) : gset pystr :=
  match QuestInfo.gender quest_info with
  | Some gender => default ∅ (gender_data self !! gender)
  | None => ∅
  end.

(** Whether a quest takes an item in the pass of a tier. *)
Definition quest_accepts (self : Cog) (quest_info : QuestInfo.t)
    (priority : pystr) (item : Z * Pokemon.t) : bool :=
  match QuestInfo.type quest_info with
  | Gender => accepts_gender self (gender_pokemon_of self quest_info) priority item
  | TypeRegion => accepts_type_region self quest_info priority item
  | _ => false
  end.

End Acceptance.

(* ===================================================================== *)
(** ** An example cog *)
(* ===================================================================== *)

Definition row (d : Z) (n t1 t2 : string) : pokemon_row :=
  {| row_Dex := d; row_Name := lit n; row_Type_1 := lit t1; row_Type_2 := lit t2 |}.

(** A small set of tables: two species without a tier of the list
    (Squirtle has no entry, Mewtwo another label) and one regional form. *)
Definition example_cog : Cog :=
  load_data (U := Latin1.db)
    [ row 1 "Bulbasaur" "Grass" "Poison"; row 4 "Charmander" "Fire" "";
      row 5 "Charmeleon" "Fire" " "; row 6 "Charizard" "Fire" "Flying";
      row 7 "Squirtle" "Water" ""; row 150 "Mewtwo" "Psychic" "";
      row 155 "Cyndaquil" "Fire" "";
      row 10091 "Alolan Rattata" "Dark" "Normal" ]
    [ (1, lit "1/337"); (4, lit "1/674"); (5, lit "1/337"); (6, lit "1/225");
      (150, lit "1/1000"); (155, lit "1/225"); (10091, lit "1/225") ]
    [lit "Charmander"; lit "Bulbasaur"]
    [lit "Charmander "; lit "Cyndaquil"; lit "Alolan Rattata"]
    [lit "Mewtwo"].

(** A type/region descriptor with the given constraints. *)
Definition type_region_quest (region pokemon_type : option pystr) : QuestInfo.t :=
  {| QuestInfo.text := [];
     QuestInfo.type := TypeRegion;
     QuestInfo.region := region;
     QuestInfo.pokemon_type := pokemon_type;
     QuestInfo.count := 0;
     QuestInfo.gender := None |}.

(** The descriptor with its region constraint removed. *)
Definition without_region (quest_info : QuestInfo.t) : QuestInfo.t :=
  {| QuestInfo.text := QuestInfo.text quest_info;
     QuestInfo.type := QuestInfo.type quest_info;
     QuestInfo.region := None;
     QuestInfo.pokemon_type := QuestInfo.pokemon_type quest_info;
     QuestInfo.count := QuestInfo.count quest_info;
     QuestInfo.gender := QuestInfo.gender quest_info |}.

(** A species that is eligible in a tier whatever the quest: it has that
    tier in [spawn_rates] and is no regional form. *)
Definition tier_eligible {U : UnicodeDB} (self : Cog) (priority : pystr)
    (item : Z * Pokemon.t) : bool :=
  negb (is_regional_variant (Pokemon.name (snd item)))
  && bool_decide (spawn_rates self !! fst item = Some priority).

(** Whether each element is below its successor. *)
Fixpoint sorted_by {A} (le : A -> A -> bool) (l : list A) : bool :=
  match l with
  | x :: (y :: _) as l' => le x y && sorted_by le l'
  | _ => true
  end.

(** Order of strings by code point. *)
Fixpoint str_leb (a b : pystr) : bool :=
  match a, b with
  | [], _ => true
  | _ :: _, [] => false
  | x :: a', y :: b' => (x <? y)%N || ((x =? y)%N && str_leb a' b')
  end.

(** The entry of Cyndaquil in the first tier. *)
Definition cyndaquil : Match.t :=
  {| Match.data :=
       {| Pokemon.name := lit "Cyndaquil"; Pokemon.type1 := lit "Fire";
          Pokemon.type2 := None; Pokemon.dex := 155;
          Pokemon.region := lit "Johto" |};
     Match.spawn_rate := lit "1/225" |}.

(** The item of the example table under a key. *)
Definition row_item (dex : Z) : Z * Pokemon.t :=
  match List.find (fun item => fst item =? dex) (pokemon_data example_cog) with
  | Some item => item
  | None => (dex, Pokemon.mk [] [] None dex [])
  end.

(* ===================================================================== *)
(** ** Lookups and shapes used in the further properties *)
(* ===================================================================== *)

(** [d.get(k)] on a dict kept in insertion order. *)
Definition dict_get {V} (k : Z) (d : list (Z * V)) : option V :=
  match List.find (fun item => fst item =? k) d with
  | Some item => Some (snd item)
  | None => None
  end.

(** The value that [load_data] stores for a row of [pokemondata.csv]. *)
Definition row_pokemon {U : UnicodeDB} (row : pokemon_row) : Pokemon.t :=
  {| Pokemon.name := row_Name row;
     Pokemon.type1 := row_Type_1 row;
     Pokemon.type2 :=
       match strip (row_Type_2 row) with
       | [] => None
       | _ :: _ => Some (strip (row_Type_2 row))
       end;
     Pokemon.dex := row_Dex row;
     Pokemon.region := get_region (row_Dex row) |}.

(** A string with no whitespace at either end. *)
Definition trimmed {U : UnicodeDB} (s : pystr) : Prop :=
  match s with c :: _ => isspace c = false | [] => True end /\
  match rev s with c :: _ => isspace c = false | [] => True end.

(* ===================================================================== *)
(** ** [format_pokemon_info] *)
(* ===================================================================== *)

(** The decimal digits of [n], for [0 <= n], in front of [acc]; [fuel]
    bounds the number of digits. *)
Fixpoint digits_onto (fuel : nat) (n : Z) (acc : pystr) : pystr :=
  match fuel with
  | O => acc
  | S fuel' =>
      let acc' := (48 + Z.to_N (n mod 10))%N :: acc in
      if n <? 10 then acc' else digits_onto fuel' (n / 10) acc'
  end.

(** The decimal digits of [n], for [0 <= n]: a number has no more decimal
    digits than binary ones. *)
Definition digits (n : Z) : pystr :=
  digits_onto (S (Z.to_nat (Z.log2 n))) n [].

(** [str(n)] for an [int]. *)
Definition str_of_int (n : Z) : pystr :=
  if n <? 0 then 45%N :: digits (- n) else digits n.

(** [ds.zfill(w)] for a string of digits. *)
Definition zfill (w : nat) (ds : pystr) : pystr :=
  List.repeat 48%N (w - length ds) ++ ds.

(** [f"{n:03d}"]: the sign counts for the width. *)
Definition format_03d (n : Z) : pystr :=
  if n <? 0 then 45%N :: zfill 2 (digits (- n)) else zfill 3 (digits n).

Definition format_pokemon_info (pokemon : Match.t) : pystr :=
  let data := Match.data pokemon in
  let types := Pokemon.type1 data in
  let types :=
    if truthy (Pokemon.type2 data)
    then types ++ lit "/" ++ default [] (Pokemon.type2 data)
    else types in
  lit "• **" ++ Pokemon.name data ++ lit "** (#" ++ format_03d (Pokemon.dex data)
  ++ lit ", " ++ types ++ lit ", " ++ Pokemon.region data ++ lit ", "
  ++ Match.spawn_rate pokemon ++ lit ")".

(* ===================================================================== *)
(** ** Patterns without flags: [is_quest_embed] and [process_quest_embed] *)
(* ===================================================================== *)

Module Pat.

(** What matches one character. *)
Inductive item : Type :=
| Chr (c : N)             (* the character itself *)
| Any                     (* [.], any character but a newline *)
| Digit                   (* \d *)
| Not (c : N)             (* [^c] *)
| OneOf (cs : list N).    (* [cs] *)

Inductive pattern : Type :=
| Empty
| Start                   (* ^ *)
| One (i : item)
| Plus (i : item)         (* i+, greedy *)
| Star (i : item)         (* i*, greedy *)
| Cat (p1 p2 : pattern).

(** The pattern that matches the characters of [s] in turn. *)
Fixpoint literal (s : pystr) : pattern :=
  match s with
  | [] => Empty
  | c :: s' => Cat (One (Chr c)) (literal s')
  end.

Section Matcher.
Context {U : UnicodeDB}.

Definition accepts (i : item) (c : N) : bool :=
  match i with
  | Chr c' => (c' =? c)%N
  | Any => negb (c =? 10)%N
  | Digit => isdecimal c
  | Not c' => negb (c' =? c)%N
  | OneOf cs => existsb (fun c' => (c' =? c)%N) cs
  end.

(** Backtracking matcher at the head of [s]; [first] tells whether the head
    of [s] is the start of the whole text. The continuation receives the
    same for what is left. *)
Fixpoint exec {A} (p : pattern) (first : bool) (s : pystr)
    (k : bool -> pystr -> option A) : option A :=
  match p with
  | Empty => k first s
  | Start => if first then k first s else None
  | One i =>
      match s with
      | c :: s' => if accepts i c then k false s' else None
      | [] => None
      end
  | Plus i =>
      match s with
      | c :: s' =>
          if accepts i c then Re.repeat_max (accepts i) s' (k false) else None
      | [] => None
      end
  | Star i =>
      Re.repeat_max (accepts i) s
        (fun s' => k (first && (length s' =? length s)%nat) s')
  | Cat p1 p2 => exec p1 first s (fun first' s' => exec p2 first' s' k)
  end.

(** A match at the head of [s]: what is left of the text after it. *)
Definition match_here (p : pattern) (first : bool) (s : pystr) : option pystr :=
  exec p first s (fun _ rest => Some rest).

Fixpoint search_from (p : pattern) (first : bool) (s : pystr) : option pystr :=
  match match_here p first s with
  | Some rest => Some rest
  | None =>
      match s with
      | [] => None
      | _ :: s' => search_from p false s'
      end
  end.

(** [re.search(p, s)], as what follows the leftmost match. *)
Definition search (p : pattern) (s : pystr) : option pystr :=
  search_from p true s.

(** [re.sub(p, repl, s)] for a pattern that matches no empty string and a
    replacement without group references: [skip] counts the characters of
    the current match that are still to be dropped. *)
Fixpoint sub_from (p : pattern) (repl : pystr) (first : bool) (s : pystr)
    (skip : nat) : pystr :=
  match s with
  | [] => []
  | c :: s' =>
      match skip with
      | S skip' => sub_from p repl false s' skip'
      | O =>
          match match_here p first s with
          | Some rest => repl ++ sub_from p repl false s' (length s' - length rest)
          | None => c :: sub_from p repl false s' 0
          end
      end
  end.

Definition sub (p : pattern) (repl s : pystr) : pystr :=
  sub_from p repl true s 0.

(** The texts that a pattern matches; [first] as for [exec]. *)
Fixpoint lang (p : pattern) (first : bool) (m : pystr) : Prop :=
  match p with
  | Empty => m = []
  | Start => first = true /\ m = []
  | One i => exists c, m = [c] /\ accepts i c = true
  | Plus i => m <> [] /\ forallb (accepts i) m = true
  | Star i => forallb (accepts i) m = true
  | Cat p1 p2 =>
      exists m1 m2,
        m = m1 ++ m2 /\ lang p1 first m1 /\
        lang p2 (first && (length m1 =? 0)%nat) m2
  end.

End Matcher.
End Pat.

(** A field of an embed. *)
Module Field.
Record t : Type := mk {
  name : pystr;
  value : pystr;
  inline : bool
}.
End Field.

(** What the cog reads and writes of a [discord.Embed]. *)
Module Embed.
Record t : Type := mk {
  title : option pystr;
  description : option pystr;
  color : option Z;
  fields : list Field.t;
  footer : option pystr
}.
End Embed.

(** An element of [gender_suggestions]. *)
Module GenderInfo.
Record t : Type := mk {
  text : pystr;
  quest_text : pystr;
  pokemon : pystr
}.
End GenderInfo.

(** [sep.join(l)] *)
Fixpoint join (sep : pystr) (l : list pystr) : pystr :=
  match l with
  | [] => []
  | x :: l' =>
      match l' with
      | [] => x
      | _ :: _ => x ++ sep ++ join sep l'
      end
  end.

(** [s.split(sep)] for a separator of one character. *)
Fixpoint split_on (sep : N) (s : pystr) : list pystr :=
  match s with
  | [] => [[]]
  | c :: s' =>
      if (c =? sep)%N then [] :: split_on sep s'
      else
        match split_on sep s' with
        | l :: ls => (c :: l) :: ls
        | [] => [[c]]
        end
  end.

(** [sorted(s)] for a set of strings: by code points. *)
Definition sorted_names (s : gset pystr) : list pystr :=
  merge_sort (fun a b => Is_true (str_leb a b)) (elements s).

(** [f"{x}"] for a title that may be [None]. *)
Definition str_of_optional (x : option pystr) : pystr :=
  match x with
  | Some s => s
  | None => lit "None"
  end.

(** [for x in l: state = body(x, state)] with a body that may raise. *)
Fixpoint for_result {A S : Type} (body : A -> S -> result S) (l : list A)
    (st : S) : result S :=
  match l with
  | [] => Ok st
  | x :: l' => st' ← body x st; for_result body l' st'
  end.

(** The three accumulators of the loop of [process_quest_embed]. *)
Record Gathered : Type := {
  suggestions : list pystr;
  all_suggested_pokemon : gset pystr;
  gender_suggestions : list GenderInfo.t
}.

Section Embeds.
Context {U : UnicodeDB}.

Definition quest_field_keywords : list pystr :=
  [lit "quest"; lit "task"; lit "security"; lit "challenge"].

(** [any(keyword in field.name.lower() for keyword in [...])] *)
Definition is_quest_field (field : Field.t) : bool :=
  let field_name_lower := str_lower (Field.name field) in
  existsb (fun keyword => contains keyword field_name_lower) quest_field_keywords.

(** [\d+\..*[Cc]atch] *)
Definition catch_re : Pat.pattern :=
  Pat.Cat (Pat.Plus Pat.Digit)
    (Pat.Cat (Pat.One (Pat.Chr 46))
       (Pat.Cat (Pat.Star Pat.Any)
          (Pat.Cat (Pat.One (Pat.OneOf [67; 99]%N)) (Pat.literal (lit "atch"))))).

(** [^\d+\.] *)
Definition numbered_re : Pat.pattern :=
  Pat.Cat Pat.Start (Pat.Cat (Pat.Plus Pat.Digit) (Pat.One (Pat.Chr 46))).

(** [<:[^>]+>] *)
Definition emoji_re : Pat.pattern :=
  Pat.Cat (Pat.One (Pat.Chr 60))
    (Pat.Cat (Pat.One (Pat.Chr 58))
       (Pat.Cat (Pat.Plus (Pat.Not 62)) (Pat.One (Pat.Chr 62)))).

(** [`\d+/\d+`] *)
Definition progress_re : Pat.pattern :=
  Pat.Cat (Pat.One (Pat.Chr 96))
    (Pat.Cat (Pat.Plus Pat.Digit)
       (Pat.Cat (Pat.One (Pat.Chr 47))
          (Pat.Cat (Pat.Plus Pat.Digit) (Pat.One (Pat.Chr 96))))).

Definition is_quest_embed (embed : Embed.t) : bool :=
  match Embed.fields embed with
  | [] => false
  | _ :: _ =>
      existsb
        (fun field =>
           is_quest_field field
           && bool_decide (is_Some (Pat.search catch_re (Field.value field))))
        (Embed.fields embed)
  end.

(** The text of a quest as [process_quest_embed] shows it. *)
Definition clean_quest_text (text : pystr) : pystr :=
  let quest_text := Pat.sub emoji_re [] text in
  strip (Pat.sub progress_re [] quest_text).

(** [suggestion_text] for a quest and its matches. *)
Definition suggestion_text (quest_text : pystr) (matches : list Match.t) : pystr :=
  fold_left
    (fun suggestion_text pokemon =>
       suggestion_text ++ format_pokemon_info pokemon ++ [10%N])
    matches
    (lit "**Quest:** " ++ quest_text ++ [10%N]).

(** The body of the loop over the lines of the quest field. The test
    [if not quest_info] is left out: the dict of [parse_quest] is never
    empty. *)
Definition gather_line (self : Cog) (count : Z) (include_gender : bool)
    (line : pystr) (st : Gathered) : result Gathered :=
  match strip line with
  | [] => Ok st
  | _ :: _ =>
      if negb (bool_decide (is_Some (Pat.search numbered_re (strip line))))
      then Ok st
      else
        quest_info ← parse_quest line;
        if bool_decide (QuestInfo.type quest_info = Gender) && negb include_gender
        then Ok st
        else
          let matches := find_matching_pokemon self quest_info count in
          match matches with
          | [] => Ok st
          | _ :: _ =>
              let quest_text := clean_quest_text (QuestInfo.text quest_info) in
              let text := suggestion_text quest_text matches in
              if bool_decide (QuestInfo.type quest_info = Gender) then
                let gender_pokemon_names :=
                  join (lit ", ")
                    (List.map (fun p => Pokemon.name (Match.data p)) matches) in
                Ok {| suggestions := suggestions st ++ [text];
                      all_suggested_pokemon := all_suggested_pokemon st;
                      gender_suggestions :=
                        gender_suggestions st
                        ++ [ {| GenderInfo.text :=
                                  lit "**" ++ quest_text ++ lit "**"
                                  ++ [10%N] ++ lit "• " ++ gender_pokemon_names;
                                GenderInfo.quest_text := quest_text;
                                GenderInfo.pokemon := gender_pokemon_names |} ] |}
              else
                Ok {| suggestions := suggestions st ++ [text];
                      all_suggested_pokemon :=
                        fold_left
                          (fun s pokemon => s ∪ {[Pokemon.name (Match.data pokemon)]})
                          matches (all_suggested_pokemon st);
                      gender_suggestions := gender_suggestions st |}
          end
  end.

(** [embed.add_field(name=..., value=..., inline=False)] *)
Definition add_field (name value : pystr) (embed : Embed.t) : Embed.t :=
  {| Embed.title := Embed.title embed;
     Embed.description := Embed.description embed;
     Embed.color := Embed.color embed;
     Embed.fields := Embed.fields embed ++ [Field.mk name value false];
     Embed.footer := Embed.footer embed |}.

(** [embed.set_footer(text=...)] *)
Definition set_footer (text : pystr) (embed : Embed.t) : Embed.t :=
  {| Embed.title := Embed.title embed;
     Embed.description := Embed.description embed;
     Embed.color := Embed.color embed;
     Embed.fields := Embed.fields embed;
     Embed.footer := Some text |}.

(** The two embeds built from what the loop gathered; [EMBED_COLOR] is the
    constant of the module [config]. *)
Definition build_embeds (EMBED_COLOR : Z) (embed : Embed.t) (count : Z)
    (st : Gathered) : Embed.t * Embed.t :=
  let summary_embed :=
    {| Embed.title := Some (lit "📋 Pokémon Quest Suggestions");
       Embed.description :=
         Some (lit "These Pokémon will help you complete the maximum number of quests efficiently."
               ++ [10%N] ++ lit "Showing **" ++ str_of_int count
               ++ lit " Pokémon** per quest from: **"
               ++ str_of_optional (Embed.title embed) ++ lit "**");
       Embed.color := Some EMBED_COLOR;
       Embed.fields := [];
       Embed.footer := None |} in
  let details_embed :=
    {| Embed.title := Some (lit "📋 Quest Details");
       Embed.description :=
         Some (lit "Complete breakdown for: **"
               ++ str_of_optional (Embed.title embed) ++ lit "**");
       Embed.color := Some EMBED_COLOR;
       Embed.fields := [];
       Embed.footer := None |} in
  let details_embed :=
    fold_left (fun e suggestion => add_field [] suggestion e)
      (firstn 25 (suggestions st)) details_embed in
  let '(summary_embed, details_embed) :=
    if bool_decide (all_suggested_pokemon st = ∅)
    then (summary_embed, details_embed)
    else
      let pokemon_list :=
        join (lit ", ") (sorted_names (all_suggested_pokemon st)) in
      (add_field (lit "📝 Suggested Pokémon") pokemon_list summary_embed,
       add_field (lit "📝 Complete List") pokemon_list details_embed) in
  let summary_embed :=
    match gender_suggestions st with
    | [] => summary_embed
    | _ :: _ =>
        fold_left
          (fun e gender_info =>
             (* gender_info.get('gender_type', 'Gender'): the key is never set *)
             let gender_type := lit "Gender" in
             add_field (gender_type ++ lit " Pokémon") (GenderInfo.text gender_info) e)
          (gender_suggestions st)
          (add_field (lit "─────────────────────") [] summary_embed)
    end in
  let details_embed :=
    if (25 <? length (suggestions st))%nat
    then set_footer
           (lit "Showing 25 of " ++ str_of_int (Z.of_nat (length (suggestions st)))
            ++ lit " quests")
           details_embed
    else details_embed in
  let summary_embed :=
    set_footer
      (lit "Click " ++ [34%N] ++ lit "View Details" ++ [34%N]
       ++ lit " for the complete breakdown")
      summary_embed in
  (summary_embed, details_embed).

(** [process_quest_embed] on the first embed of the message: the summary
    embed and the details embed of the view, which are sent as a reply or
    returned according to [reply_to_message]; [None] when there is nothing to
    suggest. *)
Definition process_quest_embed (self : Cog) (EMBED_COLOR : Z) (embed : Embed.t)
    (count : Z) (include_gender : bool) : result (option (Embed.t * Embed.t)) :=
  match List.find is_quest_field (Embed.fields embed) with
  | None => Ok None
  | Some quest_field =>
      let quest_lines := split_on 10 (Field.value quest_field) in
      st ← for_result (gather_line self count include_gender) quest_lines
             {| suggestions := [];
                all_suggested_pokemon := ∅;
                gender_suggestions := [] |};
      match suggestions st with
      | [] => Ok None
      | _ :: _ => Ok (Some (build_embeds EMBED_COLOR embed count st))
      end
  end.

End Embeds.

Section Outcomes.
Context {U : UnicodeDB}.

(** What a line of the quest field comes to in the loop of
    [process_quest_embed]: the descriptor and its matches when the line is
    numbered, is not a gender quest left out, and has a match. *)
Definition line_outcome (self : Cog) (count : Z) (include_gender : bool)
    (line : pystr) : option (QuestInfo.t * list Match.t) :=
  match strip line with
  | [] => None
  | _ :: _ =>
      if bool_decide (is_Some (Pat.search numbered_re (strip line))) then
        match parse_quest line with
        | Ok quest_info =>
            if bool_decide (QuestInfo.type quest_info = Gender)
               && negb include_gender
            then None
            else
              match find_matching_pokemon self quest_info count with
              | [] => None
              | m :: ms => Some (quest_info, m :: ms)
              end
        | Raise _ => None
        end
      else None
  end.

(** Whether the loop of [process_quest_embed] raises at a line: the line
    is not blank, it is numbered, and [parse_quest] raises on it. *)
Definition line_raises (line : pystr) : bool :=
  match strip line with
  | [] => false
  | _ :: _ =>
      bool_decide (is_Some (Pat.search numbered_re (strip line)))
      && match parse_quest line with
         | Ok _ => false
         | Raise _ => true
         end
  end.

(** Whether it raises at a line of the field that it reads. *)
Definition quest_raises (embed : Embed.t) : bool :=
  match List.find is_quest_field (Embed.fields embed) with
  | Some quest_field =>
      existsb line_raises (split_on 10 (Field.value quest_field))
  | None => false
  end.

(** The text of the details field of a quest. *)
Definition outcome_text (out : QuestInfo.t * list Match.t) : pystr :=
  suggestion_text (clean_quest_text (QuestInfo.text (fst out))) (snd out).

(** The summary field of a gender quest. *)
Definition gender_field (out : QuestInfo.t * list Match.t) : Field.t :=
  Field.mk (lit "Gender Pokémon")
    (lit "**" ++ clean_quest_text (QuestInfo.text (fst out)) ++ lit "**"
     ++ [10%N] ++ lit "• "
     ++ join (lit ", ")
          (List.map (fun p => Pokemon.name (Match.data p)) (snd out)))
    false.

Definition is_gender_outcome (out : QuestInfo.t * list Match.t) : bool :=
  bool_decide (QuestInfo.type (fst out) = Gender).

(** The outcomes of the lines of the field that [process_quest_embed]
    reads: the first whose name has one of the keywords. *)
Definition quest_outcomes (self : Cog) (embed : Embed.t) (count : Z)
    (include_gender : bool) : list (QuestInfo.t * list Match.t) :=
  match List.find is_quest_field (Embed.fields embed) with
  | Some quest_field =>
      omap (line_outcome self count include_gender)
        (split_on 10 (Field.value quest_field))
  | None => []
  end.

(** What the loop adds to its accumulators for an outcome. *)
Definition add_outcome (st : Gathered) (out : QuestInfo.t * list Match.t)
    : Gathered :=
  if is_gender_outcome out then
    {| suggestions := suggestions st ++ [outcome_text out];
       all_suggested_pokemon := all_suggested_pokemon st;
       gender_suggestions :=
         gender_suggestions st
         ++ [ {| GenderInfo.text := Field.value (gender_field out);
                 GenderInfo.quest_text :=
                   clean_quest_text (QuestInfo.text (fst out));
                 GenderInfo.pokemon :=
                   join (lit ", ")
                     (List.map (fun p => Pokemon.name (Match.data p)) (snd out)) |} ] |}
  else
    {| suggestions := suggestions st ++ [outcome_text out];
       all_suggested_pokemon :=
         fold_left (fun s pokemon => s ∪ {[Pokemon.name (Match.data pokemon)]})
           (snd out) (all_suggested_pokemon st);
       gender_suggestions := gender_suggestions st |}.

End Outcomes.

(* ===================================================================== *)
(** ** An embed for the examples of [process_quest_embed] *)
(* ===================================================================== *)

(** A field without a keyword, the quest field, and a second field with a
    keyword; the quest field has a line with a progress mark, a gender quest
    with an emoji, a line without a number, a breed quest and an indented
    line. *)
Definition example_embed : Embed.t :=
  {| Embed.title := Some (lit "Event");
     Embed.description := None;
     Embed.color := None;
     Embed.fields :=
       [ Field.mk (lit "Info") (lit "1. Catch them all") false;
         Field.mk (lit "Daily Quests")
           (lit "1. Catch 3 Fire-type Pokémon `0/3`" ++ [10%N]
            ++ lit "2. Catch 2 Male Pokémon <:male:1>" ++ [10%N]
            ++ lit "Reward: 500" ++ [10%N]
            ++ lit "3. Breed 2 Pokémon" ++ [10%N]
            ++ lit "  4. Catch 1 Johto Pokémon")
           false;
         Field.mk (lit "More quests") (lit "1. Catch 5 Grass-type Pokémon") false ];
     Embed.footer := None |}.

(** What [process_quest_embed] returns for the example: the two embeds. *)
Definition example_reply (include_gender : bool) : Embed.t * Embed.t :=
  match process_quest_embed (U := Latin1.db) example_cog 0 example_embed 2
          include_gender with
  | Ok (Some reply) => reply
  | _ => (example_embed, example_embed)
  end.

(* ===================================================================== *)
(** ** The listener and the commands *)
(* ===================================================================== *)

(** What the handlers read of a message. *)
Module Message.
Record t : Type := mk {
  id : Z;
  channel_id : Z;
  embeds : list Embed.t
}.
End Message.

(** What a handler sends: a text ([ctx.reply], or with [ephemeral]
    [interaction.response.send_message] and [interaction.followup.send]), the
    reply of [process_quest_embed] to the message of the quests, the follow-up
    of the context menu with the two embeds, and [defer]. Sending is taken
    not to fail. *)
Inductive sent : Type :=
| Text (content : pystr) (ephemeral : bool)
| Suggestions (message_id : Z) (summary details : Embed.t)
| Followup (summary details : Embed.t)
| Defer.

(** What [fetch_message] comes to. *)
Inductive fetched : Type :=
| Fetched (message : Message.t)
| NotFound
| HTTPException.

Definition AUTO_SUGGEST_CHANNEL_ID : Z := 1429692867022164018.

Section Handlers.
Context {U : UnicodeDB}.

(** [message.embeds and self.is_quest_embed(message.embeds[0])]: the embed
    that [process_quest_embed] then reads as [message.embeds[0]]. *)
Definition quest_embed_of (message : Message.t) : option Embed.t :=
  match Message.embeds message with
  | [] => None
  | embed :: _ => if is_quest_embed embed then Some embed else None
  end.

(** [await self.process_quest_embed(message, count, include_gender=...)]
    for a message with the embed [embed] first, which replies to the message
    when there is something to suggest. *)
Definition process_and_reply (self : Cog) (EMBED_COLOR : Z) (message_id : Z)
    (embed : Embed.t) (count : Z) (include_gender : bool)
    : result (list sent) :=
  reply ← process_quest_embed self EMBED_COLOR embed count include_gender;
  Ok match reply with
     | Some (summary_embed, details_embed) =>
         [Suggestions message_id summary_embed details_embed]
     | None => []
     end.


(** [async for message in history: if message.embeds and ...]: the first
    message with a quest embed, and the embed. *)
Fixpoint first_quest_message (history : list Message.t)
    : option (Message.t * Embed.t) :=
  match history with
  | [] => None
  | message :: history' =>
      match quest_embed_of message with
      | Some embed => Some (message, embed)
      | None => first_quest_message history'
      end
  end.

(** [suggest_prefix]: [reference] is what fetching the message replied to
    comes to, when the command replies to one; [history] the messages of the
    channel, the latest first. *)
Definition suggest_prefix (self : Cog) (EMBED_COLOR : Z) (count : Z)
    (gender : bool) (reference : option fetched) (history : list Message.t)
    : result (list sent) :=
  if (count <? 1) || (5 <? count)
  then Ok [Text (lit "❌ Please choose between 1 and 5 Pokémon per quest!") false]
  else
    match reference with
    | Some (Fetched replied_message) =>
        match quest_embed_of replied_message with
        | Some embed =>
            process_and_reply self EMBED_COLOR (Message.id replied_message)
              embed count gender
        | None =>
            Ok [Text (lit "❌ That message doesn't contain a quest embed!") false]
        end
    | Some NotFound => Ok [Text (lit "❌ Message not found!") false]
    | Some HTTPException =>
        Ok [Text (lit "❌ An error occurred while fetching the message!") false]
    | None =>
        match first_quest_message (firstn 50 history) with
        | Some (message, embed) =>
            process_and_reply self EMBED_COLOR (Message.id message) embed
              count gender
        | None =>
            Ok [Text (lit "❌ No quest embeds found in recent messages!") false]
        end
    end.

Definition suggest_slash (self : Cog) (EMBED_COLOR : Z) (count : Z)
    (gender : bool) (history : list Message.t) : result (list sent) :=
  if (count <? 1) || (5 <? count)
  then Ok [Text (lit "❌ Please choose between 1 and 5 Pokémon per quest!") true]
  else
    match first_quest_message (firstn 50 history) with
    | Some (message, embed) =>
        replies ← process_and_reply self EMBED_COLOR (Message.id message) embed
                    count gender;
        Ok (Defer :: replies
            ++ [Text (lit "✅ Quest suggestions generated!") true])
    | None =>
        Ok [Defer; Text (lit "❌ No quest embeds found in recent messages!") true]
    end.

(** The context menu [Quest Suggestions] of [setup]. *)
Definition suggest_context (self : Cog) (EMBED_COLOR : Z) (message : Message.t)
    : result (list sent) :=
  match Message.embeds message with
  | [] => Ok [Text (lit "❌ That message doesn't contain any embeds!") true]
  | embed :: _ =>
      if negb (is_quest_embed embed)
      then Ok [Text (lit "❌ That message doesn't contain a quest embed!") true]
      else
        result ← process_quest_embed self EMBED_COLOR embed 2 true;
        Ok (Defer ::
            match result with
            | Some (summary_embed, details_embed) =>
                [Followup summary_embed details_embed]
            | None =>
                [Text (lit "❌ No quest suggestions could be generated!") true]
            end)
  end.

End Handlers.

(** A message with the example embed, and one whose quest has no species. *)
Definition example_message : Message.t :=
  {| Message.id := 7; Message.channel_id := AUTO_SUGGEST_CHANNEL_ID;
     Message.embeds := [example_embed] |}.

Definition plain_catch_message : Message.t :=
  {| Message.id := 8; Message.channel_id := AUTO_SUGGEST_CHANNEL_ID;
     Message.embeds :=
       [ {| Embed.title := None; Embed.description := None;
            Embed.color := None;
            Embed.fields :=
              [Field.mk (lit "Quests") (lit "1. Catch 3 Pokémon") false];
            Embed.footer := None |} ] |}.

(* ===================================================================== *)
(** ** [load_data] on the files as they are read *)
(* ===================================================================== *)

(** A row of [pokemondata.csv] that is read without an exception and has
    the four cells that [load_data] reads, each a text; [load_data_files]
    below takes the rows as they come. *)
Record raw_pokemon_row : Type := {
  raw_Dex : pystr;
  raw_Name : pystr;
  raw_Type_1 : pystr;
  raw_Type_2 : pystr
}.

Section RawLoad.
Context {U : UnicodeDB}.

(** [int(s)] on a cell: [None] when it raises [ValueError]. *)
Variable py_int : pystr -> option Z.

(** The loop over the rows of [pokemondata.csv], which a cell that is no
    number leaves: the table at that point, and whether the loop came to its
    end. *)
Fixpoint load_pokemon_rows (rows : list raw_pokemon_row)
    (pokemon_data : list (Z * Pokemon.t)) : list (Z * Pokemon.t) * bool :=
  match rows with
  | [] => (pokemon_data, true)
  | row :: rows' =>
      match py_int (raw_Dex row) with
      | Some dex =>
          load_pokemon_rows rows'
            (dict_set dex
               {| Pokemon.name := raw_Name row;
                  Pokemon.type1 := raw_Type_1 row;
                  Pokemon.type2 :=
                    match strip (raw_Type_2 row) with
                    | [] => None
                    | _ :: _ => Some (strip (raw_Type_2 row))
                    end;
                  Pokemon.dex := dex;
                  Pokemon.region := get_region dex |}
               pokemon_data)
      | None => (pokemon_data, false)
      end
  end.

(** The same for the rows [(Dex, Chance)] of [spawnrates.csv]. *)
Fixpoint load_spawn_rows (rows : list (pystr * pystr))
    (spawn_rates : gmap Z pystr) : gmap Z pystr * bool :=
  match rows with
  | [] => (spawn_rates, true)
  | row :: rows' =>
      match py_int (fst row) with
      | Some dex => load_spawn_rows rows' (<[dex := snd row]> spawn_rates)
      | None => (spawn_rates, false)
      end
  end.

(** [self.gender_data] as [__init__] leaves it. *)
Definition no_gender_data : gmap pystr (gset pystr) :=
  <[lit "genderless" := ∅]> (<[lit "female" := ∅]> (<[lit "male" := ∅]> ∅)).

(** [load_data] with its [try], on files whose rows are all read and have
    all their cells: a file is [None] when opening it raises
    [FileNotFoundError]. An exception in the first two parts ends the
    loading with the tables as they are; a gender file that is not there is
    passed over. *)
Definition load_data_raw (pokemon_file : option (list raw_pokemon_row))
    (spawn_file : option (list (pystr * pystr)))
    (male female genderless : option (list pystr)) : Cog :=
  match pokemon_file with
  | None =>
      {| pokemon_data := []; spawn_rates := ∅; gender_data := no_gender_data |}
  | Some pokemon_rows =>
      let '(pokemon_data, finished) := load_pokemon_rows pokemon_rows [] in
      if negb finished
      then {| pokemon_data := pokemon_data; spawn_rates := ∅;
              gender_data := no_gender_data |}
      else
        match spawn_file with
        | None =>
            {| pokemon_data := pokemon_data; spawn_rates := ∅;
               gender_data := no_gender_data |}
        | Some spawn_rows =>
            let '(spawn_rates, finished) := load_spawn_rows spawn_rows ∅ in
            if negb finished
            then {| pokemon_data := pokemon_data; spawn_rates := spawn_rates;
                    gender_data := no_gender_data |}
            else
              {| pokemon_data := pokemon_data;
                 spawn_rates := spawn_rates;
                 gender_data :=
                   <[lit "genderless" := load_gender (default [] genderless)]>
                     (<[lit "female" := load_gender (default [] female)]>
                        (<[lit "male" := load_gender (default [] male)]> ∅)) |}
        end
  end.

End RawLoad.

(** A conversion for the examples: the number of a text of digits. *)
Definition example_int (s : pystr) : option Z :=
  match Re.int (U := Latin1.db) (Some s) with
  | Ok n => Some n
  | Raise _ => None
  end.

(* ===================================================================== *)
(** ** [load_data] with every exit of its [try] *)
(* ===================================================================== *)

(** What [row[column]] comes to for a row of [csv.DictReader]: [KeyError]
    when the header has no such column, [None] when the row is too short to
    have the cell, the text of the cell otherwise. *)
Inductive cell : Type :=
| NoColumn
| NoCell
| Cell (text : pystr).

(** The next step of the iteration over a reader: a row, or an exception
    of the reader itself (an undecodable byte, a malformed line). *)
Inductive reading (A : Type) : Type :=
| Row (row : A)
| ReadError.
Arguments Row {A} row.
Arguments ReadError {A}.

(** A file as [load_data] meets it: [open] raises [FileNotFoundError], or
    another exception, or the file is read row by row. *)
Inductive csv_file (A : Type) : Type :=
| FileNotFound
| OpenError
| Rows (rows : list (reading A)).
Arguments FileNotFound {A}.
Arguments OpenError {A}.
Arguments Rows {A} rows.

(** The cells that [load_data] reads of a row of [pokemondata.csv] and of
    [spawnrates.csv]. *)
Record pokemon_cells : Type := {
  cell_Dex : cell;
  cell_Name : cell;
  cell_Type_1 : cell;
  cell_Type_2 : cell
}.

Record spawn_cells : Type := {
  cell_spawn_Dex : cell;
  cell_Chance : cell
}.

(** A value of [self.pokemon_data] as [load_data] can leave it: the name
    and the first type are [None] when the row had no such cell. *)
Module Stored.
Record t : Type := mk {
  name : option pystr;
  type1 : option pystr;
  type2 : option pystr;
  dex : Z;
  region : pystr
}.
End Stored.

(** The three tables after [load_data]; a [Chance] may be [None] too. *)
Record Tables : Type := {
  stored_pokemon_data : list (Z * Stored.t);
  stored_spawn_rates : gmap Z (option pystr);
  stored_gender_data : gmap pystr (gset pystr)
}.

(** The tables of a cog, all of whose values are texts. *)
Definition tables_of (self : Cog) : Tables :=
  {| stored_pokemon_data :=
       List.map
         (fun item =>
            (fst item,
             {| Stored.name := Some (Pokemon.name (snd item));
                Stored.type1 := Some (Pokemon.type1 (snd item));
                Stored.type2 := Pokemon.type2 (snd item);
                Stored.dex := Pokemon.dex (snd item);
                Stored.region := Pokemon.region (snd item) |}))
         (pokemon_data self);
     stored_spawn_rates := Some <$> spawn_rates self;
     stored_gender_data := gender_data self |}.

Section Files.
Context {U : UnicodeDB}.

(** [int(s)] on the text of a cell: [None] when it raises [ValueError]. *)
Variable py_int : pystr -> option Z.

(** [int(row['Dex'])]: [None] when it raises ([KeyError], [TypeError] on
    [None], [ValueError]). *)
Definition int_of_cell (c : cell) : option Z :=
  match c with
  | Cell text => py_int text
  | NoCell | NoColumn => None
  end.

(** [row[column]] as a value: [None] when it raises [KeyError]. *)
Definition value_of_cell (c : cell) : option (option pystr) :=
  match c with
  | Cell text => Some (Some text)
  | NoCell => Some None
  | NoColumn => None
  end.

(** The loop over [pokemondata.csv]: the table when the loop is left, and
    whether it was left at its end ([true]) or by an exception. *)
Fixpoint load_pokemon_file (rows : list (reading pokemon_cells))
    (pokemon_data : list (Z * Stored.t)) : list (Z * Stored.t) * bool :=
  match rows with
  | [] => (pokemon_data, true)
  | ReadError :: _ => (pokemon_data, false)
  | Row row :: rows' =>
      match int_of_cell (cell_Dex row),
            value_of_cell (cell_Name row),
            value_of_cell (cell_Type_1 row),
            cell_Type_2 row with
      | Some dex, Some name, Some type1, Cell type2 =>
          load_pokemon_file rows'
            (dict_set dex
               {| Stored.name := name;
                  Stored.type1 := type1;
                  Stored.type2 :=
                    match strip type2 with
                    | [] => None
                    | _ :: _ => Some (strip type2)
                    end;
                  Stored.dex := dex;
                  Stored.region := get_region dex |}
               pokemon_data)
      | _, _, _, _ => (pokemon_data, false)
      end
  end.

(** The loop over [spawnrates.csv]. *)
Fixpoint load_spawn_file (rows : list (reading spawn_cells))
    (spawn_rates : gmap Z (option pystr)) : gmap Z (option pystr) * bool :=
  match rows with
  | [] => (spawn_rates, true)
  | ReadError :: _ => (spawn_rates, false)
  | Row row :: rows' =>
      match int_of_cell (cell_spawn_Dex row), value_of_cell (cell_Chance row) with
      | Some dex, Some chance =>
          load_spawn_file rows' (<[dex := chance]> spawn_rates)
      | _, _ => (spawn_rates, false)
      end
  end.

(** The loop over the rows of a gender file; the reader gives no empty row,
    so that the test [if row] is left out. *)
Fixpoint load_gender_rows (rows : list (reading cell)) (names : gset pystr)
    : gset pystr * bool :=
  match rows with
  | [] => (names, true)
  | ReadError :: _ => (names, false)
  | Row (Cell name) :: rows' => load_gender_rows rows' (names ∪ {[strip name]})
  | Row _ :: _ => (names, false)
  end.

(** One turn of the loop over the gender files: a file that is not found
    is passed over. *)
Definition load_gender_file (file : csv_file cell) : gset pystr * bool :=
  match file with
  | FileNotFound => (∅, true)
  | OpenError => (∅, false)
  | Rows rows => load_gender_rows rows ∅
  end.

(** [load_data]: whatever is raised inside the [try] ends the loading with
    the tables as they are. *)
Definition load_data_files (pokemon_file : csv_file pokemon_cells)
    (spawn_file : csv_file spawn_cells)
    (male female genderless : csv_file cell) : Tables :=
  let tables pokemon_data spawn_rates male_names female_names genderless_names :=
    {| stored_pokemon_data := pokemon_data;
       stored_spawn_rates := spawn_rates;
       stored_gender_data :=
         <[lit "genderless" := genderless_names]>
           (<[lit "female" := female_names]>
              (<[lit "male" := male_names]> ∅)) |} in
  match pokemon_file with
  | FileNotFound | OpenError => tables [] ∅ ∅ ∅ ∅
  | Rows pokemon_rows =>
      let '(pokemon_data, finished) := load_pokemon_file pokemon_rows [] in
      if negb finished then tables pokemon_data ∅ ∅ ∅ ∅
      else
        match spawn_file with
        | FileNotFound | OpenError => tables pokemon_data ∅ ∅ ∅ ∅
        | Rows spawn_rows =>
            let '(spawn_rates, finished) := load_spawn_file spawn_rows ∅ in
            if negb finished then tables pokemon_data spawn_rates ∅ ∅ ∅
            else
              let '(male_names, finished) := load_gender_file male in
              if negb finished
              then tables pokemon_data spawn_rates male_names ∅ ∅
              else
                let '(female_names, finished) := load_gender_file female in
                if negb finished
                then tables pokemon_data spawn_rates male_names female_names ∅
                else
                  let '(genderless_names, _) := load_gender_file genderless in
                  tables pokemon_data spawn_rates male_names female_names
                    genderless_names
        end
  end.

(** A file all of whose rows are read and have the cells of the rows
    [rows], the numbers being those that [int] makes of the [Dex] cells. *)
Definition pokemon_file_of (file : csv_file pokemon_cells)
    (rows : list pokemon_row) : Prop :=
  exists cells,
    file = Rows (List.map Row cells) /\
    Forall2
      (fun c row =>
         exists dex,
           c = {| cell_Dex := Cell dex;
                  cell_Name := Cell (row_Name row);
                  cell_Type_1 := Cell (row_Type_1 row);
                  cell_Type_2 := Cell (row_Type_2 row) |} /\
           py_int dex = Some (row_Dex row))
      cells rows.

Definition spawn_file_of (file : csv_file spawn_cells)
    (rows : list (Z * pystr)) : Prop :=
  exists cells,
    file = Rows (List.map Row cells) /\
    Forall2
      (fun c row =>
         exists dex,
           c = {| cell_spawn_Dex := Cell dex; cell_Chance := Cell (snd row) |} /\
           py_int dex = Some (fst row))
      cells rows.

(** A gender file that is not found, or all of whose rows are read and
    have their name. *)
Definition gender_file_of (file : csv_file cell) (names : list pystr) : Prop :=
  (file = FileNotFound /\ names = [])
  \/ file = Rows (List.map (fun name => Row (Cell name)) names).

End Files.

(** A file of rows that are all read and have all their cells, as the
    loops above meet it. *)
Definition cells_of_row (row : raw_pokemon_row) : pokemon_cells :=
  {| cell_Dex := Cell (raw_Dex row);
     cell_Name := Cell (raw_Name row);
     cell_Type_1 := Cell (raw_Type_1 row);
     cell_Type_2 := Cell (raw_Type_2 row) |}.

Definition cells_of_spawn (row : pystr * pystr) : spawn_cells :=
  {| cell_spawn_Dex := Cell (fst row); cell_Chance := Cell (snd row) |}.

Definition file_of {A B : Type} (cells : A -> B) (file : option (list A))
    : csv_file B :=
  match file with
  | None => FileNotFound
  | Some rows => Rows (List.map (fun row => Row (cells row)) rows)
  end.

(* ===================================================================== *)
(** * Properties *)
(* ===================================================================== *)

(** ** [get_region] *)

(** C5: [get_region] is a function of the dex number alone that returns
    the region of the range the number lies in, for each of the nine ranges
    of the table, and [Unknown] for a number in none of them; 151 is Kanto,
    152 is Johto and 1026 is Unknown. *)
Theorem get_region_table (d : Z) :
  (forall lo hi r, In (lo, hi, r) region_table -> lo <= d <= hi ->
                   get_region d = lit r) /\
  ((forall lo hi r, In (lo, hi, r) region_table -> ~ (lo <= d <= hi)) ->
   get_region d = lit "Unknown") /\
  get_region 1 = lit "Kanto" /\ get_region 151 = lit "Kanto" /\
  get_region 152 = lit "Johto" /\ get_region 251 = lit "Johto" /\
  get_region 252 = lit "Hoenn" /\ get_region 386 = lit "Hoenn" /\
  get_region 387 = lit "Sinnoh" /\ get_region 493 = lit "Sinnoh" /\
  get_region 494 = lit "Unova" /\ get_region 649 = lit "Unova" /\
  get_region 650 = lit "Kalos" /\ get_region 721 = lit "Kalos" /\
  get_region 722 = lit "Alola" /\ get_region 809 = lit "Alola" /\
  get_region 810 = lit "Galar" /\ get_region 905 = lit "Galar" /\
  get_region 906 = lit "Paldea" /\ get_region 1025 = lit "Paldea" /\
  get_region 0 = lit "Unknown" /\ get_region 1026 = lit "Unknown".
Proof.
  split; [|split].
  - intros lo hi r Hin Hd. unfold region_table in Hin. simpl in Hin.
    unfold get_region.
    repeat (destruct Hin as [Hin | Hin];
            [ injection Hin as <- <- <-;
              repeat (match goal with
                      | |- context [?a <=? ?b] =>
                          destruct (Z.leb_spec a b); try lia
                      end; simpl);
              reflexivity | ]).
    contradiction.
  - intros Hout. unfold get_region.
    repeat match goal with
           | |- context [?a <=? ?b] => destruct (Z.leb_spec a b); simpl
           end;
      try reflexivity; exfalso;
      match goal with
      | H1 : ?lo <= d, H2 : d <= ?hi |- _ =>
          match goal with
          | |- _ => refine (Hout lo hi _ _ (conj H1 H2)); simpl; tauto
          end
      end.
  - repeat split; reflexivity.
Qed.

(** At the upper end of the first range. *)
Lemma get_region_table_witness : get_region 151 = lit "Kanto".
Proof.
  apply (proj1 (get_region_table 151) 1 151 "Kanto"%string).
  - simpl. left. reflexivity.
  - lia.
Defined.

(** ** Strings *)

Lemma startswith_spec (p s : pystr) :
  startswith p s = true <-> exists post, s = p ++ post.
Proof.
  revert s. induction p as [|a p IH]; intros s; simpl.
  - split; [intros _; exists s; reflexivity | reflexivity].
  - destruct s as [|b s].
    + split; [discriminate | intros [post [=]]].
    + rewrite andb_true_iff, N.eqb_eq, IH. split.
      * intros [-> [post ->]]. exists post. reflexivity.
      * intros [post [= -> ->]]. eauto.
Qed.

(** [needle in hay] holds exactly when [needle] is a substring of [hay]. *)
Lemma contains_spec (needle hay : pystr) :
  contains needle hay = true <-> exists pre post, hay = pre ++ needle ++ post.
Proof.
  induction hay as [|c hay IH]; simpl; rewrite orb_true_iff, startswith_spec.
  - split.
    + intros [[post Heq] | [=]]. exists [], post. exact Heq.
    + intros (pre & post & Heq). left.
      destruct pre; [exists post; exact Heq | discriminate].
  - rewrite IH. split.
    + intros [[post Heq] | (pre & post & ->)].
      * exists [], post. exact Heq.
      * exists (c :: pre), post. reflexivity.
    + intros ([|c' pre] & post & Heq).
      * left. exists post. exact Heq.
      * right. injection Heq as -> ->. eauto.
Qed.

(** ** The matcher *)

Section MatcherFacts.
Context {U : UnicodeDB}.

Lemma firstn_consumed {A} (l1 l2 : list A) :
  firstn (length (l1 ++ l2) - length l2) (l1 ++ l2) = l1.
Proof.
  rewrite length_app.
  replace (length l1 + length l2 - length l2)%nat with (length l1 + 0)%nat by lia.
  rewrite firstn_app_2. simpl. apply app_nil_r.
Qed.

(** A repetition hands to its continuation what is left after a run of
    characters of the class. *)
Lemma repeat_max_inv {A} (p : N -> bool) (k : pystr -> option A) s x :
  Re.repeat_max p s k = Some x ->
  exists pre s', s = pre ++ s' /\ forallb p pre = true /\ k s' = Some x.
Proof.
  induction s as [|c s IH]; simpl; intros H.
  - exists [], []. auto.
  - destruct (p c) eqn:Hc.
    + destruct (Re.repeat_max p s k) as [r|] eqn:Hr.
      * injection H as <-. destruct (IH eq_refl) as (pre & s' & -> & Hpre & Hk).
        exists (c :: pre), s'. simpl. rewrite Hc, Hpre. auto.
      * exists [], (c :: s). auto.
    + exists [], (c :: s). auto.
Qed.

(** Each split of the text after a run of the class is tried. *)
Lemma repeat_max_complete {A} (p : N -> bool) (k : pystr -> option A) pre s' :
  forallb p pre = true -> is_Some (k s') ->
  is_Some (Re.repeat_max p (pre ++ s') k).
Proof.
  induction pre as [|c pre IH]; simpl; intros Hpre Hk.
  - destruct s' as [|c s']; simpl; [assumption|].
    destruct (p c); [|assumption].
    destruct (Re.repeat_max p s' k); [eauto | assumption].
  - apply andb_true_iff in Hpre as [Hc Hpre]. rewrite Hc.
    destruct (IH Hpre Hk) as [r ->]. eauto.
Qed.

(** With a continuation that never fails the longest run is taken. *)
Lemma repeat_max_greedy {A} (p : N -> bool) (k : pystr -> option A) s :
  (forall s', is_Some (k s')) ->
  exists pre s',
    s = pre ++ s' /\ forallb p pre = true /\
    match s' with c :: _ => p c = false | [] => True end /\
    Re.repeat_max p s k = k s'.
Proof.
  intros Hk. induction s as [|c s IH]; simpl.
  - exists [], []. auto.
  - destruct (p c) eqn:Hc.
    + destruct IH as (pre & s' & -> & Hpre & Hs' & ->).
      exists (c :: pre), s'. simpl. rewrite Hc, Hpre.
      destruct (Hk s') as [r ->]. auto.
    + exists [], (c :: s). auto.
Qed.

Lemma exec_literal_inv {A} kw s g (k : pystr -> option pystr -> option A) x :
  Re.exec (Re.literal kw) s g k = Some x ->
  exists m s', s = m ++ s' /\ ignorecase_match kw m /\ k s' g = Some x.
Proof.
  revert s. induction kw as [|c kw IH]; simpl; intros s H.
  - exists [], s. repeat split; [constructor | assumption].
  - destruct s as [|c' s]; [discriminate|].
    destruct (re_ignorecase_eq c c') eqn:Hc; [|discriminate].
    destruct (IH _ H) as (m & s' & -> & Hm & Hk).
    exists (c' :: m), s'. repeat split; [constructor; assumption | assumption].
Qed.

Lemma exec_literal_complete {A} kw m s' g (k : pystr -> option pystr -> option A) :
  ignorecase_match kw m ->
  Re.exec (Re.literal kw) (m ++ s') g k = k s' g.
Proof.
  intros Hm. induction Hm as [|c c' kw m Hc Hm IH]; simpl.
  - reflexivity.
  - rewrite Hc. apply IH.
Qed.

(** The group [(\d+)] takes the digits at the head of the text, all of
    them, and there is at least one. *)
Lemma exec_digits_inv s g x :
  Re.exec (Re.Group (Re.Plus Re.Digit)) s g report = Some x ->
  exists ds rest,
    s = ds ++ rest /\ ds <> [] /\ forallb isdecimal ds = true /\
    match rest with c :: _ => isdecimal c = false | [] => True end /\
    x = Some ds.
Proof.
  simpl. destruct s as [|c s]; [discriminate|].
  destruct (isdecimal c) eqn:Hc; [|discriminate].
  match goal with
  | |- Re.repeat_max ?p s ?k = _ -> _ =>
      destruct (repeat_max_greedy p k s)
        as (pre & s' & Hs & Hpre & Hs' & Hrun); [unfold report; eauto|];
      rewrite Hrun; clear Hrun
  end.
  subst s. unfold report. intros [= <-].
  exists (c :: pre), s'. split; [reflexivity|]. split; [discriminate|].
  split; [simpl; rewrite Hc; exact Hpre|]. split; [exact Hs'|].
  f_equal. apply (firstn_consumed (c :: pre) s').
Qed.

Lemma exec_digits_complete ds rest g :
  ds <> [] -> forallb isdecimal ds = true ->
  is_Some (Re.exec (Re.Group (Re.Plus Re.Digit)) (ds ++ rest) g report).
Proof.
  intros Hne Hds. destruct ds as [|c ds]; [congruence|].
  simpl in *. apply andb_true_iff in Hds as [Hc Hds]. rewrite Hc.
  apply repeat_max_complete; [assumption | unfold report; eauto].
Qed.

Lemma exec_tail_inv s g x :
  Re.exec count_tail s g report = Some x ->
  exists w ds rest,
    s = w ++ ds ++ rest /\ w <> [] /\ forallb isspace w = true /\
    ds <> [] /\ forallb isdecimal ds = true /\
    match rest with c :: _ => isdecimal c = false | [] => True end /\
    x = Some ds.
Proof.
  unfold count_tail.
  change (Re.exec (Re.Cat ?a ?b) s g report)
    with (Re.exec a s g (fun s' g' => Re.exec b s' g' report)).
  cbn [Re.exec]. destruct s as [|c s]; [discriminate|].
  cbn [Re.in_charset]. destruct (isspace c) eqn:Hc; [|discriminate].
  intros H. apply repeat_max_inv in H as (pre & s' & -> & Hpre & H).
  apply (exec_digits_inv _ g) in H as (ds & rest & -> & Hne & Hds & Hrest & ->).
  exists (c :: pre), ds, rest. split; [reflexivity|]. split; [discriminate|].
  split; [simpl; rewrite Hc; exact Hpre|]. repeat split; assumption.
Qed.

Lemma exec_tail_complete w ds rest g :
  w <> [] -> forallb isspace w = true ->
  ds <> [] -> forallb isdecimal ds = true ->
  is_Some (Re.exec count_tail (w ++ ds ++ rest) g report).
Proof.
  intros Hw Hsp Hne Hds. unfold count_tail.
  change (Re.exec (Re.Cat ?a ?b) ?s g report)
    with (Re.exec a s g (fun s' g' => Re.exec b s' g' report)).
  destruct w as [|c w]; [congruence|].
  simpl in Hsp. apply andb_true_iff in Hsp as [Hc Hsp].
  cbn [Re.exec app Re.in_charset]. rewrite Hc.
  apply (repeat_max_complete isspace
           (fun s'' => Re.exec (Re.Group (Re.Plus Re.Digit)) s'' g report));
    [assumption|].
  apply exec_digits_complete; assumption.
Qed.

(** A match of [count_re] at the head of the text is an occurrence of the
    pattern there, and group 1 is its integer. *)
Lemma exec_count_re_inv s x :
  Re.exec count_re s None report = Some x ->
  exists ds, x = Some ds /\ count_pattern_here s ds.
Proof.
  unfold count_re. fold count_tail.
  change (Re.exec (Re.Cat ?a ?b) s None report)
    with (Re.exec a s None (fun s' g' => Re.exec b s' g' report)).
  cbn [Re.exec]. intros H.
  assert (Hkw : exists kw, In kw count_keywords /\
            Re.exec (Re.literal kw) s None
              (fun s' g' => Re.exec count_tail s' g' report) = Some x).
  { unfold count_keywords.
    destruct (Re.exec (Re.literal (lit "Catch")) s None _) eqn:H1.
    - exists (lit "Catch"). split; [simpl; auto | congruence].
    - destruct (Re.exec (Re.literal (lit "Release")) s None _) eqn:H2.
      + exists (lit "Release"). split; [simpl; auto | congruence].
      + exists (lit "Breed"). split; [simpl; auto | assumption]. }
  destruct Hkw as (kw & Hin & Hx).
  apply exec_literal_inv in Hx as (m & s' & -> & Hm & Hx).
  apply exec_tail_inv in Hx as (w & ds & rest & -> & Hw & Hsp & Hne & Hds & Hrest & ->).
  exists ds. split; [reflexivity|].
  exists kw, m, w, rest. auto 10.
Qed.

(** Where the pattern occurs at the head of the text, [count_re] matches. *)
Lemma exec_count_re_complete s ds :
  count_pattern_here s ds -> is_Some (Re.exec count_re s None report).
Proof.
  intros (kw & m & w & rest & Hin & Hm & -> & Hw & Hsp & Hne & Hds & _).
  unfold count_re. fold count_tail.
  change (Re.exec (Re.Cat ?a ?b) ?s None report)
    with (Re.exec a s None (fun s' g' => Re.exec b s' g' report)).
  cbn [Re.exec].
  pose proof (exec_tail_complete w ds rest None Hw Hsp Hne Hds) as Htail.
  pose proof (exec_literal_complete kw m (w ++ ds ++ rest) None
                (fun s' g' => Re.exec count_tail s' g' report) Hm) as Hlit.
  unfold count_keywords in Hin. simpl in Hin.
  destruct Hin as [<- | [<- | [<- | []]]].
  - rewrite Hlit. destruct Htail as [r ->]. eauto.
  - destruct (Re.exec (Re.literal (lit "Catch")) _ None _); [eauto|].
    rewrite Hlit. destruct Htail as [r ->]. eauto.
  - destruct (Re.exec (Re.literal (lit "Catch")) _ None _); [eauto|].
    destruct (Re.exec (Re.literal (lit "Release")) _ None _); [eauto|].
    rewrite Hlit. assumption.
Qed.

(** [search] reports the match at the first offset that has one. *)
Lemma search_some r s g :
  Re.search r s = Some g ->
  exists i, Re.exec r (skipn i s) None report = Some g /\
            forall j, (j < i)%nat -> Re.exec r (skipn j s) None report = None.
Proof.
  induction s as [|c s IH]; simpl; fold report.
  - destruct (Re.exec r [] None report) eqn:H; [|discriminate].
    intros [= <-]. exists 0%nat. split; [assumption | lia].
  - destruct (Re.exec r (c :: s) None report) eqn:H.
    + intros [= <-]. exists 0%nat. split; [assumption | lia].
    + intros Hs. destruct (IH Hs) as (i & Hi & Hlt).
      exists (S i). split; [assumption|].
      intros [|j] Hj; [assumption | apply Hlt; lia].
Qed.

Lemma search_none r s :
  Re.search r s = None ->
  forall i, Re.exec r (skipn i s) None report = None.
Proof.
  induction s as [|c s IH]; simpl; fold report.
  - destruct (Re.exec r [] None report) eqn:H; [discriminate|].
    intros _ [|i]; assumption.
  - destruct (Re.exec r (c :: s) None report) eqn:H; [discriminate|].
    intros Hs [|i]; [assumption | apply IH; assumption].
Qed.

End MatcherFacts.

(** ** [parse_quest] *)

Section ParseFacts.
Context {U : UnicodeDB}.

(** The statements from [count = 0] to [count = int(count_match.group(1))]:
    the integer of the occurrence of the pattern at the first offset that has
    one, unless it has more digits than [int] takes, and 0 without an
    occurrence. *)
Lemma count_extracted (line : pystr) :
  (exists i ds,
      count_occurrence line i ds /\
      (forall j ds', (j < i)%nat -> ~ count_occurrence line j ds') /\
      match Re.search count_re line with
      | Some group1 => Re.int group1
      | None => Ok 0
      end =
      if (Re.int_max_str_digits <? length ds)%nat then Raise ValueError
      else Ok (Re.int_of_digits ds))
  \/ ((forall i ds, ~ count_occurrence line i ds) /\
      match Re.search count_re line with
      | Some group1 => Re.int group1
      | None => Ok 0
      end = Ok 0).
Proof.
  destruct (Re.search count_re line) as [g|] eqn:Hs.
  - apply search_some in Hs as (i & Hi & Hlt).
    apply exec_count_re_inv in Hi as (ds & -> & Hocc).
    left. exists i, ds. split; [exact Hocc|]. split.
    + intros j ds' Hj Hocc'. apply exec_count_re_complete in Hocc'.
      rewrite (Hlt j Hj) in Hocc'. destruct Hocc' as [? [=]].
    + destruct Hocc as (kw & m & w & rest & _ & _ & _ & _ & _ & Hne & Hds & _).
      unfold Re.int. destruct ds; [congruence|]. rewrite Hds. reflexivity.
  - right. split; [|reflexivity].
    intros i ds Hocc. apply exec_count_re_complete in Hocc.
    rewrite (search_none _ _ Hs i) in Hocc. destruct Hocc as [? [=]].
Qed.

(** The integer of an occurrence is part of the line. *)
Lemma count_occurrence_length (line : pystr) (i : nat) (ds : pystr) :
  count_occurrence line i ds -> (length ds <= length line)%nat.
Proof.
  intros (kw & m & w & rest & _ & _ & Hs & _).
  apply (f_equal (@length N)) in Hs.
  rewrite length_skipn, !length_app in Hs. lia.
Qed.

(** A run of a class followed by a text that does not open with the
    class: the text splits in one way only. *)
Lemma run_split_unique (p : N -> bool) (a a' b b' : pystr) :
  forallb p a = true -> forallb p a' = true ->
  match b with c :: _ => p c = false | [] => True end ->
  match b' with c :: _ => p c = false | [] => True end ->
  a ++ b = a' ++ b' -> a = a' /\ b = b'.
Proof.
  revert a'. induction a as [|c a IH]; intros [|c' a'] Ha Ha' Hb Hb' Heq;
    simpl in *.
  - auto.
  - subst b. apply andb_true_iff in Ha' as [Hc _]. congruence.
  - subst b'. apply andb_true_iff in Ha as [Hc _]. congruence.
  - injection Heq as <- Heq.
    apply andb_true_iff in Ha as [_ Ha]. apply andb_true_iff in Ha' as [_ Ha'].
    destruct (IH a' Ha Ha' Hb Hb' Heq) as [-> ->]. auto.
Qed.

Lemma ignorecase_match_length kw m :
  ignorecase_match kw m -> length m = length kw.
Proof. intros H. induction H; simpl; congruence. Qed.

(** A match of a keyword opens with a match of its first letter and is as
    long as the keyword. *)
Lemma keyword_head kw m :
  In kw count_keywords -> ignorecase_match kw m ->
  exists c m1,
    m = c :: m1 /\
    ((re_ignorecase_eq 67 c = true /\ length m = 5%nat)
     \/ (re_ignorecase_eq 82 c = true /\ length m = 7%nat)
     \/ (re_ignorecase_eq 66 c = true /\ length m = 5%nat)).
Proof.
  unfold count_keywords. simpl.
  intros [<- | [<- | [<- | []]]] Hm;
    pose proof (ignorecase_match_length _ _ Hm) as Hlen;
    match type of Hm with
    | ignorecase_match ?kw _ =>
        let v := eval vm_compute in kw in change kw with v in Hm
    end;
    inversion Hm as [|p c kw0 m1 Hc _]; subst;
    exists c, m1; (split; [reflexivity|]); rewrite Hlen; auto.
Qed.

(** With well separated tables the pattern occurs at an offset with one
    integer only. *)
Lemma count_pattern_here_unique s ds ds' :
  well_separated ->
  count_pattern_here s ds -> count_pattern_here s ds' -> ds = ds'.
Proof.
  intros [Hdisjoint Hfirst]
    (kw & m & w & rest & Hin & Hm & -> & Hw & Hsp & Hne & Hds & Hrest)
    (kw' & m' & w' & rest' & Hin' & Hm' & Heq & Hw' & Hsp' & Hne' & Hds' & Hrest').
  assert (Hlen : length m = length m').
  { destruct (keyword_head _ _ Hin Hm) as (c & m1 & -> & Hc).
    destruct (keyword_head _ _ Hin' Hm') as (c' & m1' & -> & Hc').
    injection Heq as <- _.
    destruct Hc as [[Hc ->] | [[Hc ->] | [Hc ->]]];
      destruct Hc' as [[Hc' ->] | [[Hc' ->] | [Hc' ->]]];
      try reflexivity; exfalso;
      first [ destruct (Hfirst _ Hc) as [H1 H2]
            | destruct (Hfirst _ Hc') as [H1 H2] ];
      congruence. }
  apply app_inj_1 in Heq as [_ Heq]; [|exact Hlen].
  assert (Hopen : forall (x y : pystr),
            x <> [] -> forallb isdecimal x = true ->
            match x ++ y with c :: _ => isspace c = false | [] => True end).
  { intros [|c x] y Hx Hall; [congruence|]. simpl in *.
    apply andb_true_iff in Hall as [Hc _].
    destruct (isspace c) eqn:Hs; [|reflexivity].
    rewrite (Hdisjoint c Hs) in Hc. discriminate. }
  destruct (run_split_unique isspace w w' (ds ++ rest) (ds' ++ rest')
              Hsp Hsp' (Hopen _ _ Hne Hds) (Hopen _ _ Hne' Hds') Heq)
    as [_ Heq'].
  destruct (run_split_unique isdecimal ds ds' rest rest'
              Hds Hds' Hrest Hrest' Heq') as [Hgoal _].
  exact Hgoal.
Qed.

Lemma truthy_find (f : pystr -> bool) (l : list pystr) :
  Forall (fun x => x <> []) l -> truthy (List.find f l) = existsb f l.
Proof.
  induction 1 as [|x l Hx _ IH]; simpl; [reflexivity|].
  destruct (f x); simpl; [|exact IH].
  destruct x; [congruence | reflexivity].
Qed.

Lemma find_none_existsb (f : pystr -> bool) (l : list pystr) :
  List.find f l = None <-> existsb f l = false.
Proof.
  induction l as [|x l IH]; simpl; [tauto|].
  destruct (f x); simpl; [split; discriminate | exact IH].
Qed.

Lemma regions_nonempty : Forall (fun x : pystr => x <> []) regions.
Proof. unfold regions. simpl. repeat constructor; discriminate. Qed.

Lemma types_nonempty : Forall (fun x : pystr => x <> []) types.
Proof. unfold types. simpl. repeat constructor; discriminate. Qed.

(** Each branch of the chain that sets [quest_type] to ['gender'] assigns
    [gender], and no other branch does. *)
Lemma quest_keywords_gender (quest_text_lower : pystr) :
  fst (quest_keywords quest_text_lower) = Some Gender <->
  is_Some (snd (quest_keywords quest_text_lower)).
Proof.
  unfold quest_keywords.
  repeat match goal with
         | |- context [if ?b then _ else _] => destruct b
         end; simpl; split; intros H;
    try congruence; try (destruct H; congruence); eauto.
Qed.

(** [parse_quest] builds its descriptor from the count: the conversion of
    the count is the one step of it that can raise. *)
Lemma parse_quest_bind (line : pystr) :
  parse_quest line =
  count ← match Re.search count_re line with
          | Some group1 => Re.int group1
          | None => Ok 0
          end;
  Ok {| QuestInfo.text := line;
        QuestInfo.type := fst (spec_classify line);
        QuestInfo.region :=
          List.find (fun region => contains region line) regions;
        QuestInfo.pokemon_type :=
          List.find
            (fun ptype =>
               contains (str_lower ptype) (str_lower line)
               || contains (ptype ++ lit "-type") line)
            types;
        QuestInfo.count := count;
        QuestInfo.gender := snd (spec_classify line) |}.
Proof.
  unfold parse_quest.
  generalize (match Re.search count_re line with
              | Some group1 => Re.int group1
              | None => Ok 0
              end).
  intros r.
  unfold spec_classify, first_match, region_detected, type_detected.
  rewrite <- (truthy_find _ _ regions_nonempty).
  rewrite <- (truthy_find _ _ types_nonempty).
  unfold quest_keywords.
  destruct (contains (lit "breed") (str_lower line));
    [destruct r; reflexivity|].
  destruct (contains (lit "release") (str_lower line));
    [destruct r; reflexivity|].
  destruct (contains (lit "female") (str_lower line));
    [destruct r; reflexivity|].
  destruct (contains (lit "male") (str_lower line));
    [destruct r; reflexivity|].
  destruct (contains (lit "unknown gender") (str_lower line)
            || contains (lit "genderless") (str_lower line));
    [destruct r; reflexivity|].
  cbn [List.find fst snd].
  destruct (truthy _ || truthy _); [destruct r; reflexivity|].
  destruct (contains (lit "catch") (str_lower line)); destruct r; reflexivity.
Qed.

(** What [parse_quest] returns, when it returns. *)
Lemma parse_quest_ok (line : pystr) (q : QuestInfo.t) :
  parse_quest line = Ok q ->
  QuestInfo.text q = line /\
  (QuestInfo.type q, QuestInfo.gender q) = spec_classify line /\
  QuestInfo.region q =
    List.find (fun region => contains region line) regions /\
  QuestInfo.pokemon_type q =
    List.find
      (fun ptype =>
         contains (str_lower ptype) (str_lower line)
         || contains (ptype ++ lit "-type") line)
      types /\
  ((exists i ds,
       count_occurrence line i ds /\
       (forall j ds', (j < i)%nat -> ~ count_occurrence line j ds') /\
       (length ds <= Re.int_max_str_digits)%nat /\
       QuestInfo.count q = Re.int_of_digits ds)
   \/ ((forall i ds, ~ count_occurrence line i ds) /\ QuestInfo.count q = 0)).
Proof.
  rewrite parse_quest_bind.
  destruct (count_extracted line) as [(i & ds & Hocc & Hleft & ->) | [Hnone ->]].
  - destruct (Nat.ltb_spec Re.int_max_str_digits (length ds)) as [Hlong | Hshort];
      cbn [mbind result_bind]; [discriminate|].
    intros [= <-]. cbn [QuestInfo.text QuestInfo.type QuestInfo.gender
                        QuestInfo.region QuestInfo.pokemon_type QuestInfo.count].
    split; [reflexivity|]. split; [symmetry; apply surjective_pairing|].
    split; [reflexivity|]. split; [reflexivity|].
    left. exists i, ds. auto.
  - cbn [mbind result_bind]. intros [= <-].
    cbn [QuestInfo.text QuestInfo.type QuestInfo.gender
         QuestInfo.region QuestInfo.pokemon_type QuestInfo.count].
    split; [reflexivity|]. split; [symmetry; apply surjective_pairing|].
    split; [reflexivity|]. split; [reflexivity|].
    right. auto.
Qed.

(** When [parse_quest] raises: it is the [ValueError] of [int], on an
    integer of more digits than [int] takes. *)
Lemma parse_quest_raise (line : pystr) (e : exn) :
  parse_quest line = Raise e ->
  e = ValueError /\
  exists i ds,
    count_occurrence line i ds /\
    (forall j ds', (j < i)%nat -> ~ count_occurrence line j ds') /\
    (Re.int_max_str_digits < length ds)%nat.
Proof.
  rewrite parse_quest_bind.
  destruct (count_extracted line) as [(i & ds & Hocc & Hleft & ->) | [Hnone ->]].
  - destruct (Nat.ltb_spec Re.int_max_str_digits (length ds)) as [Hlong | Hshort];
      cbn [mbind result_bind]; [|discriminate].
    intros [= <-]. split; [reflexivity|]. exists i, ds. auto.
  - cbn [mbind result_bind]. discriminate.
Qed.

(** [parse_quest] returns or raises [ValueError]. *)
Lemma parse_quest_result (line : pystr) :
  (exists q, parse_quest line = Ok q) \/ parse_quest line = Raise ValueError.
Proof.
  destruct (parse_quest line) as [q|e] eqn:Hparse; [eauto|].
  right. apply parse_quest_raise in Hparse as [-> _]. reflexivity.
Qed.

(** A line of no more characters than [int] takes digits is parsed. *)
Lemma parse_quest_short (line : pystr) :
  (length line <= Re.int_max_str_digits)%nat -> exists q, parse_quest line = Ok q.
Proof.
  intros Hshort. destruct (parse_quest_result line) as [Hq | Hraise]; [exact Hq|].
  apply parse_quest_raise in Hraise as (_ & i & ds & Hocc & _ & Hlong).
  apply count_occurrence_length in Hocc. lia.
Qed.

End ParseFacts.



(** A gender line that names a region: the descriptor carries both. *)
Lemma parse_quest_gender_with_region :
  exists q,
    parse_quest (U := Latin1.db) (lit "Catch 3 Female Kanto Pokémon") = Ok q /\
    QuestInfo.type q = Gender /\
    QuestInfo.gender q = Some (lit "female") /\
    QuestInfo.region q = Some (lit "Kanto").
Proof. eexists. split; [vm_compute; reflexivity|]. repeat split. Qed.

(** C1, as the code has it: in the descriptor that [parse_quest] returns
    the gender field is set exactly when the category is gender; region and
    type are detected whatever the category is, so the region field is null
    exactly when the line contains none of the nine region names, and the
    type field exactly when it contains none of the type names. *)
Theorem parse_quest_gender_fields (U : UnicodeDB) (line : pystr)
    (q : QuestInfo.t) :
  parse_quest line = Ok q ->
  (QuestInfo.type q = Gender <-> is_Some (QuestInfo.gender q)) /\
  (QuestInfo.region q = None <-> region_detected line = false) /\
  (QuestInfo.pokemon_type q = None <-> type_detected line = false) /\
  (forall r, QuestInfo.region q = Some r ->
             In r regions /\ contains r line = true) /\
  (forall t, QuestInfo.pokemon_type q = Some t ->
             In t types /\
             contains (str_lower t) (str_lower line)
             || contains (t ++ lit "-type") line = true).
Proof.
  intros Hq. apply parse_quest_ok in Hq as (_ & Hclass & Hr & Ht & _).
  split; [|split; [|split; [|split]]].
  - revert Hclass. unfold spec_classify, first_match.
    repeat match goal with
           | |- context [if ?b then _ else _] => destruct b
           | |- context [List.find fst ((?b, _) :: _)] =>
               destruct b; cbn [List.find fst snd]
           end;
      cbn [List.find fst snd]; intros [= -> ->];
      split; intros H; try congruence; try (destruct H; congruence); eauto.
  - rewrite Hr. apply find_none_existsb.
  - rewrite Ht. apply find_none_existsb.
  - intros r Hsome. rewrite Hr in Hsome. apply find_some in Hsome. exact Hsome.
  - intros t Hsome. rewrite Ht in Hsome. apply find_some in Hsome. exact Hsome.
Qed.

(** A line with a gender and a region: the descriptor has its gender set
    and its region is one of the nine names. *)
Lemma parse_quest_gender_fields_witness :
  exists q,
    parse_quest (U := Latin1.db) (lit "Catch 3 Female Kanto Pokémon") = Ok q /\
    is_Some (QuestInfo.gender q) /\
    In (lit "Kanto") regions.
Proof.
  destruct (parse_quest (U := Latin1.db) (lit "Catch 3 Female Kanto Pokémon"))
    as [q|e] eqn:Hq; [|vm_compute in Hq; discriminate].
  destruct (parse_quest_gender_fields Latin1.db _ q Hq)
    as (Hgender & _ & _ & Hregion & _).
  exists q. split; [reflexivity|].
  vm_compute in Hq. injection Hq as <-.
  split.
  - apply (proj1 Hgender). reflexivity.
  - apply (Hregion (lit "Kanto")). reflexivity.
Defined.

Lemma latin1_well_separated : well_separated (U := Latin1.db).
Proof.
  split; intros c; cbn [isspace isdecimal re_ignorecase_eq Latin1.db].
  - unfold Latin1.space, Latin1.digit. intros H.
    apply andb_false_iff.
    destruct (N.leb_spec 48 c); [|auto]. right. apply N.leb_gt.
    repeat match goal with
           | H : _ || _ = true |- _ => apply orb_true_iff in H as [H | H]
           | H : _ && _ = true |- _ => apply andb_true_iff in H as [? ?]
           | H : (_ <=? _)%N = true |- _ => apply N.leb_le in H
           | H : (_ =? _)%N = true |- _ => apply N.eqb_eq in H
           end; lia.
  - change (Latin1.lower_cp 82) with 114%N.
    change (Latin1.lower_cp 67) with 99%N.
    change (Latin1.lower_cp 66) with 98%N.
    intros H. apply N.eqb_eq in H. rewrite <- H. split; reflexivity.
Qed.

(** An integer of 4301 digits after the keyword: the pattern occurs at the
    head of the line, and [parse_quest] raises. *)
Lemma parse_quest_count_overlong :
  count_occurrence (U := Latin1.db)
    (lit "Catch " ++ List.repeat 49%N 4301) 0 (List.repeat 49%N 4301) /\
  parse_quest (U := Latin1.db) (lit "Catch " ++ List.repeat 49%N 4301) =
    Raise ValueError.
Proof.
  split; [|vm_compute; reflexivity].
  exists (lit "Catch"), (lit "Catch"), (lit " "), [].
  split; [left; reflexivity|].
  split; [vm_compute; repeat constructor|].
  split; [rewrite app_nil_r; vm_compute; reflexivity|].
  split; [discriminate|]. split; [reflexivity|].
  split; [discriminate|]. split; [vm_compute; reflexivity | exact I].
Qed.

(** C9, as the code has it: whatever the category, [parse_quest] converts
    the integer of the occurrence of the pattern (keyword, whitespace,
    integer) at the first offset of the line that has one; with an integer of
    no more digits than [int] takes the count of the descriptor is that
    integer, with a longer one [parse_quest] raises [ValueError]; the count
    is 0 when the pattern occurs nowhere. With well separated tables an
    offset has one such integer only. ["Breed 5 Pokémon"] is a breed quest
    with count 5. *)
Theorem parse_quest_count :
  (forall (U : UnicodeDB) (line : pystr),
     (exists i ds,
         count_occurrence line i ds /\
         (forall j ds', (j < i)%nat -> ~ count_occurrence line j ds') /\
         ((length ds <= Re.int_max_str_digits)%nat /\
          (exists q,
             parse_quest line = Ok q /\
             QuestInfo.count q = Re.int_of_digits ds)
          \/ (Re.int_max_str_digits < length ds)%nat /\
             parse_quest line = Raise ValueError))
     \/ ((forall i ds, ~ count_occurrence line i ds) /\
         exists q, parse_quest line = Ok q /\ QuestInfo.count q = 0)) /\
  (forall (U : UnicodeDB) (line : pystr) (i : nat) (ds ds' : pystr),
     well_separated ->
     count_occurrence line i ds -> count_occurrence line i ds' -> ds = ds') /\
  parse_quest (U := Latin1.db) (lit "Breed 5 Pokémon") =
    Ok {| QuestInfo.text := lit "Breed 5 Pokémon";
          QuestInfo.type := Breed;
          QuestInfo.region := None;
          QuestInfo.pokemon_type := None;
          QuestInfo.count := 5;
          QuestInfo.gender := None |}.
Proof.
  split; [|split; [|vm_compute; reflexivity]].
  - intros U line. rewrite parse_quest_bind.
    destruct (count_extracted line) as [(i & ds & Hocc & Hleft & ->) | [Hnone ->]].
    + left. exists i, ds. split; [exact Hocc|]. split; [exact Hleft|].
      destruct (Nat.ltb_spec Re.int_max_str_digits (length ds)) as [Hlong | Hshort];
        cbn [mbind result_bind].
      * right. auto.
      * left. split; [exact Hshort|]. eexists. split; reflexivity.
    + right. split; [exact Hnone|]. cbn [mbind result_bind].
      eexists. split; reflexivity.
  - intros U line i ds ds' Hsep. unfold count_occurrence.
    apply count_pattern_here_unique. exact Hsep.
Qed.

(** The occurrence in ["Breed 5 Pokémon"], with the Latin-1 tables. *)
Lemma parse_quest_count_witness :
  count_occurrence (U := Latin1.db) (lit "Breed 5 Pokémon") 0 (lit "5") /\
  lit "5" = lit "5".
Proof.
  assert (Hocc : count_occurrence (U := Latin1.db) (lit "Breed 5 Pokémon") 0
                   (lit "5")).
  { exists (lit "Breed"), (lit "Breed"), (lit " "), (lit " Pokémon").
    split; [right; right; left; reflexivity|].
    split; [vm_compute; repeat constructor|].
    repeat split; try discriminate; reflexivity. }
  split; [exact Hocc|].
  exact (proj1 (proj2 parse_quest_count) Latin1.db (lit "Breed 5 Pokémon")
           0%nat (lit "5") (lit "5") latin1_well_separated Hocc Hocc).
Defined.

(** A release quest with an integer of 4301 digits: no descriptor is
    returned. *)
Lemma parse_quest_raises :
  parse_quest (U := Latin1.db) (lit "Release " ++ List.repeat 57%N 4301) =
    Raise ValueError /\
  ~ exists q,
      parse_quest (U := Latin1.db) (lit "Release " ++ List.repeat 57%N 4301)
      = Ok q.
Proof.
  assert (H : parse_quest (U := Latin1.db)
                (lit "Release " ++ List.repeat 57%N 4301) = Raise ValueError)
    by (vm_compute; reflexivity).
  split; [exact H|]. intros [q Hq]. rewrite H in Hq. discriminate.
Qed.

(** C10, as the code has it: [parse_quest] returns a descriptor or raises
    the [ValueError] of [int], and it raises only where the integer that the
    count pattern captures has more digits than [int] takes, so it returns
    for every line of no more characters than that; the descriptor keeps the
    line, and its category is unknown when no rule of the precedence list
    applies. The local [gender] is assigned in each branch of the chain that
    sets the category to gender, so the descriptor is built without reading
    an unassigned variable. *)
Theorem parse_quest_total (U : UnicodeDB) (line : pystr) :
  ((exists q, parse_quest line = Ok q)
   \/ parse_quest line = Raise ValueError /\
      exists i ds,
        count_occurrence line i ds /\
        (forall j ds', (j < i)%nat -> ~ count_occurrence line j ds') /\
        (Re.int_max_str_digits < length ds)%nat) /\
  ((length line <= Re.int_max_str_digits)%nat ->
   exists q, parse_quest line = Ok q) /\
  (forall q,
     parse_quest line = Ok q ->
     QuestInfo.text q = line /\
     let has kw := contains (lit kw) (str_lower line) in
     (has "breed"%string || has "release"%string || has "female"%string
      || has "male"%string || has "unknown gender"%string
      || has "genderless"%string || region_detected line
      || type_detected line || has "catch"%string = false ->
      QuestInfo.type q = Unknown)) /\
  (fst (quest_keywords (str_lower line)) = Some Gender ->
   exists g,
     snd (quest_keywords (str_lower line)) = Some g /\
     read_local "gender" (snd (quest_keywords (str_lower line))) = Ok g).
Proof.
  split; [|split; [|split]].
  - destruct (parse_quest line) as [q|e] eqn:Hparse; [eauto|].
    right. apply parse_quest_raise in Hparse as [-> Hlong]. auto.
  - apply parse_quest_short.
  - intros q Hq. apply parse_quest_ok in Hq as (Htext & Hclass & _).
    split; [exact Htext|].
    cbn zeta. intros Hnone.
    repeat (apply orb_false_iff in Hnone as [Hnone ?]).
    revert Hclass. unfold spec_classify, first_match.
    repeat match goal with
           | H : ?b = false |- context [?b] => rewrite H
           end.
    cbn [List.find fst snd orb]. intros [= -> _]. reflexivity.
  - intros Hg. apply quest_keywords_gender in Hg as [g Hg].
    exists g. rewrite Hg. split; reflexivity.
Qed.

(** A line that no rule applies to. *)
Lemma parse_quest_total_witness :
  exists q,
    parse_quest (U := Latin1.db) (lit "1. Hatch 2 eggs") = Ok q /\
    QuestInfo.type q = Unknown.
Proof.
  destruct (proj1 (proj2 (parse_quest_total Latin1.db (lit "1. Hatch 2 eggs"))))
    as (q & Hq); [vm_compute; lia|].
  exists q. split; [exact Hq|].
  apply (proj1 (proj2 (proj2 (parse_quest_total Latin1.db
                                (lit "1. Hatch 2 eggs")))) q Hq).
  vm_compute. reflexivity.
Defined.

(** ** [find_matching_pokemon] *)

Section MatchFacts.
Context {U : UnicodeDB}.

Lemma str_eqb_eq (a b : pystr) : str_eqb a b = true <-> a = b.
Proof. unfold str_eqb. apply bool_decide_eq_true. Qed.

Lemma gender_body_take_if self gender_pokemon priority item matches :
  gender_body self gender_pokemon priority item matches =
  take_if (accepts_gender self gender_pokemon) priority item matches.
Proof.
  destruct item as [dex data].
  unfold gender_body, take_if, accepts_gender, annotate. cbn [fst snd].
  destruct (suggested matches dex); [reflexivity|].
  destruct (is_regional_variant (Pokemon.name data)); [reflexivity|].
  cbn [negb andb].
  destruct (bool_decide (Pokemon.name data ∈ gender_pokemon)); [|reflexivity].
  cbn [andb].
  destruct (spawn_rates self !! dex) as [rate|] eqn:Hrate.
  - destruct (str_eqb rate priority) eqn:Heq.
    + apply str_eqb_eq in Heq. subst rate.
      rewrite bool_decide_eq_true_2 by reflexivity. reflexivity.
    + rewrite bool_decide_eq_false_2; [reflexivity|].
      intros [= ->]. unfold str_eqb in Heq.
      rewrite bool_decide_eq_true_2 in Heq by reflexivity. discriminate.
  - rewrite bool_decide_eq_false_2 by discriminate. reflexivity.
Qed.

Lemma type_region_body_take_if self quest_info priority item matches :
  type_region_body self quest_info priority item matches =
  take_if (accepts_type_region self quest_info) priority item matches.
Proof.
  destruct item as [dex data].
  unfold type_region_body, take_if, accepts_type_region, annotate,
    meets_constraints, region_matches, type_matches.
  cbn [fst snd].
  destruct (suggested matches dex); [reflexivity|].
  destruct (is_regional_variant (Pokemon.name data)); [reflexivity|].
  cbn [negb andb].
  destruct (spawn_rates self !! dex) as [rate|] eqn:Hrate.
  - destruct (str_eqb rate priority) eqn:Heq.
    + apply str_eqb_eq in Heq. subst rate.
      rewrite bool_decide_eq_true_2 by reflexivity. cbn [negb andb].
      destruct (QuestInfo.region quest_info) as [[|c r]|];
        destruct (QuestInfo.pokemon_type quest_info) as [[|c' t]|];
        cbn [truthy negb andb orb str_eqb_opt]; try reflexivity;
        repeat match goal with
               | |- context [if ?b then _ else _] => destruct b
               end; reflexivity.
    + rewrite bool_decide_eq_false_2; [reflexivity|].
      intros [= ->]. unfold str_eqb in Heq.
      rewrite bool_decide_eq_true_2 in Heq by reflexivity. discriminate.
  - rewrite bool_decide_eq_false_2 by discriminate. reflexivity.
Qed.

Lemma for_each_ext {A S} (stop : S -> bool) (f g : A -> S -> S) l st :
  (forall x s, f x s = g x s) ->
  for_each stop f l st = for_each stop g l st.
Proof.
  intros Hfg. revert st. induction l as [|x l IH]; intros st; simpl.
  - reflexivity.
  - destruct (stop st); [reflexivity|]. rewrite Hfg. apply IH.
Qed.

Lemma scan_ext self limit f g :
  (forall p item ms, f p item ms = g p item ms) ->
  scan self limit f = scan self limit g.
Proof.
  intros Hfg. unfold scan. apply for_each_ext.
  intros p ms. apply for_each_ext. intros item ms'. apply Hfg.
Qed.

Lemma full_spec limit (ms : list Match.t) :
  full limit ms = true <-> (Z.to_nat limit <= length ms)%nat.
Proof. unfold full. rewrite Z.leb_le. lia. Qed.

Lemma full_false limit (ms : list Match.t) :
  full limit ms = false <-> (length ms < Z.to_nat limit)%nat.
Proof. unfold full. rewrite Z.leb_gt. lia. Qed.

Lemma slice_to_short {A} (l : list A) limit :
  (length l <= Z.to_nat limit)%nat -> slice_to l limit = l.
Proof.
  intros Hlen. unfold slice_to. destruct (Z.leb_spec 0 limit).
  - apply firstn_all2. exact Hlen.
  - assert (length l = 0%nat) as Hnil by lia.
    destruct l; [reflexivity | discriminate].
Qed.

(** One pass over the table appends, in the order of the table, some of
    its items, each annotated with the tier of the pass. *)
Lemma pass_sublist accepts limit priority items ms :
  exists taken,
    sublist taken items /\
    Forall (fun item => accepts priority item = true) taken /\
    (length ms <= Z.to_nat limit ->
     length ms + length taken <= Z.to_nat limit)%nat /\
    for_each (full limit) (take_if accepts priority) items ms =
    ms ++ List.map (annotate priority) taken.
Proof.
  assert (Hnone : forall items' ms', exists taken,
            sublist taken items' /\
            Forall (fun item => accepts priority item = true) taken /\
            (length ms' <= Z.to_nat limit ->
             length ms' + length taken <= Z.to_nat limit)%nat /\
            ms' = ms' ++ List.map (annotate priority) taken).
  { intros items' ms'. exists []. split; [apply sublist_nil_l|].
    split; [constructor|]. split; [simpl; lia|].
    simpl. symmetry. apply app_nil_r. }
  revert ms. induction items as [|item items IH]; intros ms; simpl.
  - apply Hnone.
  - destruct (full limit ms) eqn:Hfull; [apply Hnone|].
    apply full_false in Hfull. unfold take_if at 2.
    destruct (suggested ms (fst item)).
    + destruct (IH ms) as (taken & Hsub & Hacc & Hlen & Heq).
      exists taken. split; [apply sublist_cons; exact Hsub|]. auto.
    + destruct (accepts priority item) eqn:Hitem.
      * destruct (IH (ms ++ [annotate priority item]))
          as (taken & Hsub & Hacc & Hlen & Heq).
        exists (item :: taken). split; [apply sublist_skip; exact Hsub|].
        split; [constructor; assumption|]. split.
        -- intros _. rewrite length_app in Hlen. simpl in *. lia.
        -- rewrite Heq. rewrite <- app_assoc. reflexivity.
      * destruct (IH ms) as (taken & Hsub & Hacc & Hlen & Heq).
        exists taken. split; [apply sublist_cons; exact Hsub|]. auto.
Qed.

(** The scan is the three passes one after the other. *)
Lemma scan_blocks self limit accepts :
  exists taken1 taken2 taken3,
    sublist taken1 (pokemon_data self) /\
    sublist taken2 (pokemon_data self) /\
    sublist taken3 (pokemon_data self) /\
    Forall (fun item => accepts (lit "1/225") item = true) taken1 /\
    Forall (fun item => accepts (lit "1/337") item = true) taken2 /\
    Forall (fun item => accepts (lit "1/674") item = true) taken3 /\
    (length (taken1 ++ taken2 ++ taken3) <= Z.to_nat limit)%nat /\
    scan self limit (take_if accepts) =
    List.map (annotate (lit "1/225")) taken1
    ++ List.map (annotate (lit "1/337")) taken2
    ++ List.map (annotate (lit "1/674")) taken3.
Proof.
  unfold scan, spawn_priorities. cbn [for_each].
  destruct (full limit []) eqn:Hfull0.
  { exists [], [], []. simpl.
    repeat split; try apply sublist_nil_l; try constructor; lia. }
  destruct (pass_sublist accepts limit (lit "1/225") (pokemon_data self) [])
    as (t1 & Hs1 & Ha1 & Hl1 & ->).
  simpl in Hl1. specialize (Hl1 ltac:(lia)). cbn [app].
  destruct (full limit (List.map (annotate (lit "1/225")) t1)) eqn:Hfull1.
  { exists t1, [], []. simpl. rewrite !app_nil_r.
    repeat split; try apply sublist_nil_l; try constructor; assumption. }
  destruct (pass_sublist accepts limit (lit "1/337") (pokemon_data self)
              (List.map (annotate (lit "1/225")) t1))
    as (t2 & Hs2 & Ha2 & Hl2 & ->).
  rewrite length_map in Hl2. specialize (Hl2 Hl1).
  destruct (full limit (List.map (annotate (lit "1/225")) t1
                        ++ List.map (annotate (lit "1/337")) t2)) eqn:Hfull2.
  { exists t1, t2, []. simpl. rewrite !app_nil_r.
    repeat split; try apply sublist_nil_l; try constructor; try assumption.
    rewrite length_app. exact Hl2. }
  destruct (pass_sublist accepts limit (lit "1/674") (pokemon_data self)
              (List.map (annotate (lit "1/225")) t1
               ++ List.map (annotate (lit "1/337")) t2))
    as (t3 & Hs3 & Ha3 & Hl3 & ->).
  rewrite length_app, !length_map in Hl3. specialize (Hl3 Hl2).
  exists t1, t2, t3. rewrite <- app_assoc.
  repeat split; try assumption. rewrite !length_app. lia.
Qed.

End MatchFacts.

Section FindFacts.
Context {U : UnicodeDB}.

Lemma scan_length self limit accepts :
  (length (scan self limit (take_if accepts)) <= Z.to_nat limit)%nat.
Proof.
  destruct (scan_blocks self limit accepts)
    as (t1 & t2 & t3 & _ & _ & _ & _ & _ & _ & Hlen & ->).
  rewrite !length_app in *. rewrite !length_map. exact Hlen.
Qed.

(** A quest that gets suggestions gets the scan with its own test. *)
Lemma find_matching_scan self quest_info limit :
  QuestInfo.type quest_info = Gender \/ QuestInfo.type quest_info = TypeRegion ->
  find_matching_pokemon self quest_info limit =
  scan self limit (take_if (quest_accepts self quest_info)).
Proof.
  unfold find_matching_pokemon, quest_accepts.
  intros [Ht | Ht]; rewrite Ht.
  - fold (gender_pokemon_of self quest_info).
    rewrite (scan_ext self limit _ _
               (gender_body_take_if self (gender_pokemon_of self quest_info))).
    apply slice_to_short, scan_length.
  - rewrite (scan_ext self limit _ _
               (type_region_body_take_if self quest_info)).
    apply slice_to_short, scan_length.
Qed.

(** The result is three blocks, one for each tier in the order of
    [spawn_priorities]; a block lists, in the order of the table, items of
    the table that the quest takes in that tier; and the three together
    have at most [limit] entries. *)
Lemma find_matching_blocks self quest_info limit :
  exists taken1 taken2 taken3,
    sublist taken1 (pokemon_data self) /\
    sublist taken2 (pokemon_data self) /\
    sublist taken3 (pokemon_data self) /\
    Forall (fun item => quest_accepts self quest_info (lit "1/225") item = true) taken1 /\
    Forall (fun item => quest_accepts self quest_info (lit "1/337") item = true) taken2 /\
    Forall (fun item => quest_accepts self quest_info (lit "1/674") item = true) taken3 /\
    (length (taken1 ++ taken2 ++ taken3) <= Z.to_nat limit)%nat /\
    find_matching_pokemon self quest_info limit =
    List.map (annotate (lit "1/225")) taken1
    ++ List.map (annotate (lit "1/337")) taken2
    ++ List.map (annotate (lit "1/674")) taken3.
Proof.
  destruct (decide (QuestInfo.type quest_info = Gender
                    \/ QuestInfo.type quest_info = TypeRegion)) as [Ht | Ht].
  - rewrite (find_matching_scan _ _ _ Ht). apply scan_blocks.
  - exists [], [], []. simpl.
    repeat split; try apply sublist_nil_l; try constructor; try lia.
    unfold find_matching_pokemon.
    destruct (QuestInfo.type quest_info); try reflexivity; exfalso; auto.
Qed.

(** Each entry of the result comes from an item of the table that the
    quest takes in the tier the entry is annotated with. *)
Lemma find_matching_elements self quest_info limit m :
  In m (find_matching_pokemon self quest_info limit) ->
  exists priority item,
    In priority spawn_priorities /\ In item (pokemon_data self) /\
    quest_accepts self quest_info priority item = true /\
    m = annotate priority item.
Proof.
  destruct (find_matching_blocks self quest_info limit)
    as (t1 & t2 & t3 & Hs1 & Hs2 & Hs3 & Ha1 & Ha2 & Ha3 & _ & ->).
  rewrite !in_app_iff, !in_map_iff.
  assert (Hsub : forall taken item,
            sublist taken (pokemon_data self) -> In item taken ->
            In item (pokemon_data self)).
  { intros taken item Hs Hin. apply list_elem_of_In.
    apply list_elem_of_In in Hin. exact (elem_of_sublist _ _ _ Hin Hs). }
  rewrite Forall_forall in Ha1, Ha2, Ha3.
  unfold spawn_priorities.
  intros [(item & <- & Hin) | [(item & <- & Hin) | (item & <- & Hin)]].
  - exists (lit "1/225"), item. simpl. eauto 10.
  - exists (lit "1/337"), item. simpl. eauto 10.
  - exists (lit "1/674"), item. simpl. eauto 10.
Qed.

Lemma quest_accepts_inv self quest_info priority item :
  quest_accepts self quest_info priority item = true ->
  is_regional_variant (Pokemon.name (snd item)) = false /\
  spawn_rates self !! fst item = Some priority.
Proof.
  unfold quest_accepts, accepts_gender, accepts_type_region.
  destruct (QuestInfo.type quest_info); try discriminate; intros H;
    repeat match goal with
           | H : _ && _ = true |- _ => apply andb_true_iff in H as [? ?]
           | H : negb _ = true |- _ => apply negb_true_iff in H
           | H : bool_decide (_ = _) = true |- _ => apply bool_decide_eq_true in H
           end; split; assumption.
Qed.

End FindFacts.

(** ** Tables as [load_data] builds them *)

Section LoadedFacts.
Context {U : UnicodeDB}.

Lemma dict_set_keys {V} k (v : V) d k' :
  In k' (List.map fst (dict_set k v d)) <-> k' = k \/ In k' (List.map fst d).
Proof.
  induction d as [|[k0 v0] d IH]; simpl.
  - intuition.
  - destruct (Z.eqb_spec k0 k) as [-> | Hne]; simpl.
    + intuition.
    + rewrite IH. intuition.
Qed.

Lemma dict_set_loaded k v d :
  Pokemon.dex v = k -> Pokemon.region v = get_region k ->
  loaded d -> loaded (dict_set k v d).
Proof.
  intros Hdex Hregion [Hnodup Hall]. split.
  - clear Hall. induction d as [|[k0 v0] d IH]; simpl.
    + repeat constructor. simpl. tauto.
    + simpl in Hnodup. apply List.NoDup_cons_iff in Hnodup as [Hnotin Hnodup'].
      destruct (Z.eqb_spec k0 k) as [-> | Hne]; simpl.
      * constructor; assumption.
      * constructor; [|apply IH; assumption].
        rewrite dict_set_keys. intros [-> | Hin]; [congruence | contradiction].
  - clear Hnodup. induction Hall as [|[k0 v0] d Hitem Hall IH]; simpl.
    + repeat constructor; simpl; assumption.
    + destruct (Z.eqb_spec k0 k) as [-> | Hne].
      * constructor; [split; assumption | assumption].
      * constructor; assumption.
Qed.

(** The table of [load_data] is keyed by dex number, each value with the
    region of its number, and without a repeated key. *)
Lemma load_pokemon_data_loaded rows : loaded (load_pokemon_data rows).
Proof.
  unfold load_pokemon_data.
  assert (Hempty : loaded []) by (split; constructor).
  revert Hempty. generalize (@nil (Z * Pokemon.t)).
  induction rows as [|row rows IH]; intros acc Hacc; simpl.
  - exact Hacc.
  - apply IH. apply dict_set_loaded; [reflexivity | reflexivity | exact Hacc].
Qed.

Lemma firstn_firstn_app {A} n (l r : list A) :
  firstn n (firstn n l ++ r) = firstn n (l ++ r).
Proof.
  revert l. induction n as [|n IH]; intros l; [reflexivity|].
  destruct l as [|x l]; simpl; [reflexivity|]. f_equal. apply IH.
Qed.

Lemma firstn_exact {A} n (l r : list A) :
  length l = n -> firstn n (l ++ r) = l.
Proof.
  intros <-. rewrite firstn_app, Nat.sub_diag, firstn_all. simpl.
  apply app_nil_r.
Qed.

Lemma suggested_false ms k :
  (forall m, In m ms -> Pokemon.dex (Match.data m) <> k) ->
  suggested ms k = false.
Proof.
  intros H. unfold suggested. apply not_true_is_false. intros Hex.
  apply existsb_exists in Hex as (m & Hin & Heq).
  apply Z.eqb_eq in Heq. exact (H m Hin Heq).
Qed.

(** On a table keyed by dex number, a pass skips nothing that the quest
    takes: it appends the whole block of the tier, up to the limit. *)
Lemma pass_exact accepts limit priority items ms :
  NoDup (List.map fst items) ->
  Forall (fun item => Pokemon.dex (snd item) = fst item) items ->
  (forall m item, In m ms -> In item items -> accepts priority item = true ->
                  Pokemon.dex (Match.data m) <> fst item) ->
  (length ms <= Z.to_nat limit)%nat ->
  for_each (full limit) (take_if accepts priority) items ms =
  firstn (Z.to_nat limit) (ms ++ tier_block accepts items priority).
Proof.
  unfold tier_block.
  revert ms. induction items as [|item items IH]; intros ms Hnodup Hkey Hfresh Hlen.
  - simpl. rewrite app_nil_r. symmetry. apply firstn_all2. exact Hlen.
  - cbn [for_each]. destruct (full limit ms) eqn:Hfull.
    + apply full_spec in Hfull. symmetry. apply firstn_exact. lia.
    + apply full_false in Hfull.
      simpl in Hnodup. apply List.NoDup_cons_iff in Hnodup as [Hnotin Hnodup'].
      apply List.Forall_cons_iff in Hkey as [Hitem Hkey'].
      unfold take_if at 2. cbn [List.filter].
      destruct (accepts priority item) eqn:Hacc.
      * rewrite suggested_false
          by (intros m Hm; apply (Hfresh m item Hm); [left; reflexivity | exact Hacc]).
        rewrite IH; try assumption.
        -- cbn [List.map]. rewrite <- app_assoc. reflexivity.
        -- intros m item' Hm Hin' Hacc'. apply in_app_iff in Hm as [Hm | [<- | []]].
           ++ apply (Hfresh m item' Hm); [right; exact Hin' | exact Hacc'].
           ++ unfold annotate. cbn [Match.data]. rewrite Hitem. intros Heq.
              apply Hnotin. rewrite Heq. apply in_map. exact Hin'.
        -- rewrite length_app. simpl. lia.
      * assert (Hsame : (if suggested ms (fst item) then ms else ms) = ms)
          by (destruct (suggested ms (fst item)); reflexivity).
        rewrite Hsame. apply IH; try assumption.
        intros m item' Hm Hin'. apply (Hfresh m item' Hm). right. exact Hin'.
Qed.

(** The same for the passes of a list of tiers. *)
Lemma passes_exact self accepts limit priorities ms :
  NoDup priorities ->
  NoDup (List.map fst (pokemon_data self)) ->
  Forall (fun item => Pokemon.dex (snd item) = fst item) (pokemon_data self) ->
  (forall p item, accepts p item = true -> spawn_rates self !! fst item = Some p) ->
  (forall m p item, In m ms -> In p priorities -> In item (pokemon_data self) ->
                    accepts p item = true ->
                    Pokemon.dex (Match.data m) <> fst item) ->
  (length ms <= Z.to_nat limit)%nat ->
  for_each (full limit)
    (fun priority matches =>
       for_each (full limit) (take_if accepts priority) (pokemon_data self) matches)
    priorities ms =
  firstn (Z.to_nat limit)
    (ms ++ flat_map (tier_block accepts (pokemon_data self)) priorities).
Proof.
  intros Hps Hnodup Hkey Hrate. revert ms.
  induction priorities as [|p ps IH]; intros ms Hfresh Hlen.
  - simpl. rewrite app_nil_r. symmetry. apply firstn_all2. exact Hlen.
  - cbn [for_each flat_map]. destruct (full limit ms) eqn:Hfull.
    + apply full_spec in Hfull. symmetry. apply firstn_exact. lia.
    + apply List.NoDup_cons_iff in Hps as [Hp Hps'].
      rewrite pass_exact; try assumption.
      * rewrite IH; try assumption.
        -- rewrite firstn_firstn_app, <- app_assoc. reflexivity.
        -- intros m p' item Hm Hp' Hin Hacc.
           assert (Hm' : In m (ms ++ tier_block accepts (pokemon_data self) p)).
           { apply list_elem_of_In. apply list_elem_of_In in Hm.
             eapply elem_of_sublist; [exact Hm | apply sublist_take]. }
           apply in_app_iff in Hm' as [Hm' | Hm'].
           ++ apply (Hfresh m p' item Hm'); [right; assumption | assumption | assumption].
           ++ unfold tier_block in Hm'. apply in_map_iff in Hm' as (item0 & <- & Hin0).
              apply filter_In in Hin0 as [Hin0 Hacc0].
              rewrite Forall_forall in Hkey. unfold annotate. cbn [Match.data].
              rewrite (Hkey item0 Hin0). intros Heq.
              apply Hrate in Hacc. apply Hrate in Hacc0. rewrite Heq in Hacc0.
              rewrite Hacc in Hacc0. injection Hacc0 as ->. contradiction.
        -- rewrite length_take. lia.
      * intros m item Hm Hin Hacc.
        apply (Hfresh m p item Hm); [left; reflexivity | assumption | assumption].
Qed.

Lemma spawn_priorities_nodup : NoDup spawn_priorities.
Proof.
  unfold spawn_priorities.
  repeat constructor; simpl; intros H;
    repeat (destruct H as [H | H]; [discriminate H|]); exact H.
Qed.

(** On a loaded table the result is the blocks of the three tiers in turn,
    cut at the limit. *)
Lemma find_matching_exact self quest_info limit :
  loaded (pokemon_data self) ->
  QuestInfo.type quest_info = Gender \/ QuestInfo.type quest_info = TypeRegion ->
  find_matching_pokemon self quest_info limit =
  firstn (Z.to_nat limit)
    (flat_map (tier_block (quest_accepts self quest_info) (pokemon_data self))
       spawn_priorities).
Proof.
  intros [Hnodup Hall] Ht. rewrite (find_matching_scan _ _ _ Ht).
  unfold scan. rewrite passes_exact; simpl; try tauto; try lia.
  - apply spawn_priorities_nodup.
  - eapply Forall_impl; [|exact Hall]. simpl. tauto.
  - intros p item Hacc. apply (quest_accepts_inv _ _ _ _ Hacc).
Qed.

End LoadedFacts.

(** ** Suggestions by category and constraint *)

(** Both constraints null on the example: nothing is suggested, although
    two species are eligible in the first tier. *)
Lemma find_matching_unconstrained_example :
  find_matching_pokemon (U := Latin1.db) example_cog
    (type_region_quest None None) 2 = [] /\
  firstn 2
    (flat_map
       (tier_block (tier_eligible (U := Latin1.db) example_cog)
          (pokemon_data example_cog))
       spawn_priorities) =
  [ {| Match.data :=
         {| Pokemon.name := lit "Charizard"; Pokemon.type1 := lit "Fire";
            Pokemon.type2 := Some (lit "Flying"); Pokemon.dex := 6;
            Pokemon.region := lit "Kanto" |};
       Match.spawn_rate := lit "1/225" |};
    {| Match.data :=
         {| Pokemon.name := lit "Cyndaquil"; Pokemon.type1 := lit "Fire";
            Pokemon.type2 := None; Pokemon.dex := 155;
            Pokemon.region := lit "Johto" |};
       Match.spawn_rate := lit "1/225" |} ].
Proof. split; vm_compute; reflexivity. Qed.

(** C2, as the code has it: for a type/region descriptor with neither a
    region nor a type constraint (each null or empty), no branch of the
    acceptance test appends, and the result is the empty list. *)
Theorem find_matching_unconstrained (U : UnicodeDB) (self : Cog)
    (quest_info : QuestInfo.t) (limit : Z) :
  QuestInfo.type quest_info = TypeRegion ->
  truthy (QuestInfo.region quest_info) = false ->
  truthy (QuestInfo.pokemon_type quest_info) = false ->
  find_matching_pokemon self quest_info limit = [].
Proof.
  intros Ht Hr Hp.
  destruct (find_matching_blocks self quest_info limit)
    as (t1 & t2 & t3 & _ & _ & _ & Ha1 & Ha2 & Ha3 & _ & ->).
  assert (Hnone : forall p item, quest_accepts self quest_info p item = false).
  { intros p item. unfold quest_accepts, accepts_type_region, meets_constraints.
    rewrite Ht.
    destruct (QuestInfo.region quest_info) as [[|? ?]|]; try discriminate;
      destruct (QuestInfo.pokemon_type quest_info) as [[|? ?]|]; try discriminate;
      apply andb_false_r. }
  assert (Hnil : forall p taken,
            Forall (fun item => quest_accepts self quest_info p item = true) taken ->
            taken = []).
  { intros p [|item taken] Hall; [reflexivity|].
    apply List.Forall_cons_iff in Hall as [Hitem _].
    rewrite Hnone in Hitem. discriminate. }
  rewrite (Hnil _ _ Ha1), (Hnil _ _ Ha2), (Hnil _ _ Ha3). reflexivity.
Qed.

(** With both constraints null, on the example tables. *)
Lemma find_matching_unconstrained_witness :
  find_matching_pokemon (U := Latin1.db) example_cog
    (type_region_quest None None) 2 = [].
Proof.
  apply (find_matching_unconstrained Latin1.db example_cog
           (type_region_quest None None) 2); reflexivity.
Defined.

Section ConstraintFacts.
Context {U : UnicodeDB}.

Lemma type_matches_inv t data :
  type_matches t data = true ->
  Pokemon.type1 data = t \/ Pokemon.type2 data = Some t.
Proof.
  unfold type_matches, opt_eqb. intros H. apply orb_true_iff in H as [H | H].
  - left. apply str_eqb_eq. exact H.
  - right. apply bool_decide_eq_true in H. exact H.
Qed.

(** What a quest with both constraints takes, the quest without the
    region constraint takes too. *)
Lemma accepts_without_region self quest_info r t priority item :
  QuestInfo.type quest_info = TypeRegion ->
  QuestInfo.region quest_info = Some r -> r <> [] ->
  QuestInfo.pokemon_type quest_info = Some t -> t <> [] ->
  quest_accepts self quest_info priority item = true ->
  Pokemon.region (snd item) = r /\
  (Pokemon.type1 (snd item) = t \/ Pokemon.type2 (snd item) = Some t) /\
  quest_accepts self (without_region quest_info) priority item = true.
Proof.
  intros Ht Hr Hrne Hp Htne.
  unfold quest_accepts, without_region, accepts_type_region, meets_constraints.
  cbn [QuestInfo.type QuestInfo.region QuestInfo.pokemon_type].
  rewrite Ht, Hr, Hp.
  destruct r as [|c r]; [congruence|]. destruct t as [|c' t]; [congruence|].
  intros H. apply andb_true_iff in H as [H Hboth].
  apply andb_true_iff in Hboth as [Hregion Htype].
  split; [apply str_eqb_eq; exact Hregion|].
  split; [apply type_matches_inv; exact Htype|].
  rewrite H, Htype. reflexivity.
Qed.

End ConstraintFacts.

(** On the example, for Fire in Johto with limit 1: Cyndaquil is
    suggested, and for Fire alone the one suggestion is Charizard. *)
Lemma find_matching_relaxed_not_superset :
  exists m,
    In m (find_matching_pokemon (U := Latin1.db) example_cog
            (type_region_quest (Some (lit "Johto")) (Some (lit "Fire"))) 1) /\
    ~ In m (find_matching_pokemon (U := Latin1.db) example_cog
              (without_region
                 (type_region_quest (Some (lit "Johto")) (Some (lit "Fire")))) 1).
Proof.
  eexists. split.
  - vm_compute. left. reflexivity.
  - vm_compute. intros [H | []]. discriminate H.
Qed.

(** C3, as the code has it: with a region and a type constraint set, each
    suggested species has the target region and has the target type as
    [type1] or [type2]; on tables as [load_data] builds them the region is
    the one of its dex number, and the suggestions for the same descriptor
    without the region constraint include them all whenever those are fewer
    than [limit], that is, whenever the limit has cut nothing off. *)
Theorem find_matching_both_constraints (U : UnicodeDB) (self : Cog)
    (quest_info : QuestInfo.t) (limit : Z) (r t : pystr) :
  QuestInfo.type quest_info = TypeRegion ->
  QuestInfo.region quest_info = Some r -> r <> [] ->
  QuestInfo.pokemon_type quest_info = Some t -> t <> [] ->
  (forall m, In m (find_matching_pokemon self quest_info limit) ->
     Pokemon.region (Match.data m) = r /\
     (Pokemon.type1 (Match.data m) = t \/ Pokemon.type2 (Match.data m) = Some t)) /\
  (loaded (pokemon_data self) ->
   (forall m, In m (find_matching_pokemon self quest_info limit) ->
      get_region (Pokemon.dex (Match.data m)) = r) /\
   ((length (find_matching_pokemon self (without_region quest_info) limit)
     < Z.to_nat limit)%nat ->
    forall m, In m (find_matching_pokemon self quest_info limit) ->
              In m (find_matching_pokemon self (without_region quest_info) limit))).
Proof.
  intros Ht Hr Hrne Hp Htne.
  assert (Helem : forall m,
            In m (find_matching_pokemon self quest_info limit) ->
            exists priority item,
              In priority spawn_priorities /\ In item (pokemon_data self) /\
              m = annotate priority item /\
              Pokemon.region (snd item) = r /\
              (Pokemon.type1 (snd item) = t \/ Pokemon.type2 (snd item) = Some t) /\
              quest_accepts self (without_region quest_info) priority item = true).
  { intros m Hm.
    apply find_matching_elements in Hm as (p & item & Hp' & Hin & Hacc & ->).
    exists p, item. repeat split; try assumption;
      apply (accepts_without_region self quest_info r t p item); assumption. }
  split; [|intros Hloaded; split].
  - intros m Hm. destruct (Helem m Hm) as (p & item & _ & _ & -> & Hreg & Hty & _).
    split; assumption.
  - intros m Hm. destruct (Helem m Hm) as (p & item & _ & Hin & -> & Hreg & _).
    destruct Hloaded as [_ Hall]. rewrite Forall_forall in Hall.
    destruct (Hall item Hin) as [Hdex Hregion].
    cbn [annotate Match.data]. rewrite Hdex, <- Hregion. exact Hreg.
  - intros Hshort m Hm.
    destruct (Helem m Hm) as (p & item & Hp' & Hin & -> & _ & _ & Hacc).
    assert (Ht' : QuestInfo.type (without_region quest_info) = Gender
                  \/ QuestInfo.type (without_region quest_info) = TypeRegion)
      by (right; exact Ht).
    rewrite (find_matching_exact self _ limit Hloaded Ht') in Hshort |- *.
    rewrite firstn_all2.
    + apply in_flat_map. exists p. split; [exact Hp'|].
      unfold tier_block. apply in_map. apply filter_In. split; assumption.
    + rewrite length_take in Hshort. lia.
Qed.

Lemma example_cog_loaded : loaded (pokemon_data example_cog).
Proof.
  unfold example_cog, load_data. cbn [pokemon_data].
  apply load_pokemon_data_loaded.
Qed.

(** Fire in Johto on the example, with room for one more suggestion. *)
Lemma find_matching_both_constraints_witness :
  get_region 155 = lit "Johto" /\
  In cyndaquil
    (find_matching_pokemon (U := Latin1.db) example_cog
       (without_region
          (type_region_quest (Some (lit "Johto")) (Some (lit "Fire")))) 5).
Proof.
  pose proof (find_matching_both_constraints Latin1.db example_cog
                (type_region_quest (Some (lit "Johto")) (Some (lit "Fire"))) 5
                (lit "Johto") (lit "Fire")
                eq_refl eq_refl ltac:(discriminate) eq_refl ltac:(discriminate))
    as [_ Hloaded].
  specialize (Hloaded example_cog_loaded) as [Hregion Hsuper].
  assert (Hin : In cyndaquil
                  (find_matching_pokemon (U := Latin1.db) example_cog
                     (type_region_quest (Some (lit "Johto")) (Some (lit "Fire")))
                     5))
    by (vm_compute; left; reflexivity).
  assert (Hshort :
            (length
               (find_matching_pokemon (U := Latin1.db) example_cog
                  (without_region
                     (type_region_quest (Some (lit "Johto")) (Some (lit "Fire"))))
                  5)
             < Z.to_nat 5)%nat)
    by (vm_compute; lia).
  split.
  - exact (Hregion cyndaquil Hin).
  - exact (Hsuper Hshort cyndaquil Hin).
Defined.

(** C6: the result has at most [limit] entries (none for a limit below
    one); each entry comes from an item of the table whose key has an entry
    in [spawn_rates], that entry is one of the three tier labels, and it is
    the one the entry is annotated with. On tables as [load_data] builds
    them, a species whose key has no tier of the list (no entry at all, or
    another label) is not in the result. *)
Theorem find_matching_limit_and_tiers (U : UnicodeDB) (self : Cog)
    (quest_info : QuestInfo.t) (limit : Z) :
  Z.of_nat (length (find_matching_pokemon self quest_info limit)) <= Z.max 0 limit /\
  (forall m, In m (find_matching_pokemon self quest_info limit) ->
     In (Match.spawn_rate m) spawn_priorities /\
     exists item,
       In item (pokemon_data self) /\ Match.data m = snd item /\
       spawn_rates self !! fst item = Some (Match.spawn_rate m)) /\
  (loaded (pokemon_data self) ->
   forall item,
     In item (pokemon_data self) ->
     (forall rate, spawn_rates self !! fst item = Some rate ->
                   ~ In rate spawn_priorities) ->
     forall m, In m (find_matching_pokemon self quest_info limit) ->
               Pokemon.dex (Match.data m) <> fst item).
Proof.
  assert (Helem : forall m,
            In m (find_matching_pokemon self quest_info limit) ->
            In (Match.spawn_rate m) spawn_priorities /\
            exists item,
              In item (pokemon_data self) /\ Match.data m = snd item /\
              spawn_rates self !! fst item = Some (Match.spawn_rate m)).
  { intros m Hm.
    apply find_matching_elements in Hm as (p & item & Hp & Hin & Hacc & ->).
    apply quest_accepts_inv in Hacc as [_ Hrate].
    split; [exact Hp|]. exists item. auto. }
  split; [|split].
  - destruct (find_matching_blocks self quest_info limit)
      as (t1 & t2 & t3 & _ & _ & _ & _ & _ & _ & Hlen & ->).
    rewrite !length_app in *. rewrite !length_map. lia.
  - exact Helem.
  - intros [_ Hall] item Hin Hout m Hm.
    destruct (Helem m Hm) as (Hp & item' & Hin' & Hdata & Hrate).
    rewrite Forall_forall in Hall. destruct (Hall item' Hin') as [Hdex _].
    rewrite Hdata, Hdex. intros Heq. rewrite Heq in Hrate.
    exact (Hout _ Hrate Hp).
Qed.

(** A Kanto quest on the example: Squirtle, which has no spawn rate, and
    Mewtwo, whose label is no tier of the list, are not suggested. *)
Lemma find_matching_limit_and_tiers_witness :
  forallb
    (fun m => negb (Pokemon.dex (Match.data m) =? 7)
              && negb (Pokemon.dex (Match.data m) =? 150))
    (find_matching_pokemon (U := Latin1.db) example_cog
       (type_region_quest (Some (lit "Kanto")) None) 5) = true.
Proof.
  pose proof (find_matching_limit_and_tiers Latin1.db example_cog
                (type_region_quest (Some (lit "Kanto")) None) 5)
    as (_ & _ & Hout).
  specialize (Hout example_cog_loaded).
  pose proof (Hout (7, snd (row_item 7)) ltac:(vm_compute; tauto)
                ltac:(vm_compute; discriminate)) as Hsquirtle.
  pose proof (Hout (150, snd (row_item 150)) ltac:(vm_compute; tauto)
                ltac:(vm_compute; intros rate [= <-]; intuition discriminate))
    as Hmewtwo.
  apply forallb_forall. intros m Hm. apply andb_true_iff.
  split; apply negb_true_iff, Z.eqb_neq; [apply Hsquirtle | apply Hmewtwo]; exact Hm.
Defined.

(** C7: the result is the entries of tier 1/225, then those of tier 1/337,
    then those of tier 1/674; the entries of a tier are items of the table
    in the order of the table (what is left of the table when items are
    struck out), each annotated with the tier. The order is neither by dex
    number nor by name: on the example a Fire quest gives Charizard (6),
    Cyndaquil (155), Charmeleon (5). *)
Theorem find_matching_order :
  (forall (U : UnicodeDB) (self : Cog) (quest_info : QuestInfo.t) (limit : Z),
     exists taken1 taken2 taken3,
       sublist taken1 (pokemon_data self) /\
       sublist taken2 (pokemon_data self) /\
       sublist taken3 (pokemon_data self) /\
       find_matching_pokemon self quest_info limit =
       List.map (fun item => Match.mk (snd item) (lit "1/225")) taken1
       ++ List.map (fun item => Match.mk (snd item) (lit "1/337")) taken2
       ++ List.map (fun item => Match.mk (snd item) (lit "1/674")) taken3) /\
  (let suggestions :=
     find_matching_pokemon (U := Latin1.db) example_cog
       (type_region_quest None (Some (lit "Fire"))) 3 in
   List.map (fun m => Pokemon.dex (Match.data m)) suggestions = [6; 155; 5] /\
   List.map (fun m => Pokemon.name (Match.data m)) suggestions =
     [lit "Charizard"; lit "Cyndaquil"; lit "Charmeleon"] /\
   List.map Match.spawn_rate suggestions =
     [lit "1/225"; lit "1/225"; lit "1/337"] /\
   List.map fst (pokemon_data example_cog) = [1; 4; 5; 6; 7; 150; 155; 10091] /\
   sorted_by Z.leb (List.map (fun m => Pokemon.dex (Match.data m)) suggestions)
     = false /\
   sorted_by str_leb (List.map (fun m => Pokemon.name (Match.data m)) suggestions)
     = false).
Proof.
  split.
  - intros U self quest_info limit.
    destruct (find_matching_blocks self quest_info limit)
      as (t1 & t2 & t3 & Hs1 & Hs2 & Hs3 & _ & _ & _ & _ & Heq).
    exists t1, t2, t3. repeat split; try assumption.
  - cbv zeta. repeat split; vm_compute; reflexivity.
Qed.

(** C8: whatever the category of the quest and the tier, no suggested
    species has a name that [is_regional_variant] accepts: its name in lower
    case contains none of the four prefixes. *)
Theorem find_matching_no_regional_variant (U : UnicodeDB) (self : Cog)
    (quest_info : QuestInfo.t) (limit : Z) :
  Forall
    (fun m =>
       is_regional_variant (Pokemon.name (Match.data m)) = false /\
       Forall
         (fun prefix => contains prefix (str_lower (Pokemon.name (Match.data m))) = false)
         [lit "alolan"; lit "galarian"; lit "hisuian"; lit "paldean"])
    (find_matching_pokemon self quest_info limit).
Proof.
  apply Forall_forall. intros m Hm.
  apply find_matching_elements in Hm as (p & item & _ & _ & Hacc & ->).
  apply quest_accepts_inv in Hacc as [Hvariant _].
  cbn [annotate Match.data]. split; [exact Hvariant|].
  unfold is_regional_variant, regional_prefixes in Hvariant.
  cbn [existsb] in Hvariant.
  repeat (apply orb_false_iff in Hvariant as [? Hvariant]).
  repeat constructor; assumption.
Qed.

(* ===================================================================== *)
(** * Further properties *)
(* ===================================================================== *)

(** ** The table built by [load_data] *)

Section LoadFacts.
Context {U : UnicodeDB}.

(** The loop of [load_data] from a table that is already there. *)
Lemma load_pokemon_data_step rows acc :
  fold_left
    (fun pokemon_data row =>
       let dex := row_Dex row in
       dict_set dex
         {| Pokemon.name := row_Name row;
            Pokemon.type1 := row_Type_1 row;
            Pokemon.type2 :=
              match strip (row_Type_2 row) with
              | [] => None
              | _ :: _ => Some (strip (row_Type_2 row))
              end;
            Pokemon.dex := dex;
            Pokemon.region := get_region dex |}
         pokemon_data)
    rows acc =
  fold_left (fun d row => dict_set (row_Dex row) (row_pokemon row) d) rows acc.
Proof. reflexivity. Qed.

Lemma dict_get_set_eq {V} k (v : V) d : dict_get k (dict_set k v d) = Some v.
Proof.
  unfold dict_get. induction d as [|[k0 v0] d IH]; simpl.
  - rewrite Z.eqb_refl. reflexivity.
  - destruct (Z.eqb_spec k0 k) as [-> | Hne]; simpl.
    + rewrite Z.eqb_refl. reflexivity.
    + destruct (Z.eqb_spec k0 k); [contradiction | exact IH].
Qed.

Lemma dict_get_set_ne {V} k k' (v : V) d :
  k <> k' -> dict_get k (dict_set k' v d) = dict_get k d.
Proof.
  intros Hne. unfold dict_get. induction d as [|[k0 v0] d IH]; simpl.
  - destruct (Z.eqb_spec k' k); [congruence | reflexivity].
  - destruct (Z.eqb_spec k0 k') as [-> | Hne0]; simpl.
    + destruct (Z.eqb_spec k' k); [congruence | reflexivity].
    + destruct (Z.eqb_spec k0 k); [reflexivity | exact IH].
Qed.

(** A key that is new goes to the end. *)
Lemma dict_set_fresh {V} k (v : V) d :
  ~ In k (List.map fst d) ->
  List.map fst (dict_set k v d) = List.map fst d ++ [k].
Proof.
  induction d as [|[k0 v0] d IH]; simpl; intros Hnew; [reflexivity|].
  destruct (Z.eqb_spec k0 k) as [-> | Hne]; [tauto|].
  simpl. rewrite IH; [reflexivity | tauto].
Qed.

Lemma load_keys rows acc k :
  In k (List.map fst
          (fold_left (fun d row => dict_set (row_Dex row) (row_pokemon row) d)
             rows acc)) <->
  In k (List.map fst acc) \/ In k (List.map row_Dex rows).
Proof.
  revert acc. induction rows as [|row rows IH]; intros acc; simpl.
  - tauto.
  - rewrite IH, dict_set_keys. intuition.
Qed.

Lemma load_get_later rows acc k :
  ~ In k (List.map row_Dex rows) ->
  dict_get k
    (fold_left (fun d row => dict_set (row_Dex row) (row_pokemon row) d) rows acc)
  = dict_get k acc.
Proof.
  revert acc. induction rows as [|row rows IH]; intros acc Hnot; simpl.
  - reflexivity.
  - simpl in Hnot. rewrite IH by tauto.
    apply dict_get_set_ne. intros ->. tauto.
Qed.

Lemma load_order rows acc :
  NoDup (List.map fst acc ++ List.map row_Dex rows) ->
  List.map fst
    (fold_left (fun d row => dict_set (row_Dex row) (row_pokemon row) d) rows acc)
  = List.map fst acc ++ List.map row_Dex rows.
Proof.
  revert acc. induction rows as [|row rows IH]; intros acc Hnodup; simpl.
  - symmetry. apply app_nil_r.
  - simpl in Hnodup.
    assert (Hnew : ~ In (row_Dex row) (List.map fst acc)).
    { apply List.NoDup_remove_2 in Hnodup. rewrite in_app_iff in Hnodup. tauto. }
    rewrite IH; rewrite (dict_set_fresh _ _ _ Hnew).
    + rewrite <- app_assoc. reflexivity.
    + rewrite <- app_assoc. exact Hnodup.
Qed.

End LoadFacts.

(** X1: the table that [load_data] builds from the rows of
    [pokemondata.csv] has no key twice, and each value carries its key as
    [dex] and the region of that number; its keys are the dex numbers of the
    rows; looking up the dex number of a row gives the value of that row when
    no later row has the same number (the last row wins); and when no number
    occurs twice the table is in the order of the rows. *)
Theorem load_data_pokemon_table (U : UnicodeDB) (rows : list pokemon_row) :
  loaded (load_pokemon_data rows) /\
  (forall k, In k (List.map fst (load_pokemon_data rows)) <->
             In k (List.map row_Dex rows)) /\
  (forall rows1 row rows2,
     rows = rows1 ++ row :: rows2 ->
     ~ In (row_Dex row) (List.map row_Dex rows2) ->
     dict_get (row_Dex row) (load_pokemon_data rows) = Some (row_pokemon row)) /\
  (NoDup (List.map row_Dex rows) ->
   List.map fst (load_pokemon_data rows) = List.map row_Dex rows).
Proof.
  split; [apply load_pokemon_data_loaded|].
  unfold load_pokemon_data. rewrite load_pokemon_data_step.
  split; [|split].
  - intros k. rewrite load_keys. simpl. tauto.
  - intros rows1 row rows2 -> Hlast.
    rewrite fold_left_app. simpl. rewrite load_get_later by exact Hlast.
    apply dict_get_set_eq.
  - intros Hnodup. rewrite load_order; [reflexivity | exact Hnodup].
Qed.

(** Two rows for dex 25: the second is the one found. *)
Lemma load_data_pokemon_table_witness :
  dict_get 25
    (load_pokemon_data (U := Latin1.db)
       [row 25 "Pikachu" "Electric" ""; row 26 "Raichu" "Electric" "";
        row 25 "Pikachu" "Electric" "Fairy"]) =
  Some (row_pokemon (U := Latin1.db) (row 25 "Pikachu" "Electric" "Fairy")).
Proof.
  apply (proj1 (proj2 (proj2
           (load_data_pokemon_table Latin1.db
              [row 25 "Pikachu" "Electric" ""; row 26 "Raichu" "Electric" "";
               row 25 "Pikachu" "Electric" "Fairy"])))
           [row 25 "Pikachu" "Electric" ""; row 26 "Raichu" "Electric" ""]
           (row 25 "Pikachu" "Electric" "Fairy") []).
  - reflexivity.
  - simpl. tauto.
Defined.

(** ** More on [find_matching_pokemon] *)

Section MoreFindFacts.
Context {U : UnicodeDB}.

(** A property that each turn of a loop keeps holds when the loop ends. *)
Lemma for_each_invariant {A S} (P : S -> Prop) (stop : S -> bool)
    (body : A -> S -> S) (l : list A) (st : S) :
  P st ->
  (forall x s, In x l -> stop s = false -> P s -> P (body x s)) ->
  P (for_each stop body l st).
Proof.
  revert st. induction l as [|x l IH]; intros st Hst Hbody; simpl.
  - exact Hst.
  - destruct (stop st) eqn:Hstop; [exact Hst|].
    apply IH.
    + apply Hbody; [left; reflexivity | exact Hstop | exact Hst].
    + intros y s Hy. apply Hbody. right. exact Hy.
Qed.

Lemma suggested_false_inv ms k m :
  suggested ms k = false -> In m ms -> Pokemon.dex (Match.data m) <> k.
Proof.
  unfold suggested. intros Hnone Hin Heq.
  assert (Hex : existsb (fun m => Pokemon.dex (Match.data m) =? k) ms = true).
  { apply existsb_exists. exists m. split; [exact Hin | apply Z.eqb_eq, Heq]. }
  congruence.
Qed.

Lemma NoDup_snoc {A} (l : list A) (x : A) :
  NoDup l -> ~ In x l -> NoDup (l ++ [x]).
Proof.
  induction l as [|y l IH]; simpl; intros Hl Hx.
  - repeat constructor. simpl. tauto.
  - apply List.NoDup_cons_iff in Hl as [Hy Hl].
    apply List.NoDup_cons_iff. split.
    + rewrite in_app_iff. simpl. intuition congruence.
    + apply IH; tauto.
Qed.

(** What a gender quest takes is in the set of its gender. *)
Lemma quest_accepts_gender_inv self quest_info priority item :
  QuestInfo.type quest_info = Gender ->
  quest_accepts self quest_info priority item = true ->
  exists g names,
    QuestInfo.gender quest_info = Some g /\
    gender_data self !! g = Some names /\
    Pokemon.name (snd item) ∈ names.
Proof.
  unfold quest_accepts, accepts_gender, gender_pokemon_of. intros ->.
  intros H. apply andb_true_iff in H as [H _]. apply andb_true_iff in H as [_ H].
  apply bool_decide_eq_true in H.
  destruct (QuestInfo.gender quest_info) as [g|]; [|set_solver].
  destruct (gender_data self !! g) as [names|] eqn:Hg; [|set_solver].
  exists g, names. auto.
Qed.

(** The test of the [if]/[elif] chain, written with the two flags that
    [find_matching_pokemon] computes. *)
Lemma meets_constraints_flags quest_info data :
  meets_constraints quest_info data =
  (truthy (QuestInfo.region quest_info) || truthy (QuestInfo.pokemon_type quest_info))
  && (negb (truthy (QuestInfo.region quest_info))
      || str_eqb_opt (Pokemon.region data) (QuestInfo.region quest_info))
  && (negb (truthy (QuestInfo.pokemon_type quest_info))
      || (str_eqb_opt (Pokemon.type1 data) (QuestInfo.pokemon_type quest_info)
          || opt_eqb (Pokemon.type2 data) (QuestInfo.pokemon_type quest_info))).
Proof.
  unfold meets_constraints, region_matches, type_matches.
  destruct (QuestInfo.region quest_info) as [[|c r]|];
    destruct (QuestInfo.pokemon_type quest_info) as [[|c' t]|];
    cbn [truthy negb orb andb str_eqb_opt];
    rewrite ?andb_true_r; reflexivity.
Qed.

End MoreFindFacts.

(** X2: for a gender quest each suggested species has its name in the set
    that [gender_data] holds for the gender of the quest; when the quest has
    no gender, or [gender_data] has no set for it, nothing is suggested. *)
Theorem find_matching_gender_members (U : UnicodeDB) (self : Cog)
    (quest_info : QuestInfo.t) (limit : Z) :
  QuestInfo.type quest_info = Gender ->
  (forall m, In m (find_matching_pokemon self quest_info limit) ->
     exists g names,
       QuestInfo.gender quest_info = Some g /\
       gender_data self !! g = Some names /\
       Pokemon.name (Match.data m) ∈ names) /\
  (QuestInfo.gender quest_info = None
   \/ (exists g, QuestInfo.gender quest_info = Some g /\
                 gender_data self !! g = None) ->
   find_matching_pokemon self quest_info limit = []).
Proof.
  intros Ht.
  assert (Hmem : forall m, In m (find_matching_pokemon self quest_info limit) ->
            exists g names,
              QuestInfo.gender quest_info = Some g /\
              gender_data self !! g = Some names /\
              Pokemon.name (Match.data m) ∈ names).
  { intros m Hm.
    apply find_matching_elements in Hm as (p & item & _ & _ & Hacc & ->).
    exact (quest_accepts_gender_inv self quest_info p item Ht Hacc). }
  split; [exact Hmem|].
  intros Hmissing.
  destruct (find_matching_pokemon self quest_info limit) as [|m ms]; [reflexivity|].
  destruct (Hmem m (or_introl eq_refl)) as (g & names & Hg & Hnames & _).
  destruct Hmissing as [Hnone | (g' & Hg' & Hnone)]; congruence.
Qed.

(** A gender quest with a gender that the example has no set for. *)
Lemma find_matching_gender_members_witness :
  find_matching_pokemon (U := Latin1.db) example_cog
    {| QuestInfo.text := []; QuestInfo.type := Gender;
       QuestInfo.region := None; QuestInfo.pokemon_type := None;
       QuestInfo.count := 0; QuestInfo.gender := Some (lit "shiny") |} 3 = [].
Proof.
  apply (proj2 (find_matching_gender_members Latin1.db example_cog
                  {| QuestInfo.text := []; QuestInfo.type := Gender;
                     QuestInfo.region := None; QuestInfo.pokemon_type := None;
                     QuestInfo.count := 0; QuestInfo.gender := Some (lit "shiny") |}
                  3 eq_refl)).
  right. exists (lit "shiny"). split; [reflexivity | vm_compute; reflexivity].
Defined.

(** X3: for a type/region quest each suggested species meets every
    constraint that is set: its region is the region of the quest when the
    quest has one, and its [type1] or [type2] is the type of the quest when
    the quest has one; and a quest that suggests anything has at least one
    of the two. *)
Theorem find_matching_constraints_met (U : UnicodeDB) (self : Cog)
    (quest_info : QuestInfo.t) (limit : Z) :
  QuestInfo.type quest_info = TypeRegion ->
  forall m, In m (find_matching_pokemon self quest_info limit) ->
    (forall r, QuestInfo.region quest_info = Some r -> r <> [] ->
               Pokemon.region (Match.data m) = r) /\
    (forall t, QuestInfo.pokemon_type quest_info = Some t -> t <> [] ->
               Pokemon.type1 (Match.data m) = t
               \/ Pokemon.type2 (Match.data m) = Some t) /\
    truthy (QuestInfo.region quest_info)
    || truthy (QuestInfo.pokemon_type quest_info) = true.
Proof.
  intros Ht m Hm.
  apply find_matching_elements in Hm as (p & item & _ & _ & Hacc & ->).
  unfold quest_accepts, accepts_type_region in Hacc. rewrite Ht in Hacc.
  apply andb_true_iff in Hacc as [_ Hacc].
  unfold meets_constraints, region_matches in Hacc.
  cbn [annotate Match.data].
  destruct (QuestInfo.region quest_info) as [[|c r]|];
    destruct (QuestInfo.pokemon_type quest_info) as [[|c' t]|];
    try discriminate; cbn [truthy orb];
    repeat match goal with
           | H : _ && _ = true |- _ => apply andb_true_iff in H as [? ?]
           | H : str_eqb _ _ = true |- _ => apply str_eqb_eq in H
           | H : type_matches _ _ = true |- _ => apply type_matches_inv in H
           end;
    (split; [|split; [|reflexivity]]); intros x Hx Hne;
    try discriminate; try congruence;
    injection Hx as <-; assumption.
Qed.

(** A Kanto quest on the example: the first suggestion is from Kanto. *)
Lemma find_matching_constraints_met_witness :
  Pokemon.region
    (Match.data
       {| Match.data :=
            {| Pokemon.name := lit "Charizard"; Pokemon.type1 := lit "Fire";
               Pokemon.type2 := Some (lit "Flying"); Pokemon.dex := 6;
               Pokemon.region := lit "Kanto" |};
          Match.spawn_rate := lit "1/225" |}) = lit "Kanto".
Proof.
  apply (proj1 (find_matching_constraints_met Latin1.db example_cog
                  (type_region_quest (Some (lit "Kanto")) None) 5 eq_refl _
                  ltac:(vm_compute; left; reflexivity))
           (lit "Kanto")).
  - reflexivity.
  - discriminate.
Defined.

(** X4: when each value of the table carries its key as [dex], the check
    against the species already suggested keeps the dex numbers of the
    result distinct: no species is suggested twice, in one tier or across
    tiers. *)
Theorem find_matching_distinct (U : UnicodeDB) (self : Cog)
    (quest_info : QuestInfo.t) (limit : Z) :
  Forall (fun item => Pokemon.dex (snd item) = fst item) (pokemon_data self) ->
  NoDup (List.map (fun m => Pokemon.dex (Match.data m))
           (find_matching_pokemon self quest_info limit)).
Proof.
  intros Hkey. rewrite Forall_forall in Hkey.
  destruct (decide (QuestInfo.type quest_info = Gender
                    \/ QuestInfo.type quest_info = TypeRegion)) as [Ht | Ht].
  - rewrite (find_matching_scan _ _ _ Ht). unfold scan.
    apply (for_each_invariant
             (fun ms => NoDup (List.map (fun m => Pokemon.dex (Match.data m)) ms)));
      [constructor|].
    intros p ms _ _ Hms.
    apply (for_each_invariant
             (fun ms => NoDup (List.map (fun m => Pokemon.dex (Match.data m)) ms)));
      [exact Hms|].
    intros item ms' Hitem _ Hms'. unfold take_if.
    destruct (suggested ms' (fst item)) eqn:Hseen; [exact Hms'|].
    destruct (quest_accepts self quest_info p item); [|exact Hms'].
    rewrite map_app. apply NoDup_snoc; [exact Hms'|].
    cbn [List.map annotate Match.data]. rewrite (Hkey item Hitem).
    intros Hin. apply in_map_iff in Hin as (m & Hdex & Hm).
    exact (suggested_false_inv ms' (fst item) m Hseen Hm Hdex).
  - unfold find_matching_pokemon.
    destruct (QuestInfo.type quest_info); try constructor; exfalso; auto.
Qed.

(** The Fire quest on the example. *)
Lemma find_matching_distinct_witness :
  NoDup (List.map (fun m => Pokemon.dex (Match.data m))
           (find_matching_pokemon (U := Latin1.db) example_cog
              (type_region_quest None (Some (lit "Fire"))) 5)).
Proof.
  apply (find_matching_distinct Latin1.db example_cog).
  eapply Forall_impl; [|exact (proj2 example_cog_loaded)].
  simpl. tauto.
Defined.

(** X5: on tables as [load_data] builds them, a smaller limit gives the
    first entries of what a larger limit gives: raising the limit only adds
    suggestions at the end. *)
Theorem find_matching_limit_prefix (U : UnicodeDB) (self : Cog)
    (quest_info : QuestInfo.t) (limit limit' : Z) :
  loaded (pokemon_data self) ->
  limit <= limit' ->
  find_matching_pokemon self quest_info limit =
  firstn (Z.to_nat limit) (find_matching_pokemon self quest_info limit').
Proof.
  intros Hloaded Hle.
  destruct (decide (QuestInfo.type quest_info = Gender
                    \/ QuestInfo.type quest_info = TypeRegion)) as [Ht | Ht].
  - rewrite !(find_matching_exact self quest_info _ Hloaded Ht).
    rewrite firstn_firstn. f_equal. lia.
  - unfold find_matching_pokemon.
    destruct (QuestInfo.type quest_info);
      try (symmetry; apply firstn_nil); exfalso; auto.
Qed.

(** Limits 1 and 3 for the Fire quest on the example. *)
Lemma find_matching_limit_prefix_witness :
  find_matching_pokemon (U := Latin1.db) example_cog
    (type_region_quest None (Some (lit "Fire"))) 1 =
  firstn 1
    (find_matching_pokemon (U := Latin1.db) example_cog
       (type_region_quest None (Some (lit "Fire"))) 3).
Proof.
  apply (find_matching_limit_prefix Latin1.db example_cog
           (type_region_quest None (Some (lit "Fire"))) 1 3 example_cog_loaded).
  lia.
Defined.

(** X6: on tables as [load_data] builds them, a result with fewer than
    [limit] entries leaves no candidate out. Each species of the table that
    is no regional form and has one of the three tiers is in it when, for a
    type/region quest, some constraint is set and the two flags
    [region_match] and [type_match] hold, and when, for a gender quest, its
    name is in the set of the gender. *)
Theorem find_matching_complete (U : UnicodeDB) (self : Cog)
    (quest_info : QuestInfo.t) (limit : Z) :
  loaded (pokemon_data self) ->
  (length (find_matching_pokemon self quest_info limit) < Z.to_nat limit)%nat ->
  forall dex data priority,
    In (dex, data) (pokemon_data self) ->
    In priority spawn_priorities ->
    spawn_rates self !! dex = Some priority ->
    is_regional_variant (Pokemon.name data) = false ->
    (QuestInfo.type quest_info = TypeRegion ->
     (truthy (QuestInfo.region quest_info)
      || truthy (QuestInfo.pokemon_type quest_info))
     && (negb (truthy (QuestInfo.region quest_info))
         || str_eqb_opt (Pokemon.region data) (QuestInfo.region quest_info))
     && (negb (truthy (QuestInfo.pokemon_type quest_info))
         || (str_eqb_opt (Pokemon.type1 data) (QuestInfo.pokemon_type quest_info)
             || opt_eqb (Pokemon.type2 data) (QuestInfo.pokemon_type quest_info)))
     = true ->
     In (Match.mk data priority) (find_matching_pokemon self quest_info limit)) /\
    (QuestInfo.type quest_info = Gender ->
     (exists g names,
        QuestInfo.gender quest_info = Some g /\
        gender_data self !! g = Some names /\
        Pokemon.name data ∈ names) ->
     In (Match.mk data priority) (find_matching_pokemon self quest_info limit)).
Proof.
  intros Hloaded Hshort dex data p Hin Hp Hrate Hvariant.
  assert (Hall : forall (Ht : QuestInfo.type quest_info = Gender
                              \/ QuestInfo.type quest_info = TypeRegion),
            quest_accepts self quest_info p (dex, data) = true ->
            In (Match.mk data p) (find_matching_pokemon self quest_info limit)).
  { intros Ht Hacc.
    rewrite (find_matching_exact self quest_info limit Hloaded Ht) in Hshort |- *.
    rewrite firstn_all2 by (rewrite length_take in Hshort; lia).
    apply in_flat_map. exists p. split; [exact Hp|].
    unfold tier_block.
    change (Match.mk data p) with (annotate p (dex, data)).
    apply in_map. apply filter_In. split; assumption. }
  split; intros Ht Hcond; (apply Hall; [auto|]);
    unfold quest_accepts; rewrite Ht.
  - unfold accepts_type_region. cbn [fst snd].
    rewrite Hvariant, meets_constraints_flags, Hcond.
    rewrite bool_decide_eq_true_2 by exact Hrate. reflexivity.
  - unfold accepts_gender, gender_pokemon_of. cbn [fst snd].
    destruct Hcond as (g & names & -> & -> & Hname).
    rewrite Hvariant. cbn [default negb andb].
    rewrite !bool_decide_eq_true_2 by assumption. reflexivity.
Qed.

(** Charmeleon for the Fire quest on the example, with limit 5. *)
Lemma find_matching_complete_witness :
  In (Match.mk (snd (row_item 5)) (lit "1/337"))
    (find_matching_pokemon (U := Latin1.db) example_cog
       (type_region_quest None (Some (lit "Fire"))) 5).
Proof.
  apply (proj1 (find_matching_complete Latin1.db example_cog
                  (type_region_quest None (Some (lit "Fire"))) 5
                  example_cog_loaded ltac:(vm_compute; lia)
                  5 (snd (row_item 5)) (lit "1/337")
                  ltac:(vm_compute; tauto) ltac:(vm_compute; tauto)
                  ltac:(vm_compute; reflexivity) ltac:(vm_compute; reflexivity))).
  - reflexivity.
  - vm_compute. reflexivity.
Defined.

(** ** More on [parse_quest] *)

Section MoreParseFacts.
Context {U : UnicodeDB}.

(** [List.find] returns the first element that passes. *)
Lemma find_first {A} (f : A -> bool) (l : list A) (x : A) :
  List.find f l = Some x ->
  exists before after,
    l = before ++ x :: after /\ f x = true /\
    forall y, In y before -> f y = false.
Proof.
  induction l as [|a l IH]; simpl; [discriminate|].
  destruct (f a) eqn:Ha.
  - intros [= ->]. exists [], l. repeat split; [exact Ha | intros y []].
  - intros Hfind. destruct (IH Hfind) as (before & after & -> & Hx & Hbefore).
    exists (a :: before), after. repeat split; [exact Hx|].
    intros y [<- | Hy]; [exact Ha | exact (Hbefore y Hy)].
Qed.

Lemma int_of_digits_nonneg (ds : pystr) :
  (forall c, isdecimal c = true -> 0 <= decimal_value c) ->
  forallb isdecimal ds = true -> 0 <= Re.int_of_digits ds.
Proof.
  intros Hvalue. unfold Re.int_of_digits.
  assert (Hacc : forall acc, 0 <= acc -> forallb isdecimal ds = true ->
            0 <= fold_left (fun acc c => 10 * acc + decimal_value c) ds acc).
  { induction ds as [|c ds IH]; simpl; intros acc Hacc Hds; [exact Hacc|].
    apply andb_true_iff in Hds as [Hc Hds].
    apply IH; [|exact Hds]. specialize (Hvalue c Hc). lia. }
  apply Hacc. lia.
Qed.

(** An occurrence of the count pattern has a decimal digit of the line. *)
Lemma count_occurrence_digit line i ds :
  count_occurrence line i ds ->
  forallb isdecimal ds = true /\
  exists c, In c line /\ isdecimal c = true.
Proof.
  intros (kw & m & w & rest & _ & _ & Heq & _ & _ & Hne & Hds & _).
  split; [exact Hds|].
  destruct ds as [|c ds]; [congruence|].
  exists c. split.
  - apply list_elem_of_In.
    assert (Hin : c ∈ skipn i line)
      by (rewrite Heq; apply list_elem_of_In; rewrite !in_app_iff; simpl; auto).
    eapply elem_of_sublist; [exact Hin | apply sublist_drop].
  - simpl in Hds. apply andb_true_iff in Hds as [Hc _]. exact Hc.
Qed.

End MoreParseFacts.

(** X7: a line that [parse_quest] classifies as type/region carries at
    least one constraint, so the case of [find_matching_pokemon] with neither
    is never reached from a parsed line; and a line that mentions breed or
    release gets no suggestion, whatever type, region or gender it names. *)
Theorem parse_quest_then_find (U : UnicodeDB) (self : Cog) (line : pystr)
    (q : QuestInfo.t) (limit : Z) :
  parse_quest line = Ok q ->
  (QuestInfo.type q = TypeRegion ->
   truthy (QuestInfo.region q) || truthy (QuestInfo.pokemon_type q) = true) /\
  (contains (lit "breed") (str_lower line)
   || contains (lit "release") (str_lower line) = true ->
   find_matching_pokemon self q limit = []).
Proof.
  intros Hq. apply parse_quest_ok in Hq as (_ & Hclass & Hr & Hp & _).
  rewrite Hr, Hp, (truthy_find _ _ regions_nonempty),
    (truthy_find _ _ types_nonempty).
  fold (region_detected line). fold (type_detected line).
  revert Hclass. unfold spec_classify, first_match, find_matching_pokemon.
  destruct (contains (lit "breed") (str_lower line));
    destruct (contains (lit "release") (str_lower line));
    destruct (contains (lit "female") (str_lower line));
    destruct (contains (lit "male") (str_lower line));
    destruct (contains (lit "unknown gender") (str_lower line)
              || contains (lit "genderless") (str_lower line));
    destruct (region_detected line || type_detected line);
    destruct (contains (lit "catch") (str_lower line));
    cbn [List.find fst snd orb]; intros [= -> _];
    split; intros; try reflexivity; discriminate.
Qed.

(** A release line that names a type and a region, on the example. *)
Lemma parse_quest_then_find_witness :
  exists q,
    parse_quest (U := Latin1.db) (lit "3. Release 2 Fire Pokémon from Kanto")
    = Ok q /\
    find_matching_pokemon (U := Latin1.db) example_cog q 5 = [].
Proof.
  destruct (parse_quest (U := Latin1.db)
              (lit "3. Release 2 Fire Pokémon from Kanto"))
    as [q|e] eqn:Hq; [|vm_compute in Hq; discriminate].
  destruct (parse_quest_then_find Latin1.db example_cog
              (lit "3. Release 2 Fire Pokémon from Kanto") q 5 Hq)
    as (_ & Hnone).
  exists q. split; [reflexivity|]. apply Hnone. vm_compute. reflexivity.
Defined.

(** X8: the region of the descriptor is the first name of the list
    [regions], in the order of that list and not of the line, that the line
    contains; the type is the first name of [types] that the line contains
    in lower case or followed by [-type]. *)
Theorem parse_quest_first_listed (U : UnicodeDB) (line : pystr)
    (q : QuestInfo.t) :
  parse_quest line = Ok q ->
  (forall r, QuestInfo.region q = Some r ->
     exists before after,
       regions = before ++ r :: after /\
       contains r line = true /\
       forall r', In r' before -> contains r' line = false) /\
  (forall t, QuestInfo.pokemon_type q = Some t ->
     exists before after,
       types = before ++ t :: after /\
       contains (str_lower t) (str_lower line)
       || contains (t ++ lit "-type") line = true /\
       forall t', In t' before ->
         contains (str_lower t') (str_lower line)
         || contains (t' ++ lit "-type") line = false).
Proof.
  intros Hq. apply parse_quest_ok in Hq as (_ & _ & Hr & Hp & _).
  split.
  - intros r Hsome. rewrite Hr in Hsome.
    apply find_first in Hsome as (before & after & Hl & Hx & Hbefore).
    exists before, after. auto.
  - intros t Hsome. rewrite Hp in Hsome.
    apply find_first in Hsome as (before & after & Hl & Hx & Hbefore).
    exists before, after. auto.
Qed.

(** Johto before Kanto in the line: the region is Kanto, the first of the
    two in the list. *)
Lemma parse_quest_first_listed_witness :
  exists q,
    parse_quest (U := Latin1.db) (lit "2. Catch 4 Pokémon from Johto or Kanto")
    = Ok q /\
    QuestInfo.region q = Some (lit "Kanto") /\
    contains (lit "Kanto") (lit "2. Catch 4 Pokémon from Johto or Kanto") = true.
Proof.
  destruct (parse_quest (U := Latin1.db)
              (lit "2. Catch 4 Pokémon from Johto or Kanto"))
    as [q|e] eqn:Hq; [|vm_compute in Hq; discriminate].
  destruct (parse_quest_first_listed Latin1.db
              (lit "2. Catch 4 Pokémon from Johto or Kanto") q Hq)
    as (Hregion & _).
  exists q. split; [reflexivity|].
  vm_compute in Hq. injection Hq as <-.
  split; [reflexivity|].
  destruct (Hregion (lit "Kanto") eq_refl) as (before & after & _ & Hin & _).
  exact Hin.
Defined.

(** X9: when the value of a decimal digit is not negative, the count of
    the descriptor that [parse_quest] returns is not negative; and for a line
    without a decimal digit [parse_quest] returns, with the count 0. *)
Theorem parse_quest_count_nonneg (U : UnicodeDB) (line : pystr) :
  (forall q,
     parse_quest line = Ok q ->
     (forall c, isdecimal c = true -> 0 <= decimal_value c) ->
     0 <= QuestInfo.count q) /\
  (forallb (fun c => negb (isdecimal c)) line = true ->
   exists q, parse_quest line = Ok q /\ QuestInfo.count q = 0).
Proof.
  split.
  - intros q Hq Hvalue.
    apply parse_quest_ok in Hq as (_ & _ & _ & _ & Hcount).
    destruct Hcount as [(i & ds & Hocc & _ & _ & ->) | [_ ->]]; [|lia].
    apply count_occurrence_digit in Hocc as (Hds & _).
    apply int_of_digits_nonneg; assumption.
  - intros Hnone.
    assert (Hno : forall i ds, ~ count_occurrence line i ds).
    { intros i ds Hocc.
      apply count_occurrence_digit in Hocc as (_ & c & Hc & Hdigit).
      rewrite forallb_forall in Hnone.
      specialize (Hnone c Hc). rewrite Hdigit in Hnone. discriminate. }
    destruct (parse_quest line) as [q|e] eqn:Hparse.
    + exists q. split; [reflexivity|].
      apply parse_quest_ok in Hparse as (_ & _ & _ & _ & Hcount).
      destruct Hcount as [(i & ds & Hocc & _) | [_ Hzero]]; [|exact Hzero].
      destruct (Hno i ds Hocc).
    + apply parse_quest_raise in Hparse as (_ & i & ds & Hocc & _).
      destruct (Hno i ds Hocc).
Qed.

(** A line without a digit, with the Latin-1 tables. *)
Lemma parse_quest_count_nonneg_witness :
  exists q,
    parse_quest (U := Latin1.db) (lit "Catch some Water Pokémon") = Ok q /\
    QuestInfo.count q = 0 /\ 0 <= QuestInfo.count q.
Proof.
  destruct (proj2 (parse_quest_count_nonneg Latin1.db
                     (lit "Catch some Water Pokémon")))
    as (q & Hq & Hzero); [vm_compute; reflexivity|].
  exists q. split; [exact Hq|]. split; [exact Hzero|].
  apply (proj1 (parse_quest_count_nonneg Latin1.db
                  (lit "Catch some Water Pokémon")) q Hq).
  intros c. cbn [isdecimal decimal_value Latin1.db].
  unfold Latin1.digit. intros Hc. apply andb_true_iff in Hc as [Hc _].
  apply N.leb_le in Hc. lia.
Defined.

(** ** Gender sets built by [load_data] *)

Section GenderFacts.
Context {U : UnicodeDB}.

Lemma lstrip_head (s : pystr) :
  match lstrip s with c :: _ => isspace c = false | [] => True end.
Proof.
  induction s as [|c s IH]; simpl; [exact I|].
  destruct (isspace c) eqn:Hc; [exact IH | exact Hc].
Qed.

Lemma lstrip_split (s : pystr) :
  exists ws, s = ws ++ lstrip s /\ forallb isspace ws = true.
Proof.
  induction s as [|c s IH]; simpl.
  - exists []. auto.
  - destruct (isspace c) eqn:Hc.
    + destruct IH as (ws & Hs & Hws). exists (c :: ws). simpl.
      rewrite Hc, Hws, <- Hs. auto.
    + exists []. auto.
Qed.

(** [strip] leaves no whitespace at either end. *)
Lemma strip_trimmed (s : pystr) : trimmed (strip s).
Proof.
  unfold trimmed, strip. rewrite rev_involutive. split; [|apply lstrip_head].
  destruct (lstrip_split (rev (lstrip s))) as (ws & Hsplit & _).
  apply (f_equal (@rev N)) in Hsplit.
  rewrite rev_involutive, rev_app_distr in Hsplit.
  pose proof (lstrip_head s) as Hhead. rewrite Hsplit in Hhead.
  destruct (rev (lstrip (rev (lstrip s)))); [exact I | exact Hhead].
Qed.

Lemma lstrip_fixed (s : pystr) :
  match s with c :: _ => isspace c = false | [] => True end -> lstrip s = s.
Proof. destruct s as [|c s]; simpl; [reflexivity|]. intros ->. reflexivity. Qed.

(** A string without whitespace at either end is left as it is. *)
Lemma strip_fixed (s : pystr) : trimmed s -> strip s = s.
Proof.
  intros [Hhead Hlast]. unfold strip.
  rewrite (lstrip_fixed s Hhead), (lstrip_fixed (rev s) Hlast).
  apply rev_involutive.
Qed.

Lemma load_gender_members (names : list pystr) (n : pystr) :
  n ∈ load_gender names <-> exists raw, In raw names /\ n = strip raw.
Proof.
  unfold load_gender.
  assert (Hacc : forall acc : gset pystr,
            n ∈ fold_left (fun s name => s ∪ {[strip name]}) names acc <->
            n ∈ acc \/ exists raw, In raw names /\ n = strip raw).
  { induction names as [|name names IH]; intros acc; simpl.
    - split; [auto | intros [H | (raw & [] & _)]; exact H].
    - rewrite IH. rewrite elem_of_union, elem_of_singleton. split.
      + intros [[H | ->] | (raw & Hraw & ->)]; eauto.
      + intros [H | (raw & [<- | Hraw] & ->)]; eauto. }
  rewrite Hacc. split; [intros [H | H]; [set_solver | exact H] | auto].
Qed.

End GenderFacts.

(** X10: [load_data] strips the names of the gender files and leaves the
    names of [pokemondata.csv] as they are, and [strip] is the identity on a
    name without whitespace at either end. So on the tables it builds, each
    species suggested for a gender quest has a name without whitespace at
    either end, and that name is the stripped form of a line of the file of
    the quest's gender, which is one of male, female and genderless. *)
Theorem load_data_gender_names (U : UnicodeDB)
    (pokemon_rows : list pokemon_row) (spawn_rows : list (Z * pystr))
    (male female genderless : list pystr)
    (quest_info : QuestInfo.t) (limit : Z) :
  QuestInfo.type quest_info = Gender ->
  forall m,
    In m (find_matching_pokemon
            (load_data pokemon_rows spawn_rows male female genderless)
            quest_info limit) ->
    trimmed (Pokemon.name (Match.data m)) /\
    strip (Pokemon.name (Match.data m)) = Pokemon.name (Match.data m) /\
    exists raw,
      Pokemon.name (Match.data m) = strip raw /\
      ((QuestInfo.gender quest_info = Some (lit "male") /\ In raw male)
       \/ (QuestInfo.gender quest_info = Some (lit "female") /\ In raw female)
       \/ (QuestInfo.gender quest_info = Some (lit "genderless")
           /\ In raw genderless)).
Proof.
  intros Ht m Hm.
  apply find_matching_elements in Hm as (p & item & _ & _ & Hacc & ->).
  apply (quest_accepts_gender_inv _ _ _ _ Ht) in Hacc
    as (g & names & Hg & Hnames & Hname).
  cbn [annotate Match.data].
  assert (Hraw : exists raw,
            Pokemon.name (snd item) = strip raw /\
            ((QuestInfo.gender quest_info = Some (lit "male") /\ In raw male)
             \/ (QuestInfo.gender quest_info = Some (lit "female")
                 /\ In raw female)
             \/ (QuestInfo.gender quest_info = Some (lit "genderless")
                 /\ In raw genderless))).
  { cbn [gender_data load_data] in Hnames.
    apply lookup_insert_Some in Hnames as [[<- <-] | [_ Hnames]].
    { apply load_gender_members in Hname as (raw & Hraw & ->). eauto 10. }
    apply lookup_insert_Some in Hnames as [[<- <-] | [_ Hnames]].
    { apply load_gender_members in Hname as (raw & Hraw & ->). eauto 10. }
    apply lookup_insert_Some in Hnames as [[<- <-] | [_ Hnames]].
    { apply load_gender_members in Hname as (raw & Hraw & ->). eauto 10. }
    rewrite lookup_empty in Hnames. discriminate. }
  destruct Hraw as (raw & Heq & Hfile).
  assert (Htrim : trimmed (Pokemon.name (snd item)))
    by (rewrite Heq; apply strip_trimmed).
  split; [exact Htrim|]. split; [apply strip_fixed; exact Htrim|].
  exists raw. auto.
Qed.

(** The female quest on the example: Charmander, whose line in the file
    ends in a blank. *)
Lemma load_data_gender_names_witness :
  strip (U := Latin1.db) (lit "Charmander") = lit "Charmander" /\
  exists raw, lit "Charmander" = strip (U := Latin1.db) raw.
Proof.
  pose proof (load_data_gender_names Latin1.db
                [ row 1 "Bulbasaur" "Grass" "Poison"; row 4 "Charmander" "Fire" "";
                  row 5 "Charmeleon" "Fire" " "; row 6 "Charizard" "Fire" "Flying";
                  row 7 "Squirtle" "Water" ""; row 150 "Mewtwo" "Psychic" "";
                  row 155 "Cyndaquil" "Fire" "";
                  row 10091 "Alolan Rattata" "Dark" "Normal" ]
                [ (1, lit "1/337"); (4, lit "1/674"); (5, lit "1/337");
                  (6, lit "1/225"); (150, lit "1/1000"); (155, lit "1/225");
                  (10091, lit "1/225") ]
                [lit "Charmander"; lit "Bulbasaur"]
                [lit "Charmander "; lit "Cyndaquil"; lit "Alolan Rattata"]
                [lit "Mewtwo"]
                {| QuestInfo.text := []; QuestInfo.type := Gender;
                   QuestInfo.region := None; QuestInfo.pokemon_type := None;
                   QuestInfo.count := 0; QuestInfo.gender := Some (lit "female") |}
                5 eq_refl
                (Match.mk (snd (row_item 4)) (lit "1/674"))
                ltac:(vm_compute; tauto)) as (_ & Hfixed & raw & Hraw & _).
  split; [exact Hfixed|]. exists raw. exact Hraw.
Defined.

(** ** [format_pokemon_info] *)









(** ** The matcher of patterns without flags *)

Section PatFacts.
Context {U : UnicodeDB}.

Lemma is_nil_app_r {A} (pre rest : list A) :
  (length rest =? length (pre ++ rest))%nat = (length pre =? 0)%nat.
Proof.
  rewrite length_app. destruct pre as [|x pre]; simpl.
  - apply Nat.eqb_refl.
  - apply Nat.eqb_neq. lia.
Qed.

Lemma is_nil_app {A} (m1 m2 : list A) (first : bool) :
  first && (length m1 =? 0)%nat && (length m2 =? 0)%nat =
  first && (length (m1 ++ m2) =? 0)%nat.
Proof.
  rewrite length_app. destruct first, m1, m2; reflexivity.
Qed.

(** A match of [exec] is a text of the pattern at the head of [s]. *)
Lemma pat_exec_sound {A} (p : Pat.pattern) (first : bool) (s : pystr)
    (k : bool -> pystr -> option A) (x : A) :
  Pat.exec p first s k = Some x ->
  exists m rest,
    s = m ++ rest /\ Pat.lang p first m /\
    k (first && (length m =? 0)%nat) rest = Some x.
Proof.
  revert first s k. induction p as [| |i|i|i|p1 IH1 p2 IH2];
    intros first s k H; cbn [Pat.exec Pat.lang] in *.
  - exists [], s. rewrite andb_true_r. auto.
  - destruct first; [|discriminate]. exists [], s. auto.
  - destruct s as [|c s]; [discriminate|].
    destruct (Pat.accepts i c) eqn:Hc; [|discriminate].
    exists [c], s. rewrite andb_false_r. eauto 6.
  - destruct s as [|c s]; [discriminate|].
    destruct (Pat.accepts i c) eqn:Hc; [|discriminate].
    apply repeat_max_inv in H as (pre & rest & -> & Hpre & Hk).
    exists (c :: pre), rest. rewrite andb_false_r.
    split; [reflexivity|]. split; [|exact Hk].
    split; [discriminate | simpl; rewrite Hc; exact Hpre].
  - apply repeat_max_inv in H as (pre & rest & -> & Hpre & Hk).
    exists pre, rest. rewrite is_nil_app_r in Hk. auto.
  - apply IH1 in H as (m1 & rest1 & -> & Hm1 & H).
    apply IH2 in H as (m2 & rest & -> & Hm2 & Hk).
    exists (m1 ++ m2), rest. rewrite <- app_assoc. split; [reflexivity|].
    split; [exists m1, m2; auto|]. rewrite <- is_nil_app. exact Hk.
Qed.

(** Where a text of the pattern stands at the head of [s] and the rest can
    go on, [exec] finds a match. *)
Lemma pat_exec_complete {A} (p : Pat.pattern) (first : bool) (m rest : pystr)
    (k : bool -> pystr -> option A) :
  Pat.lang p first m ->
  is_Some (k (first && (length m =? 0)%nat) rest) ->
  is_Some (Pat.exec p first (m ++ rest) k).
Proof.
  revert first m rest k. induction p as [| |i|i|i|p1 IH1 p2 IH2];
    intros first m rest k Hm Hk; cbn [Pat.exec Pat.lang] in *.
  - subst m. rewrite andb_true_r in Hk. exact Hk.
  - destruct Hm as [-> ->]. exact Hk.
  - destruct Hm as (c & -> & Hc). simpl. rewrite Hc.
    rewrite andb_false_r in Hk. exact Hk.
  - destruct Hm as [Hne Hall]. destruct m as [|c m]; [congruence|].
    simpl in Hall. apply andb_true_iff in Hall as [Hc Hall].
    simpl. rewrite Hc. rewrite andb_false_r in Hk.
    apply repeat_max_complete; assumption.
  - apply (repeat_max_complete (Pat.accepts i)
             (fun s' => k (first && (length s' =? length (m ++ rest))%nat) s'));
      [exact Hm|].
    rewrite is_nil_app_r. exact Hk.
  - destruct Hm as (m1 & m2 & -> & Hm1 & Hm2). rewrite <- app_assoc.
    apply IH1; [exact Hm1|]. apply IH2; [exact Hm2|].
    rewrite is_nil_app. exact Hk.
Qed.

(** [search] succeeds exactly when a text of the pattern stands at some
    offset of [s]. *)
Lemma pat_search_from_spec (p : Pat.pattern) (first : bool) (s : pystr) :
  is_Some (Pat.search_from p first s) <->
  exists i m rest,
    (i <= length s)%nat /\ skipn i s = m ++ rest /\
    Pat.lang p (first && (i =? 0)%nat) m.
Proof.
  revert first. induction s as [|c s IH]; intros first; cbn [Pat.search_from].
  - unfold Pat.match_here.
    destruct (Pat.exec p first [] (fun _ rest => Some rest)) as [r|] eqn:Hex.
    + split; [intros _ | eauto].
      apply pat_exec_sound in Hex as (m & rest & Hs & Hm & _).
      exists 0%nat, m, rest. rewrite andb_true_r. auto.
    + split; [intros [? [=]]|].
      intros (i & m & rest & Hi & Hs & Hm). simpl in Hi.
      assert (i = 0%nat) by lia. subst i. rewrite andb_true_r in Hm.
      assert (Hsome : is_Some (Pat.exec p first (m ++ rest)
                                 (fun _ rest => Some rest)))
        by (apply pat_exec_complete; [exact Hm | eauto]).
      rewrite skipn_O in Hs. rewrite <- Hs, Hex in Hsome. exact Hsome.
  - unfold Pat.match_here.
    destruct (Pat.exec p first (c :: s) (fun _ rest => Some rest)) as [r|] eqn:Hex.
    + split; [intros _ | eauto].
      apply pat_exec_sound in Hex as (m & rest & Hs & Hm & _).
      exists 0%nat, m, rest. rewrite andb_true_r. simpl. split; [lia | auto].
    + rewrite IH. split.
      * intros (i & m & rest & Hi & Hs & Hm). exists (S i), m, rest.
        rewrite andb_false_l in Hm. rewrite andb_false_r. simpl.
        split; [lia | auto].
      * intros ([|i] & m & rest & Hi & Hs & Hm).
        -- rewrite andb_true_r in Hm. rewrite skipn_O in Hs.
           assert (Hsome : is_Some (Pat.exec p first (m ++ rest)
                                      (fun _ rest => Some rest)))
             by (apply pat_exec_complete; [exact Hm | eauto]).
           rewrite <- Hs, Hex in Hsome. destruct Hsome as [? [=]].
        -- exists i, m, rest. rewrite andb_false_r in Hm.
           rewrite andb_false_l. simpl in Hi, Hs. split; [lia | auto].
Qed.

Lemma pat_lang_literal (s : pystr) (first : bool) (m : pystr) :
  Pat.lang (Pat.literal s) first m <-> m = s.
Proof.
  revert first m. induction s as [|c s IH]; intros first m; cbn [Pat.literal Pat.lang].
  - tauto.
  - split.
    + intros (m1 & m2 & -> & (c' & -> & Hc) & Hm2).
      apply IH in Hm2. subst m2. simpl in Hc. apply N.eqb_eq in Hc. subst c'.
      reflexivity.
    + intros ->. exists [c], s. split; [reflexivity|].
      split; [exists c; simpl; rewrite N.eqb_refl; auto | apply IH; reflexivity].
Qed.

(** The texts of [\d+\..*[Cc]atch]. *)
Lemma catch_re_lang (first : bool) (m : pystr) :
  Pat.lang catch_re first m <->
  exists ds mid c,
    m = ds ++ [46%N] ++ mid ++ [c] ++ lit "atch" /\
    ds <> [] /\ forallb isdecimal ds = true /\
    forallb (fun x => negb (x =? 10)%N) mid = true /\
    (c = 67%N \/ c = 99%N).
Proof.
  unfold catch_re. cbn [Pat.lang]. split.
  - intros (ds & m1 & -> & [Hne Hds] & d & m2 & -> & (c0 & -> & Hc0)
            & mid & m3 & -> & Hmid & cc & m4 & -> & (c & -> & Hc) & Hlit).
    apply pat_lang_literal in Hlit. subst m4.
    cbn [Pat.accepts] in Hc0. apply N.eqb_eq in Hc0. subst c0.
    exists ds, mid, c. split; [reflexivity|]. repeat split; try assumption.
    cbn [Pat.accepts existsb] in Hc. rewrite orb_false_r in Hc.
    apply orb_true_iff in Hc as [Hc | Hc]; apply N.eqb_eq in Hc; auto.
  - intros (ds & mid & c & -> & Hne & Hds & Hmid & Hc).
    exists ds, ([46%N] ++ mid ++ [c] ++ lit "atch"). split; [reflexivity|].
    split; [split; assumption|].
    exists [46%N], (mid ++ [c] ++ lit "atch"). split; [reflexivity|].
    split; [exists 46%N; auto|].
    exists mid, ([c] ++ lit "atch"). split; [reflexivity|]. split; [exact Hmid|].
    exists [c], (lit "atch"). split; [reflexivity|].
    split; [|apply pat_lang_literal; reflexivity].
    exists c. split; [reflexivity|]. simpl.
    destruct Hc as [-> | ->]; reflexivity.
Qed.

(** [re.search(r'\d+\..*[Cc]atch', s)] finds a match exactly when [s] has a
    run of digits, a full stop and, further on before any newline, [Catch]
    or [catch]. *)
Lemma catch_re_search (s : pystr) :
  is_Some (Pat.search catch_re s) <->
  exists pre ds mid c rest,
    s = pre ++ ds ++ [46%N] ++ mid ++ [c] ++ lit "atch" ++ rest /\
    ds <> [] /\ forallb isdecimal ds = true /\
    forallb (fun x => negb (x =? 10)%N) mid = true /\
    (c = 67%N \/ c = 99%N).
Proof.
  unfold Pat.search. rewrite pat_search_from_spec.
  setoid_rewrite catch_re_lang. generalize (lit "atch"). intros atch. split.
  - intros (i & m & rest & Hi & Hs & ds & mid & c & -> & Hrest).
    exists (firstn i s), ds, mid, c, rest. split; [|exact Hrest].
    rewrite <- (firstn_skipn i s) at 1. rewrite Hs.
    repeat rewrite <- app_assoc. reflexivity.
  - intros (pre & ds & mid & c & rest & -> & Hrest).
    exists (length pre), (ds ++ [46%N] ++ mid ++ [c] ++ atch), rest.
    split; [rewrite length_app; lia|]. split.
    + rewrite drop_app_length. repeat rewrite <- app_assoc. reflexivity.
    + exists ds, mid, c. auto.
Qed.

(** [re.search(r'^\d+\.', s)] finds a match exactly when [s] opens with
    digits and a full stop. *)
Lemma numbered_re_search (s : pystr) :
  is_Some (Pat.search numbered_re s) <->
  exists ds rest,
    s = ds ++ [46%N] ++ rest /\ ds <> [] /\ forallb isdecimal ds = true.
Proof.
  unfold Pat.search. rewrite pat_search_from_spec. unfold numbered_re.
  cbn [Pat.lang]. split.
  - intros (i & m & rest & Hi & Hs
            & m0 & m1 & -> & [Hfirst ->] & ds & m2 & -> & [Hne Hds]
            & c & -> & Hc).
    simpl in Hfirst. apply Nat.eqb_eq in Hfirst. subst i.
    cbn [Pat.accepts] in Hc. apply N.eqb_eq in Hc. subst c.
    rewrite skipn_O in Hs. cbn [app] in Hs.
    exists ds, rest. rewrite Hs, <- app_assoc. auto.
  - intros (ds & rest & -> & Hne & Hds).
    exists 0%nat, (ds ++ [46%N]), rest. split; [lia|].
    split; [simpl; rewrite <- app_assoc; reflexivity|].
    exists [], (ds ++ [46%N]). split; [reflexivity|]. split; [auto|].
    exists ds, [46%N]. split; [reflexivity|]. split; [auto|].
    exists 46%N. auto.
Qed.

End PatFacts.

(** ** [is_quest_embed] *)

Section EmbedFacts.
Context {U : UnicodeDB}.

(** The first piece of [s.split(sep)] ends at the first separator, and
    the other pieces are those of what follows it. *)
Lemma split_on_head (sep : N) (s : pystr) :
  exists l ls,
    split_on sep s = l :: ls /\
    forallb (fun x => negb (x =? sep)%N) l = true /\
    ((ls = [] /\ s = l)
     \/ exists s', s = l ++ sep :: s' /\ ls = split_on sep s').
Proof.
  induction s as [|c s IH]; cbn [split_on].
  - exists [], []. auto.
  - destruct (N.eqb_spec c sep) as [-> | Hne].
    + exists [], (split_on sep s). split; [reflexivity|].
      split; [reflexivity|]. right. exists s. auto.
    + destruct IH as (l & ls & -> & Hl & Hrest).
      exists (c :: l), ls. split; [reflexivity|]. split.
      * simpl. rewrite (proj2 (N.eqb_neq c sep) Hne). exact Hl.
      * destruct Hrest as [[-> ->] | (s' & -> & ->)]; [auto|].
        right. exists s'. auto.
Qed.

(** A piece of [s.split(sep)] stands in [s] and has no separator. *)
Lemma split_on_piece (sep : N) (s line : pystr) :
  In line (split_on sep s) ->
  forallb (fun x => negb (x =? sep)%N) line = true /\
  exists pre post, s = pre ++ line ++ post.
Proof.
  remember (length s) as n eqn:Hn. revert s Hn line.
  induction n as [n IH] using lt_wf_ind. intros s Hn line Hin.
  destruct (split_on_head sep s) as (l & ls & Hsplit & Hl & Hrest).
  rewrite Hsplit in Hin. destruct Hin as [<- | Hin].
  - split; [exact Hl|].
    destruct Hrest as [[_ ->] | (s' & -> & _)].
    + exists [], []. rewrite app_nil_r. reflexivity.
    + exists [], (sep :: s'). reflexivity.
  - destruct Hrest as [[-> _] | (s' & -> & ->)]; [destruct Hin|].
    destruct (IH (length s')) with (s := s') (line := line)
      as (Hline & pre & post & ->); [|reflexivity|exact Hin|].
    + subst n. rewrite length_app. simpl. lia.
    + split; [exact Hline|]. exists (l ++ sep :: pre), post.
      rewrite <- app_assoc. reflexivity.
Qed.

Lemma strip_inside (line : pystr) :
  exists a b, line = a ++ strip line ++ b.
Proof.
  unfold strip.
  destruct (lstrip_split line) as (a & Ha & _).
  destruct (lstrip_split (rev (lstrip line))) as (b & Hb & _).
  exists a, (rev b). rewrite <- rev_app_distr, <- Hb, rev_involutive. exact Ha.
Qed.

Lemma forallb_inside {A} (f : A -> bool) (pre l post : list A) :
  forallb f (pre ++ l ++ post) = true -> forallb f l = true.
Proof.
  rewrite !forallb_app. intros H.
  apply andb_true_iff in H as [_ H]. apply andb_true_iff in H as [H _].
  exact H.
Qed.

Lemma is_quest_embed_true (embed : Embed.t) :
  is_quest_embed embed = true <->
  exists field,
    In field (Embed.fields embed) /\ is_quest_field field = true /\
    is_Some (Pat.search catch_re (Field.value field)).
Proof.
  unfold is_quest_embed. destruct (Embed.fields embed) as [|f fs] eqn:Hfields.
  - split; [discriminate | intros (field & [] & _)].
  - rewrite existsb_exists. split.
    + intros (field & Hin & H). apply andb_true_iff in H as [Hq Hs].
      apply bool_decide_eq_true in Hs. eauto.
    + intros (field & Hin & Hq & Hs). exists field. split; [exact Hin|].
      rewrite Hq. apply bool_decide_eq_true. exact Hs.
Qed.

End EmbedFacts.

(** X12: [is_quest_embed] accepts an embed exactly when one of its fields
    has a name that, in lower case, contains quest, task, security or
    challenge, and a value in which a run of digits is followed by a full
    stop and, further on before any newline, by [Catch] or [catch]. An embed
    without fields is not accepted. *)
Theorem is_quest_embed_spec (U : UnicodeDB) (embed : Embed.t) :
  (is_quest_embed embed = true <->
   exists field,
     In field (Embed.fields embed) /\
     (exists keyword,
        In keyword [lit "quest"; lit "task"; lit "security"; lit "challenge"] /\
        contains keyword (str_lower (Field.name field)) = true) /\
     exists pre ds mid c rest,
       Field.value field =
         pre ++ ds ++ [46%N] ++ mid ++ [c] ++ lit "atch" ++ rest /\
       ds <> [] /\ forallb isdecimal ds = true /\
       forallb (fun x => negb (x =? 10)%N) mid = true /\
       (c = 67%N \/ c = 99%N)) /\
  (Embed.fields embed = [] -> is_quest_embed embed = false).
Proof.
  split.
  - rewrite is_quest_embed_true. unfold is_quest_field.
    setoid_rewrite existsb_exists. setoid_rewrite catch_re_search.
    unfold quest_field_keywords. reflexivity.
  - unfold is_quest_embed. intros ->. reflexivity.
Qed.

(** An embed with one quest field of one line. *)
Lemma is_quest_embed_spec_witness :
  is_quest_embed (U := Latin1.db)
    (Embed.mk (Some (lit "Event")) None None
       [Field.mk (lit "Daily Quests") (lit "1. Catch 3 Fire-type Pokémon") false]
       None) = true.
Proof.
  apply (proj1 (is_quest_embed_spec Latin1.db _)).
  exists (Field.mk (lit "Daily Quests") (lit "1. Catch 3 Fire-type Pokémon") false).
  split; [left; reflexivity|]. split.
  - exists (lit "quest"). split; [left; reflexivity | vm_compute; reflexivity].
  - exists [], (lit "1"), (lit " "), 67%N, (lit " 3 Fire-type Pokémon").
    repeat split; try discriminate; auto.
Defined.

(** X13: the detector and the reader agree on catch lines. When a field
    with a quest keyword in its name has a line that
    [process_quest_embed] takes as numbered (stripped, it opens with digits
    and a full stop) and that names [Catch] or [catch] after the number,
    [is_quest_embed] accepts the embed. *)
Theorem is_quest_embed_numbered_line (U : UnicodeDB) (embed : Embed.t)
    (field : Field.t) (line ds mid rest : pystr) (c : N) :
  In field (Embed.fields embed) ->
  is_quest_field field = true ->
  In line (split_on 10 (Field.value field)) ->
  strip line = ds ++ [46%N] ++ mid ++ [c] ++ lit "atch" ++ rest ->
  ds <> [] -> forallb isdecimal ds = true ->
  c = 67%N \/ c = 99%N ->
  is_quest_embed embed = true /\
  is_Some (Pat.search numbered_re (strip line)).
Proof.
  intros Hfield Hq Hline Hstrip Hne Hds Hc. split.
  - apply is_quest_embed_true. exists field. split; [exact Hfield|].
    split; [exact Hq|]. apply catch_re_search.
    destruct (split_on_piece 10 _ _ Hline) as (Hnl & pre & post & Hvalue).
    destruct (strip_inside line) as (a & b & Hinside).
    rewrite Hstrip in Hinside.
    exists (pre ++ a), ds, mid, c, (rest ++ b ++ post).
    split; [|repeat split; try assumption].
    + rewrite Hvalue, Hinside. repeat rewrite <- app_assoc. reflexivity.
    + rewrite Hinside in Hnl.
      apply forallb_inside in Hnl.
      apply (forallb_inside _ (ds ++ [46%N]) mid ([c] ++ lit "atch" ++ rest)).
      repeat rewrite <- app_assoc. exact Hnl.
  - apply numbered_re_search. rewrite Hstrip.
    exists ds, (mid ++ [c] ++ lit "atch" ++ rest). auto.
Qed.

(** The second line of a field, indented. *)
Lemma is_quest_embed_numbered_line_witness :
  is_quest_embed (U := Latin1.db)
    (Embed.mk None None None
       [Field.mk (lit "Tasks")
          (lit "Today" ++ [10%N] ++ lit "  2. Please catch 4 Pokémon ") false]
       None) = true.
Proof.
  apply (is_quest_embed_numbered_line Latin1.db
           (Embed.mk None None None
              [Field.mk (lit "Tasks")
                 (lit "Today" ++ [10%N] ++ lit "  2. Please catch 4 Pokémon ")
                 false]
              None)
           (Field.mk (lit "Tasks")
              (lit "Today" ++ [10%N] ++ lit "  2. Please catch 4 Pokémon ") false)
           (lit "  2. Please catch 4 Pokémon ")
           (lit "2") (lit " Please ") (lit " 4 Pokémon") 99%N).
  - left. reflexivity.
  - vm_compute. reflexivity.
  - vm_compute. right. left. reflexivity.
  - vm_compute. reflexivity.
  - discriminate.
  - reflexivity.
  - right. reflexivity.
Defined.

(** ** [process_quest_embed] *)

Section ProcessFacts.
Context {U : UnicodeDB}.

(** One turn of the loop raises with [parse_quest], or adds the outcome of
    its line, if there is one. *)
Lemma gather_line_outcome self count include_gender line st :
  gather_line self count include_gender line st =
  if line_raises line then Raise ValueError
  else Ok match line_outcome self count include_gender line with
          | Some out => add_outcome st out
          | None => st
          end.
Proof.
  unfold gather_line, line_outcome, line_raises.
  destruct (strip line) as [|c s]; [reflexivity|].
  destruct (bool_decide (is_Some (Pat.search numbered_re (c :: s))));
    cbn [negb andb]; [|reflexivity].
  destruct (parse_quest line) as [q|e] eqn:Hq.
  2: { apply parse_quest_raise in Hq as [-> _]. reflexivity. }
  cbn [mbind result_bind].
  destruct (bool_decide (QuestInfo.type q = Gender) && negb include_gender);
    [reflexivity|].
  destruct (find_matching_pokemon self q count) as [|m ms]; [reflexivity|].
  unfold add_outcome, is_gender_outcome, outcome_text, gender_field.
  cbn [fst snd Field.value].
  destruct (bool_decide (QuestInfo.type q = Gender)); reflexivity.
Qed.

Lemma for_result_gather self count include_gender lines st :
  for_result (gather_line self count include_gender) lines st =
  if existsb line_raises lines then Raise ValueError
  else Ok (fold_left add_outcome
             (omap (line_outcome self count include_gender) lines) st).
Proof.
  revert st.
  induction lines as [|line lines IH]; intros st; cbn [for_result existsb].
  - reflexivity.
  - rewrite gather_line_outcome.
    destruct (line_raises line); cbn [mbind result_bind orb]; [reflexivity|].
    rewrite IH. cbn [omap list_omap].
    destruct (existsb line_raises lines); [reflexivity|].
    destruct (line_outcome self count include_gender line); reflexivity.
Qed.

Lemma gathered_suggestions outs st :
  suggestions (fold_left add_outcome outs st) =
  suggestions st ++ List.map outcome_text outs.
Proof.
  revert st. induction outs as [|out outs IH]; intros st; simpl.
  - symmetry. apply app_nil_r.
  - rewrite IH. unfold add_outcome.
    destruct (is_gender_outcome out); cbn [suggestions];
      rewrite <- app_assoc; reflexivity.
Qed.

Lemma gathered_gender outs st :
  List.map GenderInfo.text (gender_suggestions (fold_left add_outcome outs st)) =
  List.map GenderInfo.text (gender_suggestions st)
  ++ List.map (fun out => Field.value (gender_field out))
       (List.filter is_gender_outcome outs).
Proof.
  revert st. induction outs as [|out outs IH]; intros st; simpl.
  - symmetry. apply app_nil_r.
  - rewrite IH. unfold add_outcome.
    destruct (is_gender_outcome out); cbn [gender_suggestions]; [|reflexivity].
    rewrite map_app, <- app_assoc. reflexivity.
Qed.

Lemma added_names (ms : list Match.t) (s : gset pystr) (n : pystr) :
  n ∈ fold_left (fun s pokemon => s ∪ {[Pokemon.name (Match.data pokemon)]}) ms s
  <-> n ∈ s \/ exists m, In m ms /\ Pokemon.name (Match.data m) = n.
Proof.
  revert s. induction ms as [|m ms IH]; intros s; simpl.
  - split; [auto | intros [H | (m & [] & _)]; exact H].
  - rewrite IH, elem_of_union, elem_of_singleton. split.
    + intros [[H | ->] | (m' & Hm' & <-)]; eauto.
    + intros [H | (m' & [<- | Hm'] & <-)]; eauto.
Qed.

Lemma gathered_names outs st n :
  n ∈ all_suggested_pokemon (fold_left add_outcome outs st) <->
  n ∈ all_suggested_pokemon st
  \/ exists out m,
       In out outs /\ is_gender_outcome out = false /\
       In m (snd out) /\ Pokemon.name (Match.data m) = n.
Proof.
  revert st. induction outs as [|out outs IH]; intros st; simpl.
  - split; [auto | intros [H | (out & m & [] & _)]; exact H].
  - rewrite IH. unfold add_outcome at 1.
    destruct (is_gender_outcome out) eqn:Hg; cbn [all_suggested_pokemon].
    + split.
      * intros [H | (out' & m & Hin & Hrest)]; [auto|].
        right. exists out', m. auto.
      * intros [H | (out' & m & [<- | Hin] & Hg' & Hrest)]; [auto | congruence|].
        right. exists out', m. auto.
    + rewrite added_names. split.
      * intros [[H | (m & Hm & Hn)] | (out' & m & Hin & Hrest)]; [auto| |].
        -- right. exists out, m. auto.
        -- right. exists out', m. auto.
      * intros [H | (out' & m & [<- | Hin] & Hg' & Hm & Hn)]; [auto| |].
        -- left. right. eauto.
        -- right. exists out', m. auto.
Qed.

Lemma add_fields_fields {A} (name value : A -> pystr) (l : list A) (e : Embed.t) :
  Embed.fields (fold_left (fun e x => add_field (name x) (value x) e) l e) =
  Embed.fields e ++ List.map (fun x => Field.mk (name x) (value x) false) l.
Proof.
  revert e. induction l as [|x l IH]; intros e; simpl.
  - symmetry. apply app_nil_r.
  - rewrite IH. cbn [add_field Embed.fields]. rewrite <- app_assoc. reflexivity.
Qed.

Lemma add_fields_footer {A} (name value : A -> pystr) (l : list A) (e : Embed.t) :
  Embed.footer (fold_left (fun e x => add_field (name x) (value x) e) l e) =
  Embed.footer e.
Proof.
  revert e. induction l as [|x l IH]; intros e; simpl; [reflexivity|].
  rewrite IH. reflexivity.
Qed.

(** What [process_quest_embed] returns, in terms of the outcomes of the
    lines. *)
Lemma process_quest_embed_outcomes self EMBED_COLOR embed count include_gender :
  process_quest_embed self EMBED_COLOR embed count include_gender =
  if quest_raises embed then Raise ValueError
  else
    Ok match quest_outcomes self embed count include_gender with
       | [] => None
       | out :: outs =>
           Some (build_embeds EMBED_COLOR embed count
                   (fold_left add_outcome (out :: outs)
                      {| suggestions := [];
                         all_suggested_pokemon := ∅;
                         gender_suggestions := [] |}))
       end.
Proof.
  unfold process_quest_embed, quest_outcomes, quest_raises.
  destruct (List.find is_quest_field (Embed.fields embed)) as [field|];
    [|reflexivity].
  rewrite for_result_gather.
  destruct (existsb line_raises (split_on 10 (Field.value field)));
    cbn [mbind result_bind]; [reflexivity|].
  rewrite gathered_suggestions. cbn [suggestions app].
  destruct (omap _ _) as [|out outs]; reflexivity.
Qed.

End ProcessFacts.

Section ProcessResults.
Context {U : UnicodeDB}.


Lemma in_omap {A B} (f : A -> option B) (l : list A) (y : B) :
  In y (omap f l) <-> exists x, In x l /\ f x = Some y.
Proof.
  rewrite <- list_elem_of_In, list_elem_of_omap.
  split; intros (x & Hx & Hf); exists x; split; try exact Hf;
    apply list_elem_of_In; exact Hx.
Qed.

(** When a line has an outcome. *)
Lemma line_outcome_some self count include_gender line q ms :
  line_outcome self count include_gender line = Some (q, ms) <->
  strip line <> [] /\
  is_Some (Pat.search numbered_re (strip line)) /\
  parse_quest line = Ok q /\
  (QuestInfo.type q = Gender -> include_gender = true) /\
  ms = find_matching_pokemon self q count /\ ms <> [].
Proof.
  unfold line_outcome.
  destruct (strip line) as [|c s].
  { split; [discriminate | intros [H _]; congruence]. }
  destruct (bool_decide_reflect (is_Some (Pat.search numbered_re (c :: s))))
    as [Hnum | Hnum].
  2: { split; [discriminate | intros (_ & H & _); contradiction]. }
  destruct (parse_quest line) as [q'|e].
  2: { split; [discriminate | intros (_ & _ & [=] & _)]. }
  destruct (bool_decide_reflect (QuestInfo.type q' = Gender)) as [Hg | Hg];
    destruct include_gender; cbn [negb andb];
    try (destruct (find_matching_pokemon self q' count) as [|m ms'] eqn:Hfind);
    split;
    try discriminate;
    try (intros [= <- <-]; repeat split; auto; discriminate);
    intros (_ & _ & [= <-] & Hinc & -> & Hne);
    try congruence; try (specialize (Hinc Hg); discriminate).
Qed.

Lemma str_leb_total (a b : pystr) : str_leb a b = true \/ str_leb b a = true.
Proof.
  revert b. induction a as [|x a IH]; intros [|y b]; simpl; auto.
  destruct (N.ltb_spec x y); [auto|]. destruct (N.ltb_spec y x); [auto|].
  assert (x = y) by lia. subst y. rewrite N.eqb_refl. simpl. apply IH.
Qed.

Lemma str_le_total : Total (fun a b : pystr => Is_true (str_leb a b)).
Proof.
  intros a b. destruct (str_leb_total a b) as [H | H]; rewrite H; simpl; auto.
Qed.

(** [sorted] of a set lists its elements once each, in ascending order. *)
Lemma sorted_names_spec (s : gset pystr) :
  Sorted (fun a b => Is_true (str_leb a b)) (sorted_names s) /\
  NoDup (sorted_names s) /\
  (forall n, In n (sorted_names s) <-> n ∈ s) /\
  (sorted_names s = [] <-> s = ∅).
Proof.
  unfold sorted_names.
  pose proof (merge_sort_Permutation (fun a b => Is_true (str_leb a b))
                (elements s)) as Hperm.
  split; [apply (@Sorted_merge_sort _ _ _ str_le_total)|].
  split; [apply NoDup_ListNoDup; rewrite Hperm; apply NoDup_elements|].
  split.
  - intros n. rewrite <- list_elem_of_In, Hperm. apply elem_of_elements.
  - split.
    + intros Hnil. rewrite Hnil in Hperm.
      symmetry in Hperm. apply Permutation_nil_r in Hperm.
      apply elements_empty_inv in Hperm. apply leibniz_equiv. exact Hperm.
    + intros ->. rewrite elements_empty in Hperm.
      apply Permutation_nil_r in Hperm. exact Hperm.
Qed.

(** The fields and footers of the two embeds. *)
Lemma build_embeds_spec EMBED_COLOR embed count st :
  let names_fields name :=
    if bool_decide (all_suggested_pokemon st = ∅) then []
    else [Field.mk name
            (join (lit ", ") (sorted_names (all_suggested_pokemon st))) false] in
  Embed.fields (fst (build_embeds EMBED_COLOR embed count st)) =
    names_fields (lit "📝 Suggested Pokémon")
    ++ match gender_suggestions st with
       | [] => []
       | _ :: _ =>
           Field.mk (lit "─────────────────────") [] false
           :: List.map
                (fun g => Field.mk (lit "Gender Pokémon") (GenderInfo.text g) false)
                (gender_suggestions st)
       end /\
  Embed.fields (snd (build_embeds EMBED_COLOR embed count st)) =
    List.map (fun s => Field.mk [] s false) (firstn 25 (suggestions st))
    ++ names_fields (lit "📝 Complete List") /\
  Embed.footer (fst (build_embeds EMBED_COLOR embed count st)) =
    Some (lit "Click " ++ [34%N] ++ lit "View Details" ++ [34%N]
          ++ lit " for the complete breakdown") /\
  Embed.footer (snd (build_embeds EMBED_COLOR embed count st)) =
    if (25 <? length (suggestions st))%nat
    then Some (lit "Showing 25 of "
               ++ str_of_int (Z.of_nat (length (suggestions st)))
               ++ lit " quests")
    else None.
Proof.
  cbv zeta. unfold build_embeds.
  set (details0 := fold_left _ (firstn 25 (suggestions st)) _).
  assert (Hd0 : Embed.fields details0 =
                List.map (fun s => Field.mk [] s false) (firstn 25 (suggestions st))
                /\ Embed.footer details0 = None).
  { subst details0. split.
    - rewrite (add_fields_fields (fun _ => []) (fun s => s)). reflexivity.
    - rewrite (add_fields_footer (fun _ => []) (fun s => s)). reflexivity. }
  destruct Hd0 as [Hd0 Hd0'].
  change (lit "Gender" ++ lit " Pokémon") with (lit "Gender Pokémon").
  destruct (bool_decide (all_suggested_pokemon st = ∅));
    destruct (gender_suggestions st) as [|g gs];
    destruct (25 <? length (suggestions st))%nat;
    cbn [fst snd set_footer add_field Embed.fields Embed.footer app];
    rewrite ?(add_fields_fields (fun _ => lit "Gender Pokémon") GenderInfo.text),
            ?Hd0, ?Hd0', ?app_nil_r;
    cbn [add_field Embed.fields app]; auto.
Qed.

End ProcessResults.

Section ProcessMore.
Context {U : UnicodeDB}.


Lemma quest_outcomes_in self embed count include_gender out :
  In out (quest_outcomes self embed count include_gender) <->
  exists field line,
    List.find is_quest_field (Embed.fields embed) = Some field /\
    In line (split_on 10 (Field.value field)) /\
    line_outcome self count include_gender line = Some out.
Proof.
  unfold quest_outcomes.
  destruct (List.find is_quest_field (Embed.fields embed)) as [field|].
  - rewrite in_omap. split.
    + intros (line & Hline & Hout). exists field, line. auto.
    + intros (field' & line & [= <-] & Hline & Hout). exists line. auto.
  - split; [intros [] | intros (? & ? & ? & _); discriminate].
Qed.

Lemma find_matching_some_type self q count :
  find_matching_pokemon self q count <> [] ->
  QuestInfo.type q = Gender \/ QuestInfo.type q = TypeRegion.
Proof.
  unfold find_matching_pokemon.
  destruct (QuestInfo.type q); auto; intros H; contradiction H; reflexivity.
Qed.

Lemma find_matching_length self q count :
  (length (find_matching_pokemon self q count) <= Z.to_nat count)%nat.
Proof.
  destruct (find_matching_blocks self q count)
    as (t1 & t2 & t3 & _ & _ & _ & _ & _ & _ & Hlen & ->).
  rewrite !length_app in *. rewrite !length_map. exact Hlen.
Qed.

(** What an outcome of the field is. *)
Lemma quest_outcomes_facts self embed count include_gender out :
  In out (quest_outcomes self embed count include_gender) ->
  snd out = find_matching_pokemon self (fst out) count /\
  (1 <= length (snd out) <= Z.to_nat count)%nat /\
  (QuestInfo.type (fst out) = Gender /\ include_gender = true
   \/ QuestInfo.type (fst out) = TypeRegion).
Proof.
  intros Hin. apply quest_outcomes_in in Hin as (field & line & _ & _ & Hout).
  destruct out as [q ms].
  apply line_outcome_some in Hout as (_ & _ & _ & Hinc & -> & Hne).
  cbn [fst snd]. split; [reflexivity|]. split.
  - split; [|apply find_matching_length].
    destruct (find_matching_pokemon self q count); [congruence | simpl; lia].
  - destruct (find_matching_some_type _ _ _ Hne) as [Hg | Ht]; auto.
Qed.

Lemma suggestion_text_lines quest_text matches :
  suggestion_text quest_text matches =
  lit "**Quest:** " ++ quest_text ++ [10%N]
  ++ concat (List.map (fun m => format_pokemon_info m ++ [10%N]) matches).
Proof.
  unfold suggestion_text.
  generalize (lit "**Quest:** ") as head. intros head.
  replace (head ++ quest_text ++ [10%N]
           ++ concat (List.map (fun m => format_pokemon_info m ++ [10%N]) matches))
    with ((head ++ quest_text ++ [10%N])
          ++ concat (List.map (fun m => format_pokemon_info m ++ [10%N]) matches))
    by (repeat rewrite <- app_assoc; reflexivity).
  generalize (head ++ quest_text ++ [10%N]) as acc.
  induction matches as [|m ms IH]; intros acc; cbn [fold_left List.map concat].
  - symmetry. apply app_nil_r.
  - rewrite IH. repeat rewrite <- app_assoc. reflexivity.
Qed.

(** Only the quests that are no gender quests add names. *)
Lemma gathered_names_filter outs st :
  all_suggested_pokemon (fold_left add_outcome outs st) =
  all_suggested_pokemon
    (fold_left add_outcome
       (List.filter (fun out => negb (is_gender_outcome out)) outs) st).
Proof.
  revert st. induction outs as [|out outs IH]; intros st; simpl; [reflexivity|].
  destruct (is_gender_outcome out) eqn:Hg; simpl.
  - rewrite IH.
    assert (Hst : forall outs' st1 st2,
              all_suggested_pokemon st1 = all_suggested_pokemon st2 ->
              all_suggested_pokemon (fold_left add_outcome outs' st1) =
              all_suggested_pokemon (fold_left add_outcome outs' st2)).
    { clear. induction outs' as [|o os IH]; intros st1 st2 H; simpl; [exact H|].
      apply IH. unfold add_outcome.
      destruct (is_gender_outcome o); cbn [all_suggested_pokemon]; rewrite H;
        reflexivity. }
    apply Hst. unfold add_outcome. rewrite Hg. reflexivity.
  - apply IH.
Qed.

End ProcessMore.

Section RaiseFacts.
Context {U : UnicodeDB}.




End RaiseFacts.


(** X15: [process_quest_embed] reads one field only, the first whose name
    has a keyword: the fields before it and after it change nothing in what
    it returns. *)
Theorem process_quest_embed_first_field (U : UnicodeDB) (self : Cog)
    (EMBED_COLOR : Z) (embed : Embed.t) (count : Z) (include_gender : bool)
    (before after : list Field.t) (field : Field.t) :
  Embed.fields embed = before ++ field :: after ->
  forallb (fun f => negb (is_quest_field f)) before = true ->
  is_quest_field field = true ->
  process_quest_embed self EMBED_COLOR embed count include_gender =
  process_quest_embed self EMBED_COLOR
    {| Embed.title := Embed.title embed;
       Embed.description := Embed.description embed;
       Embed.color := Embed.color embed;
       Embed.fields := [field];
       Embed.footer := Embed.footer embed |}
    count include_gender.
Proof.
  intros Hfields Hbefore Hfield.
  unfold process_quest_embed. rewrite Hfields. cbn [Embed.fields List.find].
  rewrite Hfield.
  assert (Hfind : List.find is_quest_field (before ++ field :: after) = Some field).
  { clear Hfields. induction before as [|f before IH]; cbn [app List.find].
    - rewrite Hfield. reflexivity.
    - cbn [forallb] in Hbefore. apply andb_true_iff in Hbefore as [Hf Hrest].
      apply negb_true_iff in Hf. rewrite Hf. exact (IH Hrest). }
  rewrite Hfind. reflexivity.
Qed.

(** The field Info has no keyword; the field More quests comes second. *)
Lemma process_quest_embed_first_field_witness :
  process_quest_embed (U := Latin1.db) example_cog 0 example_embed 2 true =
  process_quest_embed (U := Latin1.db) example_cog 0
    {| Embed.title := Embed.title example_embed;
       Embed.description := Embed.description example_embed;
       Embed.color := Embed.color example_embed;
       Embed.fields :=
         [ Field.mk (lit "Daily Quests")
             (lit "1. Catch 3 Fire-type Pokémon `0/3`" ++ [10%N]
              ++ lit "2. Catch 2 Male Pokémon <:male:1>" ++ [10%N]
              ++ lit "Reward: 500" ++ [10%N]
              ++ lit "3. Breed 2 Pokémon" ++ [10%N]
              ++ lit "  4. Catch 1 Johto Pokémon")
             false ];
       Embed.footer := Embed.footer example_embed |}
    2 true.
Proof.
  apply (process_quest_embed_first_field Latin1.db example_cog 0 example_embed
           2 true
           [Field.mk (lit "Info") (lit "1. Catch them all") false]
           [Field.mk (lit "More quests") (lit "1. Catch 5 Grass-type Pokémon") false]).
  - reflexivity.
  - vm_compute. reflexivity.
  - vm_compute. reflexivity.
Defined.

(** X16: the details embed. When [process_quest_embed] returns the two
    embeds, at least one line had an outcome; every outcome is a gender or a
    type/region quest with between 1 and [count] species, those of
    [find_matching_pokemon]; the details embed has one field with an empty
    name for each of the first 25 outcomes, in the order of the lines, its
    value being the cleaned quest after [**Quest:**] and one line per
    species; after these comes the field of the complete list unless every
    outcome is a gender quest, so there are 26 fields at most; and the footer
    is set exactly when there are more than 25 outcomes, with their
    number. *)
Theorem process_quest_embed_details (U : UnicodeDB) (self : Cog)
    (EMBED_COLOR : Z) (embed : Embed.t) (count : Z) (include_gender : bool)
    (summary details : Embed.t) :
  process_quest_embed self EMBED_COLOR embed count include_gender =
    Ok (Some (summary, details)) ->
  let outs := quest_outcomes self embed count include_gender in
  outs <> [] /\
  Forall
    (fun out =>
       snd out = find_matching_pokemon self (fst out) count /\
       (1 <= length (snd out) <= Z.to_nat count)%nat /\
       (QuestInfo.type (fst out) = Gender \/
        QuestInfo.type (fst out) = TypeRegion) /\
       outcome_text out =
         lit "**Quest:** " ++ clean_quest_text (QuestInfo.text (fst out))
         ++ [10%N]
         ++ concat (List.map (fun m => format_pokemon_info m ++ [10%N]) (snd out)))
    outs /\
  (exists complete,
     Embed.fields details =
       List.map (fun out => Field.mk [] (outcome_text out) false) (firstn 25 outs)
       ++ complete /\
     (complete = [] /\ forallb is_gender_outcome outs = true
      \/ (exists names,
            complete = [Field.mk (lit "📝 Complete List") names false]) /\
         forallb is_gender_outcome outs = false)) /\
  (length (Embed.fields details) <= 26)%nat /\
  Embed.footer details =
    if (25 <? length outs)%nat
    then Some (lit "Showing 25 of " ++ str_of_int (Z.of_nat (length outs))
               ++ lit " quests")
    else None.
Proof.
  intros Hreply outs.
  rewrite process_quest_embed_outcomes in Hreply. fold outs in Hreply.
  destruct (quest_raises embed); [discriminate|].
  destruct outs as [|out outs'] eqn:Houts; [discriminate|].
  rewrite <- Houts in *. injection Hreply as Hreply.
  set (st := fold_left add_outcome outs _) in Hreply.
  destruct (build_embeds_spec EMBED_COLOR embed count st)
    as (_ & Hfields & _ & Hfooter).
  cbv zeta in Hfields. rewrite Hreply in Hfields, Hfooter. cbn [snd] in *.
  assert (Hsug : suggestions st = List.map outcome_text outs).
  { subst st. rewrite gathered_suggestions. reflexivity. }
  rewrite Hsug in Hfields, Hfooter. rewrite length_map in Hfooter.
  rewrite firstn_map, map_map in Hfields.
  assert (Hnames : all_suggested_pokemon st = ∅ <->
                   forallb is_gender_outcome outs = true).
  { subst st. split.
    - intros Hempty. apply forallb_forall. intros o Ho.
      destruct (is_gender_outcome o) eqn:Hg; [reflexivity|].
      destruct (quest_outcomes_facts self embed count include_gender o)
        as (_ & [Hlen _] & _); [subst outs; exact Ho|].
      destruct (snd o) as [|m ms] eqn:Hms; [simpl in Hlen; lia|].
      assert (Hin : Pokemon.name (Match.data m)
                    ∈ all_suggested_pokemon
                        (fold_left add_outcome outs
                           {| suggestions := []; all_suggested_pokemon := ∅;
                              gender_suggestions := [] |})).
      { apply gathered_names. right. exists o, m.
        rewrite Hms. repeat split; auto. left. reflexivity. }
      rewrite Hempty in Hin. set_solver.
    - intros Hall. apply leibniz_equiv. apply elem_of_equiv_empty. intros n Hn.
      apply gathered_names in Hn as [Hn | (o & m & Ho & Hg & _)].
      + cbn [all_suggested_pokemon] in Hn. set_solver.
      + rewrite forallb_forall in Hall. rewrite (Hall o Ho) in Hg. discriminate. }
  split; [rewrite Houts; discriminate|].
  split.
  { apply Forall_forall. intros o Ho.
    destruct (quest_outcomes_facts self embed count include_gender o)
      as (Hms & Hlen & Htype); [subst outs; exact Ho|].
    repeat split; try tauto; try lia.
    apply suggestion_text_lines. }
  split.
  { eexists. split; [exact Hfields|].
    destruct (bool_decide_reflect (all_suggested_pokemon st = ∅)) as [He | He].
    - left. split; [reflexivity | apply Hnames, He].
    - right. split; [eexists; reflexivity|].
      destruct (forallb is_gender_outcome outs) eqn:Hall; [|reflexivity].
      contradiction He. apply Hnames. reflexivity. }
  split; [|exact Hfooter].
  rewrite Hfields, length_app, length_map, length_firstn.
  destruct (bool_decide (all_suggested_pokemon st = ∅)); cbn [length]; lia.
Qed.

(** The example has three outcomes. *)
Lemma process_quest_embed_details_witness :
  length (Embed.fields (snd (example_reply true))) = 4%nat /\
  Embed.footer (snd (example_reply true)) = None.
Proof.
  pose proof (process_quest_embed_details Latin1.db example_cog 0 example_embed
                2 true (fst (example_reply true)) (snd (example_reply true)))
    as H.
  cbv zeta in H.
  destruct H as (_ & _ & (complete & Hfields & _) & _ & Hfooter).
  - vm_compute. reflexivity.
  - split; [vm_compute; reflexivity | rewrite Hfooter; vm_compute; reflexivity].
Defined.

Section ProcessSummary.
Context {U : UnicodeDB}.

(** Leaving gender quests out removes their outcomes and nothing else. *)
Lemma line_outcome_without_gender self count line :
  line_outcome self count false line =
  match line_outcome self count true line with
  | Some out => if is_gender_outcome out then None else Some out
  | None => None
  end.
Proof.
  unfold line_outcome.
  destruct (strip line) as [|c s]; [reflexivity|].
  destruct (bool_decide (is_Some (Pat.search numbered_re (c :: s))));
    [|reflexivity].
  destruct (parse_quest line) as [q|e]; [|reflexivity].
  unfold is_gender_outcome.
  destruct (bool_decide (QuestInfo.type q = Gender)) eqn:Hg; cbn [negb andb];
    destruct (find_matching_pokemon self q count) as [|m ms];
    cbn [fst]; rewrite ?Hg; reflexivity.
Qed.

Lemma quest_outcomes_without_gender self embed count :
  quest_outcomes self embed count false =
  List.filter (fun out => negb (is_gender_outcome out))
    (quest_outcomes self embed count true).
Proof.
  unfold quest_outcomes.
  destruct (List.find is_quest_field (Embed.fields embed)) as [field|];
    [|reflexivity].
  induction (split_on 10 (Field.value field)) as [|line lines IH];
    cbn [omap list_omap]; [reflexivity|].
  rewrite line_outcome_without_gender.
  destruct (line_outcome self count true line) as [out|]; [|exact IH].
  cbn [List.filter]. destruct (is_gender_outcome out); cbn [negb];
    rewrite <- IH; reflexivity.
Qed.

(** The gender fields of the summary embed. *)
Lemma gathered_gender_fields outs :
  List.map (fun g => Field.mk (lit "Gender Pokémon") (GenderInfo.text g) false)
    (gender_suggestions
       (fold_left add_outcome outs
          {| suggestions := []; all_suggested_pokemon := ∅;
             gender_suggestions := [] |})) =
  List.map gender_field (List.filter is_gender_outcome outs).
Proof.
  pose proof (gathered_gender outs
                {| suggestions := []; all_suggested_pokemon := ∅;
                   gender_suggestions := [] |}) as H.
  cbn [gender_suggestions List.map app] in H.
  rewrite <- (map_map GenderInfo.text
                (fun t => Field.mk (lit "Gender Pokémon") t false)), H, map_map.
  reflexivity.
Qed.

(** The fields of the summary embed, from the outcomes. *)
Lemma summary_fields EMBED_COLOR embed count outs :
  let st :=
    fold_left add_outcome outs
      {| suggestions := []; all_suggested_pokemon := ∅;
         gender_suggestions := [] |} in
  Embed.fields (fst (build_embeds EMBED_COLOR embed count st)) =
    match sorted_names (all_suggested_pokemon st) with
    | [] => []
    | _ :: _ =>
        [Field.mk (lit "📝 Suggested Pokémon")
           (join (lit ", ") (sorted_names (all_suggested_pokemon st))) false]
    end
    ++ match List.filter is_gender_outcome outs with
       | [] => []
       | _ :: _ =>
           Field.mk (lit "─────────────────────") [] false
           :: List.map gender_field (List.filter is_gender_outcome outs)
       end.
Proof.
  intros st.
  destruct (build_embeds_spec EMBED_COLOR embed count st) as (Hfields & _).
  cbv zeta in Hfields. rewrite Hfields. f_equal.
  - destruct (sorted_names_spec (all_suggested_pokemon st)) as (_ & _ & _ & Hnil).
    destruct (bool_decide_reflect (all_suggested_pokemon st = ∅)) as [He | He].
    + rewrite (proj2 Hnil He). reflexivity.
    + destruct (sorted_names (all_suggested_pokemon st)); [|reflexivity].
      contradiction He. apply Hnil. reflexivity.
  - pose proof (gathered_gender_fields outs) as Hg. fold st in Hg.
    destruct (gender_suggestions st) as [|g gs];
      destruct (List.filter is_gender_outcome outs) as [|o os];
      try discriminate; [reflexivity|].
    rewrite Hg. reflexivity.
Qed.

End ProcessSummary.

(** X17: the summary embed. Its first field, present unless every outcome
    is a gender quest, lists in ascending order and once each the names of
    the species suggested for the quests that are no gender quests, none of
    them a regional variant; the same list closes the details embed. Then,
    when there is a gender quest with an outcome, come a separator and one
    field per such quest, in the order of the lines, all named
    [Gender Pokémon]. The footer is always set. *)
Theorem process_quest_embed_summary (U : UnicodeDB) (self : Cog)
    (EMBED_COLOR : Z) (embed : Embed.t) (count : Z) (include_gender : bool)
    (summary details : Embed.t) :
  process_quest_embed self EMBED_COLOR embed count include_gender =
    Ok (Some (summary, details)) ->
  let outs := quest_outcomes self embed count include_gender in
  exists names,
    Sorted (fun a b => Is_true (str_leb a b)) names /\
    NoDup names /\
    (forall n,
       In n names <->
       exists out m,
         In out outs /\ QuestInfo.type (fst out) <> Gender /\
         In m (snd out) /\ Pokemon.name (Match.data m) = n) /\
    Forall (fun n => is_regional_variant n = false) names /\
    Embed.fields summary =
      match names with
      | [] => []
      | _ :: _ =>
          [Field.mk (lit "📝 Suggested Pokémon") (join (lit ", ") names) false]
      end
      ++ match List.filter is_gender_outcome outs with
         | [] => []
         | _ :: _ =>
             Field.mk (lit "─────────────────────") [] false
             :: List.map gender_field (List.filter is_gender_outcome outs)
         end /\
    (names <> [] ->
     exists quests,
       Embed.fields details =
       quests
       ++ [Field.mk (lit "📝 Complete List") (join (lit ", ") names) false]) /\
    Embed.footer summary =
      Some (lit "Click " ++ [34%N] ++ lit "View Details" ++ [34%N]
            ++ lit " for the complete breakdown").
Proof.
  intros Hreply outs.
  rewrite process_quest_embed_outcomes in Hreply. fold outs in Hreply.
  destruct (quest_raises embed); [discriminate|].
  destruct outs as [|out outs'] eqn:Houts; [discriminate|].
  rewrite <- Houts in *. injection Hreply as Hreply.
  pose proof (summary_fields EMBED_COLOR embed count outs) as Hsummary.
  cbv zeta in Hsummary.
  set (st := fold_left add_outcome outs _) in *.
  destruct (build_embeds_spec EMBED_COLOR embed count st)
    as (_ & Hdetails & Hfooter & _).
  cbv zeta in Hdetails. rewrite Hreply in Hsummary, Hdetails, Hfooter.
  cbn [fst snd] in *.
  destruct (sorted_names_spec (all_suggested_pokemon st))
    as (Hsorted & Hnodup & Hin & Hnil).
  assert (Hnames : forall n,
            In n (sorted_names (all_suggested_pokemon st)) <->
            exists out m,
              In out outs /\ QuestInfo.type (fst out) <> Gender /\
              In m (snd out) /\ Pokemon.name (Match.data m) = n).
  { intros n. rewrite Hin. subst st. rewrite gathered_names.
    cbn [all_suggested_pokemon]. split.
    - intros [H | (o & m & Ho & Hg & Hm)]; [set_solver|].
      exists o, m. split; [exact Ho|]. split; [|exact Hm].
      apply bool_decide_eq_false in Hg. exact Hg.
    - intros (o & m & Ho & Hg & Hm). right. exists o, m.
      split; [exact Ho|]. split; [|exact Hm].
      apply bool_decide_eq_false. exact Hg. }
  exists (sorted_names (all_suggested_pokemon st)).
  split; [exact Hsorted|]. split; [exact Hnodup|]. split; [exact Hnames|].
  split.
  { apply Forall_forall. intros n Hn.
    apply Hnames in Hn as (o & m & Ho & _ & Hm & <-).
    destruct (quest_outcomes_facts self embed count include_gender o)
      as (Hms & _); [subst outs; exact Ho|].
    rewrite Hms in Hm.
    apply find_matching_elements in Hm as (p & item & _ & _ & Hacc & ->).
    apply quest_accepts_inv in Hacc as [Hvariant _]. exact Hvariant. }
  split; [exact Hsummary|]. split; [|exact Hfooter].
  intros Hne. eexists. rewrite Hdetails. f_equal.
  rewrite bool_decide_eq_false_2; [reflexivity|].
  intros He. apply Hne, Hnil, He.
Qed.

(** The example: two names from two quests, and one gender quest. *)
Lemma process_quest_embed_summary_witness :
  exists names,
    Embed.fields (fst (example_reply true)) =
    [ Field.mk (lit "📝 Suggested Pokémon") (join (lit ", ") names) false;
      Field.mk (lit "─────────────────────") [] false;
      Field.mk (lit "Gender Pokémon")
        (lit "**2. Catch 2 Male Pokémon**" ++ [10%N]
         ++ lit "• Bulbasaur, Charmander") false ] /\
    In (lit "Cyndaquil") names.
Proof.
  destruct (process_quest_embed_summary Latin1.db example_cog 0 example_embed
              2 true (fst (example_reply true)) (snd (example_reply true)))
    as (names & _ & _ & Hnames & _ & Hfields & _).
  - vm_compute. reflexivity.
  - exists names. split.
    + rewrite Hfields.
      assert (Hin : In (lit "Cyndaquil") names).
      { apply Hnames.
        exists (nth 2 (quest_outcomes (U := Latin1.db) example_cog
                         example_embed 2 true)
                  ({| QuestInfo.text := []; QuestInfo.type := Unknown;
                      QuestInfo.region := None; QuestInfo.pokemon_type := None;
                      QuestInfo.count := 0; QuestInfo.gender := None |}, [])),
               cyndaquil.
        vm_compute. repeat split; auto. discriminate. }
      destruct names as [|n names']; [destruct Hin|].
      vm_compute. reflexivity.
    + apply Hnames.
      exists (nth 2 (quest_outcomes (U := Latin1.db) example_cog
                       example_embed 2 true)
                ({| QuestInfo.text := []; QuestInfo.type := Unknown;
                    QuestInfo.region := None; QuestInfo.pokemon_type := None;
                    QuestInfo.count := 0; QuestInfo.gender := None |}, [])),
             cyndaquil.
      vm_compute. repeat split; auto. discriminate.
Defined.

(** X18: leaving the gender quests out. With [include_gender] false the
    outcomes are those of the call with [include_gender] true that are no
    gender quests; when the call returns the embeds, the summary embed has
    one field, the list of suggested species, and the call that includes the
    gender quests returns embeds too, with the same field first and only the
    gender fields after it. *)
Theorem process_quest_embed_without_gender (U : UnicodeDB) (self : Cog)
    (EMBED_COLOR : Z) (embed : Embed.t) (count : Z) (summary details : Embed.t) :
  process_quest_embed self EMBED_COLOR embed count false =
    Ok (Some (summary, details)) ->
  quest_outcomes self embed count false =
    List.filter (fun out => negb (is_gender_outcome out))
      (quest_outcomes self embed count true) /\
  exists names,
    Embed.fields summary =
      [Field.mk (lit "📝 Suggested Pokémon") names false] /\
    exists summary' details',
      process_quest_embed self EMBED_COLOR embed count true =
        Ok (Some (summary', details')) /\
      Embed.fields summary' =
        Embed.fields summary
        ++ match List.filter is_gender_outcome
                   (quest_outcomes self embed count true) with
           | [] => []
           | _ :: _ =>
               Field.mk (lit "─────────────────────") [] false
               :: List.map gender_field
                    (List.filter is_gender_outcome
                       (quest_outcomes self embed count true))
           end.
Proof.
  intros Hreply.
  pose proof (quest_outcomes_without_gender self embed count) as Hfilter.
  split; [exact Hfilter|].
  rewrite process_quest_embed_outcomes in Hreply.
  rewrite (process_quest_embed_outcomes self EMBED_COLOR embed count true).
  destruct (quest_raises embed); [discriminate|].
  set (outs := quest_outcomes self embed count true) in *.
  set (outs0 := quest_outcomes self embed count false) in *.
  destruct outs0 as [|o0 os0] eqn:Houts0; [discriminate|].
  rewrite <- Houts0 in *. injection Hreply as Hreply.
  pose proof (summary_fields EMBED_COLOR embed count outs0) as Hs0.
  pose proof (summary_fields EMBED_COLOR embed count outs) as Hs.
  cbv zeta in Hs0, Hs. rewrite Hreply in Hs0. cbn [fst] in Hs0.
  assert (Hset : all_suggested_pokemon
                   (fold_left add_outcome outs0
                      {| suggestions := []; all_suggested_pokemon := ∅;
                         gender_suggestions := [] |}) =
                 all_suggested_pokemon
                   (fold_left add_outcome outs
                      {| suggestions := []; all_suggested_pokemon := ∅;
                         gender_suggestions := [] |})).
  { rewrite (gathered_names_filter outs), Hfilter. reflexivity. }
  assert (Hnog : List.filter is_gender_outcome outs0 = []).
  { rewrite Hfilter. clear. induction outs as [|o os IH]; [reflexivity|].
    cbn [List.filter]. destruct (is_gender_outcome o) eqn:Hg; cbn [negb];
      [exact IH|]. cbn [List.filter]. rewrite Hg. exact IH. }
  rewrite Hnog, app_nil_r in Hs0.
  assert (Hne : sorted_names
                  (all_suggested_pokemon
                     (fold_left add_outcome outs0
                        {| suggestions := []; all_suggested_pokemon := ∅;
                           gender_suggestions := [] |})) <> []).
  { intros Hnil.
    destruct (sorted_names_spec
                (all_suggested_pokemon
                   (fold_left add_outcome outs0
                      {| suggestions := []; all_suggested_pokemon := ∅;
                         gender_suggestions := [] |})))
      as (_ & _ & Hin & _).
    rewrite Hnil in Hin.
    assert (Ho0 : In o0 outs0) by (rewrite Houts0; left; reflexivity).
    destruct (quest_outcomes_facts self embed count false o0 Ho0)
      as (_ & [Hlen _] & Htype).
    destruct (snd o0) as [|m ms] eqn:Hms; [simpl in Hlen; lia|].
    apply (Hin (Pokemon.name (Match.data m))).
    apply gathered_names. right. exists o0, m.
    split; [exact Ho0|]. split.
    - apply bool_decide_eq_false. destruct Htype as [[_ ?] | Ht];
        [discriminate | rewrite Ht; discriminate].
    - rewrite Hms. split; [left|]; reflexivity. }
  destruct (sorted_names _) as [|n ns] eqn:Hsorted in Hs0; [|clear Hne].
  { contradiction Hne. }
  eexists. split; [exact Hs0|].
  destruct outs as [|o os] eqn:Houts.
  { rewrite Houts0 in Hfilter. discriminate. }
  rewrite <- Houts in *.
  eexists _, _. split; [rewrite <- surjective_pairing; reflexivity|].
  rewrite Hs, Hs0, <- Hset, Hsorted. reflexivity.
Qed.

(** The example without its gender quest. *)
Lemma process_quest_embed_without_gender_witness :
  length (quest_outcomes (U := Latin1.db) example_cog example_embed 2 false)
  = 2%nat.
Proof.
  rewrite (proj1 (process_quest_embed_without_gender Latin1.db example_cog 0
                    example_embed 2 (fst (example_reply false))
                    (snd (example_reply false)) ltac:(vm_compute; reflexivity))).
  vm_compute. reflexivity.
Defined.

(** ** The text of a quest as it is shown *)

Section CleanFacts.
Context {U : UnicodeDB}.

(** A greedy run stops where the class stops, when the rest matches
    there. *)
Lemma repeat_max_stop {A} (p : N -> bool) (k : pystr -> option A) pre s' :
  forallb p pre = true ->
  match s' with c :: _ => p c = false | [] => True end ->
  is_Some (k s') ->
  Re.repeat_max p (pre ++ s') k = k s'.
Proof.
  intros Hpre Hs' [r Hk]. induction pre as [|c pre IH]; cbn [app].
  - destruct s' as [|c s']; cbn [Re.repeat_max]; [reflexivity|].
    rewrite Hs'. reflexivity.
  - cbn [forallb] in Hpre. apply andb_true_iff in Hpre as [Hc Hpre].
    cbn [Re.repeat_max]. rewrite Hc, (IH Hpre), Hk. reflexivity.
Qed.

(** With an empty replacement [re.sub] only deletes. *)
Lemma sub_from_sublist (p : Pat.pattern) (first : bool) (s : pystr) (skip : nat) :
  sublist (Pat.sub_from p [] first s skip) s.
Proof.
  revert first skip. induction s as [|c s IH]; intros first skip;
    cbn [Pat.sub_from].
  - constructor.
  - destruct skip as [|skip]; [|apply sublist_cons, IH].
    destruct (Pat.match_here p first (c :: s)).
    + cbn [app]. apply sublist_cons, IH.
    + apply sublist_skip, IH.
Qed.

Lemma strip_sublist (s : pystr) : sublist (strip s) s.
Proof.
  destruct (strip_inside s) as (a & b & Hs). rewrite Hs at 2.
  apply sublist_inserts_l, sublist_inserts_r. reflexivity.
Qed.

(** The characters of a match are passed over. *)
Lemma sub_from_skip (p : Pat.pattern) (repl : pystr) (first : bool)
    (m rest : pystr) :
  Pat.sub_from p repl first (m ++ rest) (length m) =
  Pat.sub_from p repl (first && (length m =? 0)%nat) rest 0.
Proof.
  revert first. induction m as [|c m IH]; intros first; cbn [app length].
  - rewrite andb_true_r. reflexivity.
  - cbn [Pat.sub_from]. rewrite IH, andb_false_r. cbn [andb]. reflexivity.
Qed.

(** A pattern that opens with a character matches nowhere in a text
    without it. *)
Lemma sub_from_no_head (c0 : N) (p : Pat.pattern) (repl : pystr) (first : bool)
    (pre s : pystr) :
  forallb (fun c => negb (c =? c0)%N) pre = true ->
  Pat.sub_from (Pat.Cat (Pat.One (Pat.Chr c0)) p) repl first (pre ++ s) 0 =
  pre ++ Pat.sub_from (Pat.Cat (Pat.One (Pat.Chr c0)) p) repl
           (first && (length pre =? 0)%nat) s 0.
Proof.
  revert first. induction pre as [|c pre IH]; intros first Hpre; cbn [app length].
  - rewrite andb_true_r. reflexivity.
  - cbn [forallb] in Hpre. apply andb_true_iff in Hpre as [Hc Hpre].
    apply negb_true_iff in Hc. rewrite N.eqb_sym in Hc.
    cbn [Pat.sub_from]. unfold Pat.match_here. cbn [Pat.exec Pat.accepts].
    rewrite Hc, (IH false Hpre), andb_false_r. reflexivity.
Qed.

Lemma sub_no_head (c0 : N) (p : Pat.pattern) (repl s : pystr) :
  forallb (fun c => negb (c =? c0)%N) s = true ->
  Pat.sub (Pat.Cat (Pat.One (Pat.Chr c0)) p) repl s = s.
Proof.
  intros Hs. unfold Pat.sub.
  rewrite <- (app_nil_r s) at 1. rewrite (sub_from_no_head _ _ _ _ _ _ Hs).
  cbn [Pat.sub_from]. apply app_nil_r.
Qed.

(** A match at the head of the text is replaced, and the search goes on
    after it. *)
Lemma sub_from_match (p : Pat.pattern) (repl : pystr) (first : bool)
    (c : N) (m rest : pystr) :
  Pat.match_here p first (c :: m ++ rest) = Some rest ->
  Pat.sub_from p repl first (c :: m ++ rest) 0 =
  repl ++ Pat.sub_from p repl false rest 0.
Proof.
  intros Hm. cbn [Pat.sub_from]. rewrite Hm. f_equal.
  rewrite length_app, Nat.add_sub, sub_from_skip.
  destruct m; reflexivity.
Qed.

(** An emoji tag is matched as a whole. *)
Lemma emoji_re_match (first : bool) (name post : pystr) :
  name <> [] -> forallb (fun c => negb (c =? 62)%N) name = true ->
  Pat.match_here emoji_re first
    (60%N :: ([58%N] ++ name ++ [62%N]) ++ post) = Some post.
Proof.
  intros Hne Hname. destruct name as [|c name]; [congruence|].
  cbn [forallb] in Hname. apply andb_true_iff in Hname as [Hc Hname].
  unfold Pat.match_here, emoji_re. repeat rewrite <- app_assoc.
  cbn [app Pat.exec Pat.accepts]. rewrite !N.eqb_refl.
  rewrite N.eqb_sym in Hc. rewrite Hc.
  rewrite repeat_max_stop.
  - rewrite N.eqb_refl. reflexivity.
  - apply forallb_forall. intros x Hx.
    rewrite forallb_forall in Hname. specialize (Hname x Hx).
    cbn [Pat.accepts]. rewrite N.eqb_sym. exact Hname.
  - reflexivity.
  - rewrite N.eqb_refl. eauto.
Qed.

(** A progress mark is matched as a whole, when neither a solidus nor a
    backquote counts as a digit. *)
Lemma progress_re_match (first : bool) (a b post : pystr) :
  isdecimal 47 = false -> isdecimal 96 = false ->
  a <> [] -> forallb isdecimal a = true ->
  b <> [] -> forallb isdecimal b = true ->
  Pat.match_here progress_re first
    (96%N :: (a ++ [47%N] ++ b ++ [96%N]) ++ post) = Some post.
Proof.
  intros H47 H96 Ha Hda Hb Hdb.
  destruct a as [|x a]; [congruence|]. destruct b as [|y b]; [congruence|].
  cbn [forallb] in Hda, Hdb.
  apply andb_true_iff in Hda as [Hx Hda]. apply andb_true_iff in Hdb as [Hy Hdb].
  unfold Pat.match_here, progress_re. repeat rewrite <- app_assoc.
  cbn [app Pat.exec Pat.accepts]. rewrite !N.eqb_refl, Hx.
  rewrite repeat_max_stop; [| exact Hda | exact H47 |].
  - rewrite N.eqb_refl, Hy.
    rewrite repeat_max_stop;
      [rewrite N.eqb_refl; reflexivity | exact Hdb | exact H96
       | rewrite N.eqb_refl; eauto].
  - rewrite N.eqb_refl, Hy.
    rewrite repeat_max_stop;
      [rewrite N.eqb_refl; eauto | exact Hdb | exact H96
       | rewrite N.eqb_refl; eauto].
Qed.

End CleanFacts.

(** X19: [re.sub] with an empty replacement and [strip] only delete: the
    quest text that is shown is a subsequence of the line, and it has no
    whitespace at either end. A line without [<] and without a backquote is
    shown as [strip] leaves it. *)
Theorem clean_quest_text_deletes (U : UnicodeDB) (text : pystr) :
  sublist (clean_quest_text text) text /\
  trimmed (clean_quest_text text) /\
  (forallb (fun c => negb (c =? 60)%N && negb (c =? 96)%N) text = true ->
   clean_quest_text text = strip text).
Proof.
  unfold clean_quest_text. split; [|split].
  - etransitivity; [apply strip_sublist|].
    etransitivity; apply sub_from_sublist.
  - apply strip_trimmed.
  - intros Hfree.
    assert (H60 : forallb (fun c => negb (c =? 60)%N) text = true).
    { apply forallb_forall. intros c Hc.
      rewrite forallb_forall in Hfree. specialize (Hfree c Hc).
      apply andb_true_iff in Hfree as [H _]. exact H. }
    assert (H96 : forallb (fun c => negb (c =? 96)%N) text = true).
    { apply forallb_forall. intros c Hc.
      rewrite forallb_forall in Hfree. specialize (Hfree c Hc).
      apply andb_true_iff in Hfree as [_ H]. exact H. }
    unfold emoji_re, progress_re.
    rewrite (sub_no_head 60 _ _ _ H60), (sub_no_head 96 _ _ _ H96).
    reflexivity.
Qed.

(** X20: what is taken out of the quest text. In a line that has no other
    [<] and no backquote, an emoji tag [<:name>] (the name not empty and
    without [>]) is taken out as a whole; in a line without [<], a progress
    mark of two numbers between backquotes is taken out as a whole, given
    that neither the solidus nor the backquote counts as a decimal digit. *)
Theorem clean_quest_text_tags (U : UnicodeDB) (pre name a b post : pystr) :
  forallb (fun c => negb (c =? 60)%N && negb (c =? 96)%N) (pre ++ post) = true ->
  name <> [] -> forallb (fun c => negb (c =? 62)%N) name = true ->
  isdecimal 47 = false -> isdecimal 96 = false ->
  a <> [] -> forallb isdecimal a = true ->
  b <> [] -> forallb isdecimal b = true ->
  forallb (fun c => negb (c =? 60)%N) (a ++ b) = true ->
  clean_quest_text (pre ++ [60%N; 58%N] ++ name ++ [62%N] ++ post) =
    strip (pre ++ post) /\
  clean_quest_text (pre ++ [96%N] ++ a ++ [47%N] ++ b ++ [96%N] ++ post) =
    strip (pre ++ post).
Proof.
  intros Hfree Hname Hname' H47 H96 Ha Hda Hb Hdb Hab.
  assert (Hsplit : forall (f : N -> bool) (l1 l2 : pystr),
            forallb f (l1 ++ l2) = true ->
            forallb f l1 = true /\ forallb f l2 = true).
  { intros f l1 l2 H. rewrite forallb_app in H.
    apply andb_true_iff in H. exact H. }
  assert (H60 : forallb (fun c => negb (c =? 60)%N) (pre ++ post) = true).
  { apply forallb_forall. intros c Hc.
    rewrite forallb_forall in Hfree. specialize (Hfree c Hc).
    apply andb_true_iff in Hfree as [H _]. exact H. }
  assert (H96' : forallb (fun c => negb (c =? 96)%N) (pre ++ post) = true).
  { apply forallb_forall. intros c Hc.
    rewrite forallb_forall in Hfree. specialize (Hfree c Hc).
    apply andb_true_iff in Hfree as [_ H]. exact H. }
  destruct (Hsplit _ _ _ H60) as [Hpre60 Hpost60].
  destruct (Hsplit _ _ _ H96') as [Hpre96 Hpost96].
  destruct (Hsplit _ _ _ Hab) as [Ha60 Hb60].
  unfold clean_quest_text. split; f_equal.
  - assert (He : Pat.sub emoji_re []
                   (pre ++ [60%N; 58%N] ++ name ++ [62%N] ++ post) = pre ++ post).
    { unfold Pat.sub, emoji_re at 1.
      rewrite (sub_from_no_head 60 _ _ _ _ _ Hpre60). fold emoji_re. f_equal.
      change ([60%N; 58%N] ++ name ++ [62%N] ++ post)
        with (60%N :: [58%N] ++ name ++ [62%N] ++ post).
      replace ([58%N] ++ name ++ [62%N] ++ post)
        with (([58%N] ++ name ++ [62%N]) ++ post)
        by (repeat rewrite <- app_assoc; reflexivity).
      rewrite (sub_from_match emoji_re [] _ 60 _ post
                 (emoji_re_match _ name post Hname Hname')).
      cbn [app]. unfold emoji_re.
      rewrite <- (app_nil_r post) at 1.
      rewrite (sub_from_no_head 60 _ _ _ _ _ Hpost60).
      cbn [Pat.sub_from]. apply app_nil_r. }
    rewrite He. unfold progress_re. apply (sub_no_head 96 _ _ _ H96').
  - assert (Hall60 : forallb (fun c => negb (c =? 60)%N)
                       (pre ++ [96%N] ++ a ++ [47%N] ++ b ++ [96%N] ++ post) = true).
    { rewrite !forallb_app, Hpre60, Ha60, Hb60, Hpost60. reflexivity. }
    unfold emoji_re. rewrite (sub_no_head 60 _ _ _ Hall60).
    unfold Pat.sub, progress_re at 1.
    rewrite (sub_from_no_head 96 _ _ _ _ _ Hpre96). fold progress_re. f_equal.
    change ([96%N] ++ a ++ [47%N] ++ b ++ [96%N] ++ post)
      with (96%N :: a ++ [47%N] ++ b ++ [96%N] ++ post).
    replace (a ++ [47%N] ++ b ++ [96%N] ++ post)
      with ((a ++ [47%N] ++ b ++ [96%N]) ++ post)
      by (repeat rewrite <- app_assoc; reflexivity).
    rewrite (sub_from_match progress_re [] _ 96 _ post
               (progress_re_match _ a b post H47 H96 Ha Hda Hb Hdb)).
    cbn [app]. unfold progress_re.
    rewrite <- (app_nil_r post) at 1.
    rewrite (sub_from_no_head 96 _ _ _ _ _ Hpost96).
    cbn [Pat.sub_from]. apply app_nil_r.
Qed.

(** A quest line with an emoji tag, and the same with a progress mark. *)
Lemma clean_quest_text_tags_witness :
  clean_quest_text (U := Latin1.db)
    (lit "1. Catch 3 Pokémon " ++ [60%N; 58%N] ++ lit "fire:12" ++ [62%N] ++ lit " ")
  = lit "1. Catch 3 Pokémon" /\
  clean_quest_text (U := Latin1.db)
    (lit "1. Catch 3 Pokémon " ++ [96%N] ++ lit "0" ++ [47%N] ++ lit "3" ++ [96%N]
     ++ lit " ")
  = lit "1. Catch 3 Pokémon".
Proof.
  destruct (clean_quest_text_tags Latin1.db (lit "1. Catch 3 Pokémon ")
              (lit "fire:12") (lit "0") (lit "3") (lit " ")) as [H1 H2];
    try (vm_compute; reflexivity); try discriminate.
  split; [rewrite H1 | rewrite H2]; vm_compute; reflexivity.
Defined.

(** ** The listener and the commands *)

Section HandlerFacts.
Context {U : UnicodeDB}.


(** What [process_and_reply] sends is the reply of [process_quest_embed]. *)
Lemma process_and_reply_sent self EMBED_COLOR message_id embed count gender out
    mid summary details :
  process_and_reply self EMBED_COLOR message_id embed count gender = Ok out ->
  In (Suggestions mid summary details) out ->
  out = [Suggestions mid summary details] /\ mid = message_id /\
  process_quest_embed self EMBED_COLOR embed count gender =
    Ok (Some (summary, details)).
Proof.
  unfold process_and_reply.
  destruct (process_quest_embed self EMBED_COLOR embed count gender)
    as [[[s d]|]|e]; cbn [mbind result_bind]; intros [= <-] Hin;
    [|destruct Hin].
  destruct Hin as [[= <- <- <-] | []]. auto.
Qed.

(** The first message with a quest embed. *)
Lemma first_quest_message_some history message embed :
  first_quest_message history = Some (message, embed) <->
  exists before after,
    history = before ++ message :: after /\
    Forall (fun m => quest_embed_of m = None) before /\
    quest_embed_of message = Some embed.
Proof.
  induction history as [|m history IH]; cbn [first_quest_message].
  - split; [discriminate|]. intros ([|] & ? & ? & _); discriminate.
  - destruct (quest_embed_of m) as [e|] eqn:Hm.
    + split.
      * intros [= <- <-]. exists [], history. auto.
      * intros ([|m' before] & after & Heq & Hbefore & Hembed).
        -- injection Heq as <- <-. congruence.
        -- injection Heq as <- _. apply Forall_cons_iff in Hbefore as [H _]. congruence.
    + rewrite IH. split.
      * intros (before & after & -> & Hbefore & Hembed).
        exists (m :: before), after. auto.
      * intros ([|m' before] & after & Heq & Hbefore & Hembed).
        -- injection Heq as <- <-. congruence.
        -- injection Heq as <- ->. apply Forall_cons_iff in Hbefore as [_ H].
           exists before, after. auto.
Qed.

Lemma count_checked (count : Z) :
  ((count <? 1) || (5 <? count)) = false <-> 1 <= count <= 5.
Proof.
  rewrite orb_false_iff, !Z.ltb_ge. lia.
Qed.

End HandlerFacts.



(** X22: the prefix command. When it sends suggestions, the count is
    between 1 and 5, nothing else is sent, the suggestions answer the message
    replied to, or without one the latest of the last 50 messages of the
    channel whose first embed is a quest embed, they are those of
    [process_quest_embed] for the count and the gender flag of the command,
    and no quest lists more than 5 species. *)
Theorem suggest_prefix_suggestions (U : UnicodeDB) (self : Cog)
    (EMBED_COLOR : Z) (count : Z) (gender : bool) (reference : option fetched)
    (history : list Message.t) (out : list sent) (message_id : Z)
    (summary details : Embed.t) :
  suggest_prefix self EMBED_COLOR count gender reference history = Ok out ->
  In (Suggestions message_id summary details) out ->
  1 <= count <= 5 /\
  out = [Suggestions message_id summary details] /\
  exists message embed,
    Message.id message = message_id /\
    quest_embed_of message = Some embed /\
    (reference = Some (Fetched message) \/
     reference = None /\
     exists before after,
       firstn 50 history = before ++ message :: after /\
       Forall (fun m => quest_embed_of m = None) before) /\
    process_quest_embed self EMBED_COLOR embed count gender =
      Ok (Some (summary, details)) /\
    Forall (fun o => (1 <= length (snd o) <= 5)%nat)
      (quest_outcomes self embed count gender).
Proof.
  unfold suggest_prefix. intros Hout Hin.
  destruct ((count <? 1) || (5 <? count)) eqn:Hcount.
  { injection Hout as <-. destruct Hin as [[=] | []]. }
  apply count_checked in Hcount. split; [exact Hcount|].
  assert (Hspecies : forall embed,
            Forall (fun o => (1 <= length (snd o) <= 5)%nat)
              (quest_outcomes self embed count gender)).
  { intros embed. apply Forall_forall. intros o Ho.
    destruct (quest_outcomes_facts self embed count gender o Ho)
      as (_ & Hlen & _). lia. }
  destruct reference as [[replied| |]|].
  - destruct (quest_embed_of replied) as [embed|] eqn:Hembed.
    + destruct (process_and_reply_sent _ _ _ _ _ _ _ _ _ _ Hout Hin)
        as (-> & -> & Hreply).
      split; [reflexivity|]. exists replied, embed. auto 10.
    + injection Hout as <-. destruct Hin as [[=] | []].
  - injection Hout as <-. destruct Hin as [[=] | []].
  - injection Hout as <-. destruct Hin as [[=] | []].
  - destruct (first_quest_message (firstn 50 history)) as [[message embed]|]
      eqn:Hfirst.
    + destruct (process_and_reply_sent _ _ _ _ _ _ _ _ _ _ Hout Hin)
        as (-> & -> & Hreply).
      apply first_quest_message_some in Hfirst
        as (before & after & Hhistory & Hbefore & Hembed).
      split; [reflexivity|]. exists message, embed.
      split; [reflexivity|]. split; [exact Hembed|].
      split; [right; eauto|]. auto.
    + injection Hout as <-. destruct Hin as [[=] | []].
Qed.

(** The command in reply to the example message. *)
Lemma suggest_prefix_suggestions_witness :
  suggest_prefix (U := Latin1.db) example_cog 0 2 true
    (Some (Fetched example_message)) [] =
  Ok [Suggestions 7 (fst (example_reply true)) (snd (example_reply true))].
Proof.
  destruct (suggest_prefix (U := Latin1.db) example_cog 0 2 true
              (Some (Fetched example_message)) []) as [out|e] eqn:Hout;
    [|vm_compute in Hout; discriminate].
  destruct (suggest_prefix_suggestions Latin1.db example_cog 0 2 true
              (Some (Fetched example_message)) [] out 7
              (fst (example_reply true)) (snd (example_reply true)) Hout)
    as (_ & -> & _).
  - vm_compute in Hout. injection Hout as <-. left. vm_compute. reflexivity.
  - reflexivity.
Defined.

(** X23: the slash command takes no reply into account. When it sends
    suggestions, the count is between 1 and 5, the suggestions answer the
    latest of the last 50 messages whose first embed is a quest embed, and
    they come between the deferral and the closing text. *)
Theorem suggest_slash_suggestions (U : UnicodeDB) (self : Cog)
    (EMBED_COLOR : Z) (count : Z) (gender : bool) (history : list Message.t)
    (out : list sent) (message_id : Z) (summary details : Embed.t) :
  suggest_slash self EMBED_COLOR count gender history = Ok out ->
  In (Suggestions message_id summary details) out ->
  1 <= count <= 5 /\
  out = [Defer; Suggestions message_id summary details;
         Text (lit "✅ Quest suggestions generated!") true] /\
  exists message embed before after,
    Message.id message = message_id /\
    quest_embed_of message = Some embed /\
    firstn 50 history = before ++ message :: after /\
    Forall (fun m => quest_embed_of m = None) before /\
    process_quest_embed self EMBED_COLOR embed count gender =
      Ok (Some (summary, details)) /\
    Forall (fun o => (1 <= length (snd o) <= 5)%nat)
      (quest_outcomes self embed count gender).
Proof.
  unfold suggest_slash. intros Hout Hin.
  destruct ((count <? 1) || (5 <? count)) eqn:Hcount.
  { injection Hout as <-. destruct Hin as [[=] | []]. }
  apply count_checked in Hcount. split; [exact Hcount|].
  destruct (first_quest_message (firstn 50 history)) as [[message embed]|]
    eqn:Hfirst.
  2: { injection Hout as <-. destruct Hin as [[=] | [[=] | []]]. }
  destruct (process_and_reply self EMBED_COLOR (Message.id message) embed
              count gender) as [replies|e] eqn:Hreplies;
    cbn [mbind result_bind] in Hout; [|discriminate].
  injection Hout as <-.
  destruct Hin as [[=] | Hin]. apply in_app_iff in Hin as [Hin | [[=] | []]].
  destruct (process_and_reply_sent _ _ _ _ _ _ _ _ _ _ Hreplies Hin)
    as (-> & -> & Hreply).
  split; [reflexivity|].
  apply first_quest_message_some in Hfirst
    as (before & after & Hhistory & Hbefore & Hembed).
  exists message, embed, before, after.
  repeat split; auto.
  apply Forall_forall. intros o Ho.
  destruct (quest_outcomes_facts self embed count gender o Ho)
    as (_ & Hlen & _). lia.
Qed.

(** The example message behind a message without a quest embed. *)
Lemma suggest_slash_suggestions_witness :
  suggest_slash (U := Latin1.db) example_cog 0 2 false
    [Message.mk 9 0 []; example_message] =
  Ok [Defer;
      Suggestions 7 (fst (example_reply false)) (snd (example_reply false));
      Text (lit "✅ Quest suggestions generated!") true].
Proof.
  destruct (suggest_slash (U := Latin1.db) example_cog 0 2 false
              [Message.mk 9 0 []; example_message]) as [out|e] eqn:Hout;
    [|vm_compute in Hout; discriminate].
  destruct (suggest_slash_suggestions Latin1.db example_cog 0 2 false
              [Message.mk 9 0 []; example_message] out 7
              (fst (example_reply false)) (snd (example_reply false)) Hout)
    as (_ & -> & _).
  - vm_compute in Hout. injection Hout as <-. right. left. vm_compute.
    reflexivity.
  - reflexivity.
Defined.

(** X24: a count below 1 or above 5 is turned down before anything is
    read: both commands send their one text, whatever the reply, the history
    and the gender flag. *)
Theorem suggest_count_out_of_range (U : UnicodeDB) (self : Cog)
    (EMBED_COLOR : Z) (count : Z) (gender : bool) (reference : option fetched)
    (history : list Message.t) :
  count < 1 \/ 5 < count ->
  suggest_prefix self EMBED_COLOR count gender reference history =
    Ok [Text (lit "❌ Please choose between 1 and 5 Pokémon per quest!") false] /\
  suggest_slash self EMBED_COLOR count gender history =
    Ok [Text (lit "❌ Please choose between 1 and 5 Pokémon per quest!") true].
Proof.
  intros Hcount. unfold suggest_prefix, suggest_slash.
  assert (H : ((count <? 1) || (5 <? count)) = true).
  { apply orb_true_iff. rewrite !Z.ltb_lt. exact Hcount. }
  rewrite H. split; reflexivity.
Qed.

Lemma suggest_count_out_of_range_witness :
  suggest_prefix (U := Latin1.db) example_cog 0 6 true
    (Some (Fetched example_message)) [example_message] =
  Ok [Text (lit "❌ Please choose between 1 and 5 Pokémon per quest!") false].
Proof.
  destruct (suggest_count_out_of_range Latin1.db example_cog 0 6 true
              (Some (Fetched example_message)) [example_message])
    as [Hprefix _].
  - right. lia.
  - exact Hprefix.
Defined.

(** X25: when there is nothing to suggest. For a message whose first embed
    is a quest embed for which [process_quest_embed] returns [None], the
    prefix command sends nothing at all, the slash command still sends its
    text of success after the deferral, and the context menu, which asks for
    2 species with the gender quests, says that no suggestions could be
    generated. *)
Theorem suggest_nothing_to_suggest (U : UnicodeDB) (self : Cog)
    (EMBED_COLOR : Z) (count : Z) (gender : bool) (message : Message.t)
    (embed : Embed.t) (history : list Message.t) :
  1 <= count <= 5 ->
  quest_embed_of message = Some embed ->
  process_quest_embed self EMBED_COLOR embed count gender = Ok None ->
  suggest_prefix self EMBED_COLOR count gender (Some (Fetched message)) history
    = Ok [] /\
  suggest_prefix self EMBED_COLOR count gender None (message :: history)
    = Ok [] /\
  suggest_slash self EMBED_COLOR count gender (message :: history)
    = Ok [Defer; Text (lit "✅ Quest suggestions generated!") true] /\
  (count = 2 -> gender = true ->
   suggest_context self EMBED_COLOR message
   = Ok [Defer; Text (lit "❌ No quest suggestions could be generated!") true]).
Proof.
  intros Hcount Hembed Hnone.
  apply count_checked in Hcount.
  unfold suggest_prefix, suggest_slash, suggest_context.
  rewrite Hcount, Hembed. cbn [firstn first_quest_message]. rewrite Hembed.
  unfold process_and_reply. rewrite Hnone. cbn [mbind result_bind app].
  repeat split. intros -> ->.
  unfold quest_embed_of in Hembed.
  destruct (Message.embeds message) as [|e es]; [discriminate|].
  destruct (is_quest_embed e) eqn:Hq; [|discriminate].
  injection Hembed as ->. cbn [negb]. rewrite Hnone. reflexivity.
Qed.

(** A quest embed whose one quest names no type, region or gender. *)
Lemma suggest_nothing_to_suggest_witness :
  suggest_slash (U := Latin1.db) example_cog 0 2 true [plain_catch_message]
  = Ok [Defer; Text (lit "✅ Quest suggestions generated!") true].
Proof.
  destruct (suggest_nothing_to_suggest Latin1.db example_cog 0 2 true
              plain_catch_message
              {| Embed.title := None; Embed.description := None;
                 Embed.color := None;
                 Embed.fields :=
                   [Field.mk (lit "Quests") (lit "1. Catch 3 Pokémon") false];
                 Embed.footer := None |} [])
    as (_ & _ & Hslash & _).
  - lia.
  - vm_compute. reflexivity.
  - vm_compute. reflexivity.
  - exact Hslash.
Defined.

(** ** From the files to the suggestions *)

Section PipelineFacts.
Context {U : UnicodeDB}.

(** The last item of a list with a given key. *)
Lemma last_occurrence {A} (f : A -> Z) (k : Z) (l : list A) :
  In k (List.map f l) ->
  exists l1 x l2,
    l = l1 ++ x :: l2 /\ f x = k /\ ~ In k (List.map f l2).
Proof.
  induction l as [|a l IH]; cbn [List.map In]; [intros []|].
  intros Hin.
  destruct (in_dec Z.eq_dec k (List.map f l)) as [Hlater | Hlater].
  - destruct (IH Hlater) as (l1 & x & l2 & -> & Hx & Hl2).
    exists (a :: l1), x, l2. auto.
  - destruct Hin as [Ha | Hin]; [|contradiction].
    exists [], a, l. auto.
Qed.

Lemma dict_get_in {V} (k : Z) (v : V) (d : list (Z * V)) :
  NoDup (List.map fst d) -> In (k, v) d -> dict_get k d = Some v.
Proof.
  unfold dict_get. induction d as [|[k0 v0] d IH]; cbn [List.map In List.find fst];
    intros Hnodup Hin; [destruct Hin|].
  apply List.NoDup_cons_iff in Hnodup as [Hk0 Hnodup].
  destruct Hin as [[= -> ->] | Hin].
  - rewrite Z.eqb_refl. reflexivity.
  - destruct (Z.eqb_spec k0 k) as [-> | Hne]; [|exact (IH Hnodup Hin)].
    contradiction Hk0. apply in_map_iff. exists (k, v). auto.
Qed.

(** An item of the table is the value of the last row with its number. *)
Lemma load_pokemon_data_in (rows : list pokemon_row) (k : Z) (v : Pokemon.t) :
  In (k, v) (load_pokemon_data rows) ->
  exists rows1 row rows2,
    rows = rows1 ++ row :: rows2 /\
    ~ In (row_Dex row) (List.map row_Dex rows2) /\
    k = row_Dex row /\ v = row_pokemon row.
Proof.
  intros Hin.
  pose proof (load_pokemon_data_loaded rows) as [Hnodup _].
  pose proof (dict_get_in k v _ Hnodup Hin) as Hget.
  assert (Hkey : In k (List.map row_Dex rows)).
  { assert (Hk : In k (List.map fst (load_pokemon_data rows))).
    { apply in_map_iff. exists (k, v). auto. }
    unfold load_pokemon_data in Hk. rewrite load_pokemon_data_step in Hk.
    apply load_keys in Hk as [[] | Hk]. exact Hk. }
  destruct (last_occurrence row_Dex k rows Hkey)
    as (rows1 & row & rows2 & -> & <- & Hlast).
  exists rows1, row, rows2. repeat split; auto.
  unfold load_pokemon_data in Hget. rewrite load_pokemon_data_step in Hget.
  rewrite fold_left_app in Hget. cbn [fold_left] in Hget.
  rewrite load_get_later in Hget by exact Hlast.
  rewrite dict_get_set_eq in Hget. congruence.
Qed.

(** A label of the table of spawn rates is that of the last row with the
    number. *)
Lemma load_spawn_rates_lookup (rows : list (Z * pystr)) (k : Z) (v : pystr) :
  load_spawn_rates rows !! k = Some v ->
  exists before after,
    rows = before ++ (k, v) :: after /\
    Forall (fun row => fst row <> k) after.
Proof.
  unfold load_spawn_rates.
  assert (H : forall acc : gmap Z pystr,
            fold_left (fun spawn_rates row => <[fst row := snd row]> spawn_rates)
              rows acc !! k = Some v ->
            (exists before after,
               rows = before ++ (k, v) :: after /\
               Forall (fun row => fst row <> k) after)
            \/ acc !! k = Some v /\ Forall (fun row => fst row <> k) rows).
  { induction rows as [|[k0 v0] rows IH]; intros acc Hlookup; cbn [fold_left] in *.
    - right. auto.
    - destruct (IH _ Hlookup) as [(before & after & -> & Hafter) | [Hacc Hrows]].
      + left. exists ((k0, v0) :: before), after. auto.
      + cbn [fst snd] in Hacc.
        apply lookup_insert_Some in Hacc as [[-> ->] | [Hne Hacc]].
        * left. exists [], rows. auto.
        * right. split; [exact Hacc|]. constructor; assumption. }
  intros Hlookup. destruct (H ∅ Hlookup) as [Hfound | [Hempty _]];
    [exact Hfound|].
  rewrite lookup_empty in Hempty. discriminate.
Qed.

Lemma unknown_no_region : ~ In (lit "Unknown") regions.
Proof.
  intros Hin. unfold regions in Hin. cbn [List.map In] in Hin.
  repeat (destruct Hin as [Hin | Hin]; [vm_compute in Hin; discriminate Hin|]).
  exact Hin.
Qed.

(** The regions of [get_region] are those that [parse_quest] looks for. *)
Lemma get_region_in_regions (dex : Z) :
  In (get_region dex) regions <-> 1 <= dex <= 1025.
Proof.
  assert (Hcases : dex < 1 \/ 1 <= dex <= 151 \/ 152 <= dex <= 251
                   \/ 252 <= dex <= 386 \/ 387 <= dex <= 493
                   \/ 494 <= dex <= 649 \/ 650 <= dex <= 721
                   \/ 722 <= dex <= 809 \/ 810 <= dex <= 905
                   \/ 906 <= dex <= 1025 \/ 1025 < dex) by lia.
  unfold get_region.
  repeat destruct Hcases as [Hcases | Hcases];
    repeat match goal with
           | |- context [(?a <=? ?b)] =>
               first [ rewrite (proj2 (Z.leb_le a b)) by lia
                     | rewrite (proj2 (Z.leb_gt a b)) by lia ]
           end;
    cbn [andb];
    try (split; [intros _; lia
                | intros _; unfold regions; cbn [List.map In]; auto 12]);
    (split; [intros Hin; destruct (unknown_no_region Hin) | lia]).
Qed.

End PipelineFacts.

(** X26: from the files to a suggestion. On the tables that [load_data]
    builds, the data of every suggested species is the value of the last row
    of [pokemondata.csv] with its dex number, and its tier is the [Chance],
    character for character, of the last row of [spawnrates.csv] with that
    number, which is one of the three labels. *)
Theorem load_data_then_find (U : UnicodeDB) (pokemon_rows : list pokemon_row)
    (spawn_rows : list (Z * pystr)) (male female genderless : list pystr)
    (quest_info : QuestInfo.t) (limit : Z) (m : Match.t) :
  In m (find_matching_pokemon
          (load_data pokemon_rows spawn_rows male female genderless)
          quest_info limit) ->
  (exists rows1 row rows2,
     pokemon_rows = rows1 ++ row :: rows2 /\
     ~ In (row_Dex row) (List.map row_Dex rows2) /\
     Match.data m = row_pokemon row) /\
  (exists before after,
     spawn_rows =
       before ++ (Pokemon.dex (Match.data m), Match.spawn_rate m) :: after /\
     Forall (fun row => fst row <> Pokemon.dex (Match.data m)) after) /\
  In (Match.spawn_rate m) [lit "1/225"; lit "1/337"; lit "1/674"].
Proof.
  intros Hm.
  apply find_matching_elements in Hm as (p & [k v] & Hp & Hitem & Hacc & ->).
  apply quest_accepts_inv in Hacc as [_ Hrate].
  cbn [load_data pokemon_data spawn_rates fst snd annotate Match.data
       Match.spawn_rate] in *.
  apply load_pokemon_data_in in Hitem
    as (rows1 & row & rows2 & -> & Hlast & -> & ->).
  split; [exists rows1, row, rows2; auto|].
  split; [|exact Hp].
  cbn [row_pokemon Pokemon.dex].
  apply load_spawn_rates_lookup, Hrate.
Qed.

(** Cyndaquil on the example tables. *)
Lemma load_data_then_find_witness :
  In (Match.spawn_rate cyndaquil) [lit "1/225"; lit "1/337"; lit "1/674"].
Proof.
  destruct (load_data_then_find Latin1.db
              [ row 1 "Bulbasaur" "Grass" "Poison"; row 4 "Charmander" "Fire" "";
                row 5 "Charmeleon" "Fire" " "; row 6 "Charizard" "Fire" "Flying";
                row 7 "Squirtle" "Water" ""; row 150 "Mewtwo" "Psychic" "";
                row 155 "Cyndaquil" "Fire" "";
                row 10091 "Alolan Rattata" "Dark" "Normal" ]
              [ (1, lit "1/337"); (4, lit "1/674"); (5, lit "1/337");
                (6, lit "1/225"); (150, lit "1/1000"); (155, lit "1/225");
                (10091, lit "1/225") ]
              [lit "Charmander"; lit "Bulbasaur"]
              [lit "Charmander "; lit "Cyndaquil"; lit "Alolan Rattata"]
              [lit "Mewtwo"]
              (type_region_quest (Some (lit "Johto")) (Some (lit "Fire"))) 5
              cyndaquil) as (_ & _ & Htier).
  - vm_compute. left. reflexivity.
  - exact Htier.
Defined.

(** X27: the nine regions that [parse_quest] looks for in a line are the
    regions that [get_region] gives to the numbers 1 to 1025, and to no
    other number. *)
Theorem get_region_regions (U : UnicodeDB) :
  (forall dex, In (get_region dex) regions <-> 1 <= dex <= 1025) /\
  (forall region,
     In region regions ->
     exists dex, 1 <= dex <= 1025 /\ get_region dex = region).
Proof.
  split; [apply get_region_in_regions|].
  intros region Hin. unfold regions in Hin. cbn [List.map In] in Hin.
  destruct Hin as [<- | [<- | [<- | [<- | [<- | [<- | [<- | [<- | [<- | []]]]]]]]]];
    [exists 1 | exists 152 | exists 252 | exists 387 | exists 494
     | exists 650 | exists 722 | exists 810 | exists 906];
    (split; [lia | vm_compute; reflexivity]).
Qed.

(** X28: a quest for a region, from the line to the suggestions. When a
    line is parsed as a type/region quest with a region, every species that
    tables built by [load_data] suggest for it has a dex number between 1 and
    1025 whose region is the region of the quest; a species numbered outside
    this range is never suggested for a region. *)
Theorem region_quest_dex_range (U : UnicodeDB) (self : Cog) (line : pystr)
    (quest_info : QuestInfo.t) (limit : Z) (region : pystr) (m : Match.t) :
  loaded (pokemon_data self) ->
  parse_quest line = Ok quest_info ->
  QuestInfo.type quest_info = TypeRegion ->
  QuestInfo.region quest_info = Some region ->
  In m (find_matching_pokemon self quest_info limit) ->
  In region regions /\
  contains region line = true /\
  get_region (Pokemon.dex (Match.data m)) = region /\
  1 <= Pokemon.dex (Match.data m) <= 1025.
Proof.
  intros [_ Hloaded] Hparse Htype Hregion Hm.
  destruct (parse_quest_ok line quest_info Hparse) as (_ & _ & Hfind & _).
  rewrite Hregion in Hfind. symmetry in Hfind.
  apply find_some in Hfind as [Hin Hcontains].
  assert (Hne : region <> []).
  { intros ->. unfold regions in Hin. cbn [List.map In] in Hin.
    repeat (destruct Hin as [Hin | Hin]; [vm_compute in Hin; discriminate Hin|]).
    exact Hin. }
  apply find_matching_elements in Hm as (p & item & _ & Hitem & Hacc & ->).
  rewrite Forall_forall in Hloaded. destruct (Hloaded item Hitem) as [Hdex Hreg].
  cbn [annotate Match.data].
  assert (Hmatch : Pokemon.region (snd item) = region).
  { unfold quest_accepts, accepts_type_region in Hacc. rewrite Htype in Hacc.
    apply andb_true_iff in Hacc as [_ Hacc].
    rewrite meets_constraints_flags, Hregion in Hacc.
    destruct region as [|c region]; [congruence|].
    cbn [truthy negb orb andb str_eqb_opt] in Hacc.
    apply andb_true_iff in Hacc as [Hacc _].
    apply str_eqb_eq in Hacc. exact Hacc. }
  rewrite Hdex. rewrite Hreg in Hmatch.
  split; [exact Hin|]. split; [exact Hcontains|]. split; [exact Hmatch|].
  apply get_region_in_regions. rewrite Hmatch. exact Hin.
Qed.

(** A Johto quest on the example tables. *)
Lemma region_quest_dex_range_witness :
  get_region (Pokemon.dex (Match.data cyndaquil)) = lit "Johto" /\
  1 <= Pokemon.dex (Match.data cyndaquil) <= 1025.
Proof.
  destruct (parse_quest (U := Latin1.db) (lit "4. Catch 1 Johto Pokémon"))
    as [q|e] eqn:Hq; [|vm_compute in Hq; discriminate].
  destruct (region_quest_dex_range Latin1.db example_cog
              (lit "4. Catch 1 Johto Pokémon") q 2 (lit "Johto") cyndaquil)
    as (_ & _ & Hregion & Hrange).
  - exact example_cog_loaded.
  - exact Hq.
  - vm_compute in Hq. injection Hq as <-. reflexivity.
  - vm_compute in Hq. injection Hq as <-. reflexivity.
  - vm_compute in Hq. injection Hq as <-. vm_compute. left. reflexivity.
  - split; assumption.
Defined.

(** ** [load_data] on the files as they are read *)

Section RawLoadFacts.
Context {U : UnicodeDB}.
Variable py_int : pystr -> option Z.

(** A cell that is no number ends the loop. *)
Lemma load_pokemon_rows_stops raws acc :
  Exists (fun raw => py_int (raw_Dex raw) = None) raws ->
  snd (load_pokemon_rows py_int raws acc) = false.
Proof.
  intros Hbad. revert acc.
  induction Hbad as [raw raws Hraw | raw raws _ IH]; intros acc;
    cbn [load_pokemon_rows].
  - rewrite Hraw. reflexivity.
  - destruct (py_int (raw_Dex raw)); [apply IH | reflexivity].
Qed.

Lemma load_spawn_rows_stops (raws : list (pystr * pystr)) acc :
  Exists (fun raw => py_int (fst raw) = None) raws ->
  snd (load_spawn_rows py_int raws acc) = false.
Proof.
  intros Hbad. revert acc.
  induction Hbad as [raw raws Hraw | raw raws _ IH]; intros acc;
    cbn [load_spawn_rows].
  - rewrite Hraw. reflexivity.
  - destruct (py_int (fst raw)); [apply IH | reflexivity].
Qed.

(** Without spawn rates nothing is suggested. *)
Lemma find_matching_no_spawn_rates self quest_info limit :
  spawn_rates self = ∅ -> find_matching_pokemon self quest_info limit = [].
Proof.
  intros Hempty.
  destruct (find_matching_pokemon self quest_info limit) as [|m ms] eqn:Hfind;
    [reflexivity|].
  assert (Hm : In m (find_matching_pokemon self quest_info limit))
    by (rewrite Hfind; left; reflexivity).
  apply find_matching_elements in Hm as (p & item & _ & _ & Hacc & _).
  apply quest_accepts_inv in Hacc as [_ Hrate].
  rewrite Hempty, lookup_empty in Hrate. discriminate.
Qed.

(** Without names in the gender sets no gender quest has a suggestion. *)
Lemma find_matching_no_gender_data self quest_info limit :
  gender_data self = no_gender_data ->
  QuestInfo.type quest_info = Gender ->
  find_matching_pokemon self quest_info limit = [].
Proof.
  intros Hempty Htype.
  destruct (find_matching_pokemon self quest_info limit) as [|m ms] eqn:Hfind;
    [reflexivity|].
  assert (Hm : In m (find_matching_pokemon self quest_info limit))
    by (rewrite Hfind; left; reflexivity).
  apply find_matching_elements in Hm as (p & item & _ & _ & Hacc & _).
  apply (quest_accepts_gender_inv _ _ _ _ Htype) in Hacc
    as (g & names & _ & Hnames & Hin).
  rewrite Hempty in Hnames. unfold no_gender_data in Hnames.
  repeat (apply lookup_insert_Some in Hnames as [[_ <-] | [_ Hnames]];
          [set_solver|]).
  rewrite lookup_empty in Hnames. discriminate.
Qed.

End RawLoadFacts.

(** X30: what one bad cell does. When [pokemondata.csv] is not there or
    one of its [Dex] cells is no number, or when [spawnrates.csv] is not
    there, the loading ends without spawn rates, and no quest gets a
    suggestion; when a [Dex] cell of [spawnrates.csv] is no number, the
    gender files are not read and no gender quest gets a suggestion. *)
Theorem load_data_raw_failure (U : UnicodeDB) (py_int : pystr -> option Z)
    (pokemon_file : option (list raw_pokemon_row))
    (spawn_file : option (list (pystr * pystr)))
    (male female genderless : option (list pystr))
    (quest_info : QuestInfo.t) (limit : Z) :
  let self :=
    load_data_raw py_int pokemon_file spawn_file male female genderless in
  let bad_pokemon :=
    match pokemon_file with
    | None => True
    | Some rows => Exists (fun raw => py_int (raw_Dex raw) = None) rows
    end in
  let bad_spawn :=
    match spawn_file with
    | None => False
    | Some rows => Exists (fun raw => py_int (fst raw) = None) rows
    end in
  bad_pokemon \/ spawn_file = None \/ bad_spawn ->
  gender_data self = no_gender_data /\
  (bad_pokemon \/ spawn_file = None ->
   spawn_rates self = ∅ /\
   find_matching_pokemon self quest_info limit = []) /\
  (QuestInfo.type quest_info = Gender ->
   find_matching_pokemon self quest_info limit = []).
Proof.
  intros self bad_pokemon bad_spawn Hbad.
  assert (Hgender : gender_data self = no_gender_data).
  { subst self bad_pokemon bad_spawn. unfold load_data_raw.
    destruct pokemon_file as [rows|]; [|reflexivity].
    pose proof (load_pokemon_rows_stops py_int rows []) as Hstop.
    destruct (load_pokemon_rows py_int rows []) as [table finished].
    cbn [snd] in Hstop.
    destruct finished; cbn [negb]; [|reflexivity].
    destruct spawn_file as [srows|]; [|reflexivity].
    pose proof (load_spawn_rows_stops py_int srows ∅) as Hstop'.
    destruct (load_spawn_rows py_int srows ∅) as [rates finished].
    cbn [snd] in Hstop'.
    destruct finished; cbn [negb]; [|reflexivity].
    destruct Hbad as [Hbad | [Hbad | Hbad]];
      [specialize (Hstop Hbad) | | specialize (Hstop' Hbad)]; discriminate. }
  split; [exact Hgender|]. split.
  - intros Hbad'.
    assert (Hrates : spawn_rates self = ∅).
    { subst self bad_pokemon. unfold load_data_raw.
      destruct pokemon_file as [rows|]; [|reflexivity].
      pose proof (load_pokemon_rows_stops py_int rows []) as Hstop.
      destruct (load_pokemon_rows py_int rows []) as [table finished].
      cbn [snd] in Hstop.
      destruct finished; cbn [negb]; [|reflexivity].
      destruct Hbad' as [Hbad' | ->]; [|reflexivity].
      specialize (Hstop Hbad'). discriminate. }
    split; [exact Hrates|].
    apply find_matching_no_spawn_rates, Hrates.
  - intros Htype. apply find_matching_no_gender_data; assumption.
Qed.

(** A second row whose number is written out: Charizard is in the table,
    and is not suggested. *)
Lemma load_data_raw_failure_witness :
  find_matching_pokemon (U := Latin1.db)
    (load_data_raw (U := Latin1.db) example_int
       (Some [ {| raw_Dex := lit "6"; raw_Name := lit "Charizard";
                  raw_Type_1 := lit "Fire"; raw_Type_2 := lit "Flying" |};
               {| raw_Dex := lit "one"; raw_Name := lit "Cyndaquil";
                  raw_Type_1 := lit "Fire"; raw_Type_2 := lit "" |} ])
       (Some [ (lit "6", lit "1/225") ])
       (Some [lit "Charizard"]) None None)
    (type_region_quest None (Some (lit "Fire"))) 2 = [].
Proof.
  destruct (load_data_raw_failure Latin1.db example_int
              (Some [ {| raw_Dex := lit "6"; raw_Name := lit "Charizard";
                         raw_Type_1 := lit "Fire"; raw_Type_2 := lit "Flying" |};
                      {| raw_Dex := lit "one"; raw_Name := lit "Cyndaquil";
                         raw_Type_1 := lit "Fire"; raw_Type_2 := lit "" |} ])
              (Some [ (lit "6", lit "1/225") ])
              (Some [lit "Charizard"]) None None
              (type_region_quest None (Some (lit "Fire"))) 2)
    as (_ & Hnone & _).
  - left. right. left. vm_compute. reflexivity.
  - apply Hnone. left. right. left. vm_compute. reflexivity.
Defined.

(** ** [load_data] with every exit of its [try] *)

Section FilesFacts.
Context {U : UnicodeDB}.
Variable py_int : pystr -> option Z.

(** The value that is stored for a row with all its cells. *)
Lemma dict_set_stored (k : Z) (p : Pokemon.t) (d : list (Z * Pokemon.t)) :
  dict_set k
    {| Stored.name := Some (Pokemon.name p);
       Stored.type1 := Some (Pokemon.type1 p);
       Stored.type2 := Pokemon.type2 p;
       Stored.dex := Pokemon.dex p;
       Stored.region := Pokemon.region p |}
    (stored_pokemon_data (tables_of {| pokemon_data := d; spawn_rates := ∅;
                                       gender_data := ∅ |})) =
  stored_pokemon_data
    (tables_of {| pokemon_data := dict_set k p d; spawn_rates := ∅;
                  gender_data := ∅ |}).
Proof.
  cbn [tables_of stored_pokemon_data pokemon_data].
  induction d as [|[k0 p0] d IH]; cbn [dict_set List.map fst snd];
    [reflexivity|].
  destruct (k0 =? k); cbn [List.map fst snd]; [reflexivity|].
  rewrite IH. reflexivity.
Qed.

Lemma load_pokemon_file_read cells rows acc :
  Forall2
    (fun c row =>
       exists dex,
         c = {| cell_Dex := Cell dex;
                cell_Name := Cell (row_Name row);
                cell_Type_1 := Cell (row_Type_1 row);
                cell_Type_2 := Cell (row_Type_2 row) |} /\
         py_int dex = Some (row_Dex row))
    cells rows ->
  load_pokemon_file py_int (List.map Row cells)
    (stored_pokemon_data
       (tables_of {| pokemon_data := acc; spawn_rates := ∅; gender_data := ∅ |}))
  = (stored_pokemon_data
       (tables_of
          {| pokemon_data :=
               fold_left
                 (fun d row => dict_set (row_Dex row) (row_pokemon row) d)
                 rows acc;
             spawn_rates := ∅; gender_data := ∅ |}),
     true).
Proof.
  intros Hread. revert acc.
  induction Hread as [|c row cells rows (dex & -> & Hdex) _ IH]; intros acc;
    cbn [List.map load_pokemon_file fold_left]; [reflexivity|].
  cbn [cell_Dex cell_Name cell_Type_1 cell_Type_2 int_of_cell value_of_cell].
  rewrite Hdex, <- IH. f_equal.
  rewrite <- dict_set_stored. reflexivity.
Qed.

Lemma load_spawn_file_read cells (rows : list (Z * pystr))
    (acc : gmap Z pystr) :
  Forall2
    (fun c row =>
       exists dex,
         c = {| cell_spawn_Dex := Cell dex; cell_Chance := Cell (snd row) |} /\
         py_int dex = Some (fst row))
    cells rows ->
  load_spawn_file py_int (List.map Row cells) (Some <$> acc) =
  (Some <$>
     fold_left (fun spawn_rates row => <[fst row := snd row]> spawn_rates)
       rows acc,
   true).
Proof.
  intros Hread. revert acc.
  induction Hread as [|c row cells rows (dex & -> & Hdex) _ IH]; intros acc;
    cbn [List.map load_spawn_file fold_left]; [reflexivity|].
  cbn [cell_spawn_Dex cell_Chance int_of_cell value_of_cell].
  rewrite Hdex, <- IH, fmap_insert. reflexivity.
Qed.

Lemma load_gender_rows_read (names : list pystr) (acc : gset pystr) :
  load_gender_rows (List.map (fun name => Row (Cell name)) names) acc =
  (fold_left (fun s name => s ∪ {[strip name]}) names acc, true).
Proof.
  revert acc. induction names as [|name names IH]; intros acc;
    cbn [List.map load_gender_rows fold_left]; [reflexivity|].
  apply IH.
Qed.

Lemma load_gender_file_read (file : csv_file cell) (names : list pystr) :
  gender_file_of file names ->
  load_gender_file file = (load_gender names, true).
Proof.
  intros [[-> ->] | ->]; cbn [load_gender_file]; [reflexivity|].
  apply load_gender_rows_read.
Qed.

End FilesFacts.

(** X29: when [pokemondata.csv] and [spawnrates.csv] are read to their
    end, every row has the cells that [load_data] reads of it and every
    [Dex] cell is a number, and each gender file is not found or is read to
    its end with a name in every row, [load_data] leaves the tables of the
    rows: texts for every name, first type and [Chance]. *)
Theorem load_data_files_complete (U : UnicodeDB) (py_int : pystr -> option Z)
    (pokemon_file : csv_file pokemon_cells) (pokemon_rows : list pokemon_row)
    (spawn_file : csv_file spawn_cells) (spawn_rows : list (Z * pystr))
    (male female genderless : csv_file cell)
    (male_names female_names genderless_names : list pystr) :
  pokemon_file_of py_int pokemon_file pokemon_rows ->
  spawn_file_of py_int spawn_file spawn_rows ->
  gender_file_of male male_names ->
  gender_file_of female female_names ->
  gender_file_of genderless genderless_names ->
  load_data_files py_int pokemon_file spawn_file male female genderless =
  tables_of
    (load_data pokemon_rows spawn_rows male_names female_names
       genderless_names).
Proof.
  intros (pcells & -> & Hpokemon) (scells & -> & Hspawn) Hmale Hfemale Hnone.
  unfold load_data_files.
  pose proof (load_pokemon_file_read py_int pcells pokemon_rows [] Hpokemon)
    as Hp.
  cbn [tables_of stored_pokemon_data pokemon_data List.map] in Hp.
  rewrite Hp. cbn [negb].
  pose proof (load_spawn_file_read py_int scells spawn_rows ∅ Hspawn) as Hs.
  rewrite fmap_empty in Hs. rewrite Hs. cbn [negb].
  rewrite (load_gender_file_read _ _ Hmale),
    (load_gender_file_read _ _ Hfemale),
    (load_gender_file_read _ _ Hnone).
  cbn [negb]. reflexivity.
Qed.

(** Two species from their cells, without a file of genderless names. *)
Lemma load_data_files_complete_witness :
  load_data_files (U := Latin1.db) example_int
    (Rows [ Row {| cell_Dex := Cell (lit "6"); cell_Name := Cell (lit "Charizard");
                   cell_Type_1 := Cell (lit "Fire");
                   cell_Type_2 := Cell (lit "Flying") |};
            Row {| cell_Dex := Cell (lit "155");
                   cell_Name := Cell (lit "Cyndaquil");
                   cell_Type_1 := Cell (lit "Fire");
                   cell_Type_2 := Cell (lit "") |} ])
    (Rows [ Row {| cell_spawn_Dex := Cell (lit "6");
                   cell_Chance := Cell (lit "1/225") |};
            Row {| cell_spawn_Dex := Cell (lit "155");
                   cell_Chance := Cell (lit "1/225") |} ])
    (Rows [Row (Cell (lit "Cyndaquil"))]) (Rows [Row (Cell (lit "Charizard "))])
    FileNotFound =
  tables_of
    (load_data (U := Latin1.db)
       [row 6 "Charizard" "Fire" "Flying"; row 155 "Cyndaquil" "Fire" ""]
       [(6, lit "1/225"); (155, lit "1/225")]
       [lit "Cyndaquil"] [lit "Charizard "] []).
Proof.
  apply (load_data_files_complete Latin1.db example_int).
  - exists [ {| cell_Dex := Cell (lit "6"); cell_Name := Cell (lit "Charizard");
                cell_Type_1 := Cell (lit "Fire");
                cell_Type_2 := Cell (lit "Flying") |};
             {| cell_Dex := Cell (lit "155"); cell_Name := Cell (lit "Cyndaquil");
                cell_Type_1 := Cell (lit "Fire");
                cell_Type_2 := Cell (lit "") |} ].
    split; [reflexivity|].
    repeat constructor; eexists; (split; [reflexivity | vm_compute; reflexivity]).
  - exists [ {| cell_spawn_Dex := Cell (lit "6");
                cell_Chance := Cell (lit "1/225") |};
             {| cell_spawn_Dex := Cell (lit "155");
                cell_Chance := Cell (lit "1/225") |} ].
    split; [reflexivity|].
    repeat constructor; eexists; (split; [reflexivity | vm_compute; reflexivity]).
  - right. reflexivity.
  - right. reflexivity.
  - left. split; reflexivity.
Defined.

(** On files whose rows are all read and have all their cells,
    [load_data_files] is [load_data_raw]. *)
Section RawFiles.
Context {U : UnicodeDB}.
Variable py_int : pystr -> option Z.

Lemma load_pokemon_file_raw (raws : list raw_pokemon_row)
    (acc : list (Z * Pokemon.t)) :
  load_pokemon_file py_int (List.map (fun row => Row (cells_of_row row)) raws)
    (stored_pokemon_data
       (tables_of {| pokemon_data := acc; spawn_rates := ∅; gender_data := ∅ |}))
  = (stored_pokemon_data
       (tables_of
          {| pokemon_data := fst (load_pokemon_rows py_int raws acc);
             spawn_rates := ∅; gender_data := ∅ |}),
     snd (load_pokemon_rows py_int raws acc)).
Proof.
  revert acc. induction raws as [|raw raws IH]; intros acc;
    cbn [List.map load_pokemon_file load_pokemon_rows]; [reflexivity|].
  cbn [cells_of_row cell_Dex cell_Name cell_Type_1 cell_Type_2 int_of_cell
       value_of_cell].
  destruct (py_int (raw_Dex raw)) as [dex|]; [|reflexivity].
  rewrite <- IH. f_equal. rewrite <- dict_set_stored. reflexivity.
Qed.

Lemma load_spawn_file_raw (raws : list (pystr * pystr)) (acc : gmap Z pystr) :
  load_spawn_file py_int (List.map (fun row => Row (cells_of_spawn row)) raws)
    (Some <$> acc)
  = (Some <$> fst (load_spawn_rows py_int raws acc),
     snd (load_spawn_rows py_int raws acc)).
Proof.
  revert acc. induction raws as [|raw raws IH]; intros acc;
    cbn [List.map load_spawn_file load_spawn_rows]; [reflexivity|].
  cbn [cells_of_spawn cell_spawn_Dex cell_Chance int_of_cell value_of_cell].
  destruct (py_int (fst raw)) as [dex|]; [|reflexivity].
  rewrite <- IH, fmap_insert. reflexivity.
Qed.

Lemma load_gender_file_raw (file : option (list pystr)) :
  load_gender_file (file_of Cell file) = (load_gender (default [] file), true).
Proof.
  destruct file as [names|]; cbn [file_of load_gender_file default];
    [|reflexivity].
  apply load_gender_rows_read.
Qed.

Lemma load_data_files_raw (pokemon_file : option (list raw_pokemon_row))
    (spawn_file : option (list (pystr * pystr)))
    (male female genderless : option (list pystr)) :
  load_data_files py_int (file_of cells_of_row pokemon_file)
    (file_of cells_of_spawn spawn_file)
    (file_of Cell male) (file_of Cell female) (file_of Cell genderless) =
  tables_of (load_data_raw py_int pokemon_file spawn_file male female genderless).
Proof.
  unfold load_data_files, load_data_raw.
  destruct pokemon_file as [raws|]; cbn [file_of]; [|reflexivity].
  pose proof (load_pokemon_file_raw raws []) as Hp.
  cbn [tables_of stored_pokemon_data pokemon_data List.map] in Hp.
  rewrite Hp.
  destruct (load_pokemon_rows py_int raws []) as [table finished].
  cbn [fst snd]. destruct finished; cbn [negb]; [|reflexivity].
  destruct spawn_file as [sraws|]; cbn [file_of]; [|reflexivity].
  pose proof (load_spawn_file_raw sraws ∅) as Hs.
  rewrite fmap_empty in Hs. rewrite Hs.
  destruct (load_spawn_rows py_int sraws ∅) as [rates finished].
  cbn [fst snd]. destruct finished; cbn [negb]; [|reflexivity].
  rewrite !load_gender_file_raw. cbn [negb]. reflexivity.
Qed.

End RawFiles.
